(** * Dataset Manager: key management, envelope encryption, record store,
      ingestion and tag extraction.

    A shallow embedding of the JavaScript sources
      - [src/crypto/keyManager.js]  (classes [KeyManager] and [Encryption]),
      - [src/ai/apiClient.js]       (class [AIAPIClient]),
      - [src/db/indexedDB.js]       (class [IndexedDBManager]) with [src/db/schema.js],
      - [src/utils/fileHandler.js]  (class [FileHandler]),
      - [src/ui/categoryManager.js] (class [CategoryManager]),
      - [src/ai/tagProcessor.js]    (class [TagProcessor]),
      - [src/ui/settings.js]        (class [SettingsManager]),
      - [src/utils/validators.js]   (class [Validators]),
    followed by the properties proved about them.

    The file has three parts: the model (definitions only), a small concrete
    platform on which the model runs, and the theorems. *)

From Stdlib Require Import ZArith NArith List String Ascii Bool Lia.
From Stdlib.Strings Require Import Byte.
From stdpp Require Import base option list gmap strings fin_maps.

Local Open Scope string_scope.
Local Open Scope list_scope.

(* ===================================================================== *)
(** * Part I. The model                                                    *)
(* ===================================================================== *)

(* --------------------------------------------------------------------- *)
(** ** 1. JavaScript text, as the tag extractor sees it                    *)
(* --------------------------------------------------------------------- *)

(** [AIAPIClient.extractTags] looks inside its string: it counts UTF-16 code
    units ([length], [substring]) and tests single code units against
    character classes, one of which contains U+2022.  A response is therefore
    a list of code units.  Strings that the program only stores and compares
    (identifiers, names, base64 text) are plain [string]s further down. *)
Module JsText.

Definition code_unit := N.
Definition jsstring := list code_unit.

Definition unit_of_ascii (a : ascii) : code_unit := N_of_ascii a.

(** An ASCII literal as a JavaScript string. *)
Fixpoint js (s : string) : jsstring :=
  match s with
  | EmptyString => []
  | String a s' => unit_of_ascii a :: js s'
  end.

Fixpoint take_while {A} (p : A -> bool) (l : list A) : list A :=
  match l with
  | [] => []
  | x :: l' => if p x then x :: take_while p l' else []
  end.

Fixpoint drop_while {A} (p : A -> bool) (l : list A) : list A :=
  match l with
  | [] => []
  | x :: l' => if p x then drop_while p l' else l
  end.

(** The regular-expression class [\s], which is also what [trim] removes:
    ECMAScript WhiteSpace and LineTerminator. *)
Definition is_space (c : code_unit) : bool :=
  ((9 <=? c) && (c <=? 13) || (c =? 32) || (c =? 160) || (c =? 5760)
   || (8192 <=? c) && (c <=? 8202) || (c =? 8232) || (c =? 8233)
   || (c =? 8239) || (c =? 8287) || (c =? 12288) || (c =? 65279))%N.

(** The class [\d]. *)
Definition is_digit (c : code_unit) : bool := ((48 <=? c) && (c <=? 57))%N.

(** The class [[,\n;]]. *)
Definition is_delimiter (c : code_unit) : bool :=
  ((c =? 44) || (c =? 10) || (c =? 59))%N.

(** The class [[-•*]]: hyphen-minus, U+2022 BULLET, asterisk. *)
Definition is_bullet (c : code_unit) : bool :=
  ((c =? 45) || (c =? 8226) || (c =? 42))%N.

(** [s.split(re)] for a regular expression matching exactly one code unit of
    the class [p]: every match ends a fragment, and the text after the last
    match (possibly empty) is the last fragment. *)
Fixpoint split (p : code_unit -> bool) (s : jsstring) : list jsstring :=
  match s with
  | [] => [[]]
  | c :: s' =>
      if p c then [] :: split p s'
      else match split p s' with
           | [] => [[c]]
           | f :: fs => (c :: f) :: fs
           end
  end.

Definition trimStart (s : jsstring) : jsstring := drop_while is_space s.
Definition trimEnd (s : jsstring) : jsstring := rev (drop_while is_space (rev s)).

(** [s.trim()]. *)
Definition trim (s : jsstring) : jsstring := trimEnd (trimStart s).

(** [s.replace(/^[-•*]\s*/, '')]. *)
Definition replace_bullet (s : jsstring) : jsstring :=
  match s with
  | c :: r => if is_bullet c then drop_while is_space r else s
  | [] => []
  end.

(** [s.replace(/^\d+\.\s*/, '')]: the greedy run of digits has to be followed
    at once by a full stop (46); giving digits back cannot help, since the
    next unit would then be a digit. *)
Definition replace_numbering (s : jsstring) : jsstring :=
  match take_while is_digit s, drop_while is_digit s with
  | _ :: _, d :: r => if (d =? 46)%N then drop_while is_space r else s
  | _, _ => s
  end.

(** [s.substring(0, n)]. *)
Definition substring0 (n : nat) (s : jsstring) : jsstring := take n s.

(** [a.slice(0, n)]. *)
Definition slice0 {A} (n : nat) (a : list A) : list A := take n a.

(** [!s]: the empty string is the only falsy one. *)
Definition is_empty (s : jsstring) : bool :=
  match s with
  | [] => true
  | _ :: _ => false
  end.

(** [a === b] on strings. *)
Fixpoint same_text (a b : jsstring) : bool :=
  match a, b with
  | [], [] => true
  | x :: a', y :: b' => (x =? y)%N && same_text a' b'
  | _, _ => false
  end.

(** [array.includes(t)] on an array of strings. *)
Definition includes (t : jsstring) (array : list jsstring) : bool :=
  existsb (same_text t) array.

End JsText.

(* --------------------------------------------------------------------- *)
(** ** 2. [AIAPIClient.extractTags]                                        *)
(* --------------------------------------------------------------------- *)

Module TagExtraction.
Import JsText.

(** The chain applied to each [line] of the loop. *)
Definition cleaned (line : jsstring) : jsstring :=
  substring0 50 (replace_numbering (replace_bullet (trim line))).

(** One turn of [for (const line of lines)]: [tags.push(cleaned)] under the
    length test. *)
Definition extractTags_body (tags : list jsstring) (line : jsstring) : list jsstring :=
  let c := cleaned line in
  if (2 <? length c)%nat && (length c <? 100)%nat then tags ++ [c] else tags.

Definition extractTags (response : jsstring) : list jsstring :=
  let lines := split is_delimiter response in
  let tags := fold_left extractTags_body lines [] in
  slice0 10 tags.

(** The rule as the specification words it, stage by stage. *)
Definition rule_fragments (response : jsstring) : list jsstring :=
  split is_delimiter response.

Definition rule_strip_marker (fragment : jsstring) : jsstring :=
  replace_numbering (replace_bullet fragment).

Definition rule_normalise (fragment : jsstring) : jsstring :=
  take 50 (rule_strip_marker (trim fragment)).

Definition rule_keep (t : jsstring) : bool :=
  (2 <? length t)%nat && (length t <? 100)%nat.

Definition tag_rule (response : jsstring) : list jsstring :=
  take 10 (List.filter rule_keep (List.map rule_normalise (rule_fragments response))).

(** The characters the rule names, as UTF-16 code units: comma, newline and
    semicolon; hyphen-minus, U+2022 BULLET and asterisk; the full stop; and
    white space as ECMAScript has it (TAB, LF, VT, FF, CR, SP, NBSP, U+1680,
    U+2000 to U+200A, LS, PS, U+202F, U+205F, U+3000, U+FEFF). *)
Definition rule_delimiters : list code_unit := [44; 10; 59]%N.

Definition rule_bullets : list code_unit := [45; 8226; 42]%N.

Definition rule_full_stop : code_unit := 46%N.

Definition rule_white_space : list code_unit :=
  [9; 10; 11; 12; 13; 32; 160; 5760;
   8192; 8193; 8194; 8195; 8196; 8197; 8198; 8199; 8200; 8201; 8202;
   8232; 8233; 8239; 8287; 12288; 65279]%N.

(** A decimal digit, [0] to [9]. *)
Definition rule_digit (c : code_unit) : Prop := (48 <= c <= 57)%N.

(** The text does not begin with white space. *)
Definition rule_starts_clean (s : jsstring) : Prop :=
  match s with
  | [] => True
  | c :: _ => ~ In c rule_white_space
  end.

End TagExtraction.

(* --------------------------------------------------------------------- *)
(** ** 3. Exceptions and the state-and-exception monad                     *)
(* --------------------------------------------------------------------- *)

(** A thrown JavaScript value: [new Error(message)] has the name ["Error"];
    the platform raises [DOMException]s and [SyntaxError]s under their own
    names. *)
Record exn := mkExn { exn_name : string; exn_message : string }.

Definition Error (message : string) : exn := mkExn "Error" message.

Inductive result (A : Type) : Type :=
| Ok (a : A)
| Throw (e : exn).
Arguments Ok {A} a.
Arguments Throw {A} e.

(** A method body: it runs on a state, returns or throws, and leaves a state
    behind either way (what was written before a [throw] stays written). *)
Definition JS (S A : Type) : Type := S -> result A * S.

Definition ret {S A} (a : A) : JS S A := fun s => (Ok a, s).

Definition throw {S A} (e : exn) : JS S A := fun s => (Throw e, s).

Definition bind {S A B} (c : JS S A) (k : A -> JS S B) : JS S B :=
  fun s => match c s with
           | (Ok a, s') => k a s'
           | (Throw e, s') => (Throw e, s')
           end.

(** [try { c } catch (error) { h error }]. *)
Definition try_catch {S A} (c : JS S A) (h : exn -> JS S A) : JS S A :=
  fun s => match c s with
           | (Ok a, s') => (Ok a, s')
           | (Throw e, s') => h e s'
           end.

Definition gets {S A} (f : S -> A) : JS S A := fun s => (Ok (f s), s).

Definition modify {S} (f : S -> S) : JS S unit := fun s => (Ok tt, f s).

(** A value the platform may refuse to produce. *)
Definition lift_result {S A} (r : result A) : JS S A := fun s => (r, s).

Declare Scope js_scope.
Delimit Scope js_scope with js.
Notation "'let*' x := c 'in' k" := (bind c (fun x => k))
  (at level 10, x pattern, c at level 100, k at level 200) : js_scope.
Local Open Scope js_scope.

(** [for (const x of xs) { body x }]. *)
Fixpoint for_of {S A} (xs : list A) (body : A -> JS S unit) : JS S unit :=
  match xs with
  | [] => ret tt
  | x :: xs' => let* _ := body x in for_of xs' body
  end.

(** JavaScript truthiness of a value that is [null]/[undefined] or a string:
    only a non-empty string is truthy. *)
Definition truthy (v : option string) : bool :=
  match v with
  | Some s => negb (String.eqb s "")
  | None => false
  end.

(** [v || d] for such a value and a string default. *)
Definition or_default (v : option string) (d : string) : string :=
  match v with
  | Some s => if String.eqb s "" then d else s
  | None => d
  end.

(* --------------------------------------------------------------------- *)
(** ** 4. The browser platform                                             *)
(* --------------------------------------------------------------------- *)

(** Algorithm parameters handed to [crypto.subtle]. *)
Record Pbkdf2Params := mkPbkdf2Params {
  pbkdf2_name : string;
  pbkdf2_salt : list byte;
  pbkdf2_iterations : N;
  pbkdf2_hash : string }.

Record AesKeyGenParams := mkAesKeyGenParams {
  aes_name : string;
  aes_length : N }.

Record Blob := mkBlob { blob_bytes : list byte; blob_type : string }.

Record File := mkFile { file_name : string; file_type : string; file_bytes : list byte }.

(** [file.size]. *)
Definition file_size (f : File) : Z := Z.of_nat (length (file_bytes f)).

(** A [File] is a [Blob]. *)
Definition blob_of_file (f : File) : Blob := mkBlob (file_bytes f) (file_type f).

Inductive MediaType := image | video.

Definition MediaType_name (t : MediaType) : string :=
  match t with image => "image" | video => "video" end.

(** What the program calls and does not define: Web Crypto, the base64 and
    UTF-8 codecs, [JSON] on the one record shape it is used for, and the
    decoding of pictures and films behind the two media processors. *)
Class WebPlatform := {
  CryptoKey : Type;
  (** [new TextEncoder().encode(s)] and [new TextDecoder().decode(b)] *)
  TextEncoder_encode : string -> list byte;
  TextDecoder_decode : list byte -> string;
  (** [btoa(binary)]; [atob(base64)], [None] for [InvalidCharacterError] *)
  btoa : string -> string;
  atob : string -> option string;
  (** [JSON.stringify({ encrypted, iv })], and
      [const { encrypted, iv } = JSON.parse(text)] read as the two strings
      that reach [atob]; [None] when parsing or destructuring throws *)
  JSON_stringify_test : string -> string -> string;
  JSON_parse_test : string -> option (string * string);
  (** [crypto.subtle.importKey(format, keyData, algorithm, extractable, usages)] *)
  subtle_importKey : string -> list byte -> string -> bool -> list string -> CryptoKey;
  (** [crypto.subtle.deriveKey(algorithm, baseKey, derivedKeyType, extractable, usages)] *)
  subtle_deriveKey :
    Pbkdf2Params -> CryptoKey -> AesKeyGenParams -> bool -> list string -> CryptoKey;
  (** [crypto.subtle.encrypt({ name: 'AES-GCM', iv }, key, data)] *)
  subtle_encrypt : list byte -> CryptoKey -> list byte -> list byte;
  (** [crypto.subtle.decrypt({ name: 'AES-GCM', iv }, key, data)],
      [None] when the promise rejects (authentication fails) *)
  subtle_decrypt : list byte -> CryptoKey -> list byte -> option (list byte);
  (** a JavaScript number that the program passes on without computing on it *)
  JsNumber : Type;
  number_zero : JsNumber;
  number_truthy : JsNumber -> bool;
  (** loading a picture: [naturalWidth], [naturalHeight], or [onerror] *)
  image_dimensions : File -> option (Z * Z);
  (** loading a film: [videoWidth], [videoHeight], [duration], or [onerror] *)
  video_dimensions : File -> option (Z * Z * JsNumber);
  (** the canvas work of [generateThumbnail], per processor *)
  render_thumbnail : MediaType -> File -> result Blob }.

(** *** Persisted records (src/db/schema.js) *)

Record Category := mkCategory {
  category_id : string;
  category_name : string;
  category_description : string;
  category_color : string;
  category_createdAt : Z }.

Record MediaItem `{WebPlatform} := mkMediaItem {
  id : string;
  categoryId : string;
  type : MediaType;
  fileName : string;
  fileSize : Z;
  width : Z;
  height : Z;
  duration : JsNumber;
  thumbnailData : list byte;
  thumbnailIv : string;
  fileData : list byte;
  fileIv : string;
  mimeType : string;
  aiTags : list JsText.jsstring;
  aiPrompt : string;
  aiModel : string;
  aiResponse : option string;
  createdAt : Z;
  lastTagged : option Z;
  deletedOriginal : bool }.
Arguments mkMediaItem {_}.

Record AIConfig := mkAIConfig {
  config_id : string;
  config_name : string;
  config_apiUrl : string;
  apiKeyEncrypted : string;
  apiKeyIv : string;
  config_model : string;
  config_defaultPrompt : string;
  isActive : bool;
  lastTested : Z }.

(** *** The objects of one page *)

(** [class KeyManager]: [this.masterKey], [this.salt]. *)
Record KeyManagerState `{WebPlatform} := mkKeyManager {
  masterKey : option CryptoKey;
  salt : option (list byte) }.
Arguments mkKeyManager {_}.

(** The browser: [localStorage]; the bytes [crypto.getRandomValues] will
    hand out and how many it has handed out; the values [Math.random() * 16 | 0]
    will take; the readings [Date.now()] will give; and the calls received by
    the progress callback of an import. *)
Record Browser := mkBrowser {
  localStorage : gmap string string;
  entropy : nat -> byte;
  entropy_pos : nat;
  math_random : nat -> N;
  math_pos : nat;
  clock : nat -> Z;
  clock_pos : nat;
  progress_calls : list (nat * nat * string) }.

(** The three object stores of [IndexedDBManager], each keyed by [id]. *)
Record Database `{WebPlatform} := mkDatabase {
  categories : gmap string Category;
  mediaItems : gmap string MediaItem;
  aiConfigs : gmap string AIConfig }.
Arguments mkDatabase {_}.

(** [class AIAPIClient]: the fields [saveConfig] assigns. *)
Record AIClientState := mkAIClient {
  apiUrl : string;
  apiKey : string;
  model : string;
  defaultPrompt : string }.

(** [class CategoryManager]: [this.categories], [this.activeCategory]. *)
Record CategoryManagerState := mkCategoryManager {
  cm_categories : list Category;
  activeCategory : string }.

Record World `{WebPlatform} := mkWorld {
  keyManager : KeyManagerState;
  browser : Browser;
  db : Database;
  aiClient : AIClientState;
  categoryManager : CategoryManagerState }.
Arguments mkWorld {_}.

(** *** Field updates *)

Section Updates.
Context `{WebPlatform}.

Definition with_keyManager (k : KeyManagerState) (w : World) : World :=
  mkWorld k (browser w) (db w) (aiClient w) (categoryManager w).

Definition with_browser (b : Browser) (w : World) : World :=
  mkWorld (keyManager w) b (db w) (aiClient w) (categoryManager w).

Definition with_db (d : Database) (w : World) : World :=
  mkWorld (keyManager w) (browser w) d (aiClient w) (categoryManager w).

Definition with_aiClient (a : AIClientState) (w : World) : World :=
  mkWorld (keyManager w) (browser w) (db w) a (categoryManager w).

Definition with_categoryManager (c : CategoryManagerState) (w : World) : World :=
  mkWorld (keyManager w) (browser w) (db w) (aiClient w) c.

Definition with_masterKey (k : option CryptoKey) (s : KeyManagerState) : KeyManagerState :=
  mkKeyManager k (salt s).

Definition with_salt (v : option (list byte)) (s : KeyManagerState) : KeyManagerState :=
  mkKeyManager (masterKey s) v.

Definition with_localStorage (l : gmap string string) (b : Browser) : Browser :=
  mkBrowser l (entropy b) (entropy_pos b) (math_random b) (math_pos b)
    (clock b) (clock_pos b) (progress_calls b).

Definition with_entropy_pos (n : nat) (b : Browser) : Browser :=
  mkBrowser (localStorage b) (entropy b) n (math_random b) (math_pos b)
    (clock b) (clock_pos b) (progress_calls b).

Definition with_math_pos (n : nat) (b : Browser) : Browser :=
  mkBrowser (localStorage b) (entropy b) (entropy_pos b) (math_random b) n
    (clock b) (clock_pos b) (progress_calls b).

Definition with_clock_pos (n : nat) (b : Browser) : Browser :=
  mkBrowser (localStorage b) (entropy b) (entropy_pos b) (math_random b) (math_pos b)
    (clock b) n (progress_calls b).

Definition with_progress_calls (l : list (nat * nat * string)) (b : Browser) : Browser :=
  mkBrowser (localStorage b) (entropy b) (entropy_pos b) (math_random b) (math_pos b)
    (clock b) (clock_pos b) l.

Definition with_categories (m : gmap string Category) (d : Database) : Database :=
  mkDatabase m (mediaItems d) (aiConfigs d).

Definition with_mediaItems (m : gmap string MediaItem) (d : Database) : Database :=
  mkDatabase (categories d) m (aiConfigs d).

Definition with_aiConfigs (m : gmap string AIConfig) (d : Database) : Database :=
  mkDatabase (categories d) (mediaItems d) m.

(** [item.categoryId = c]. *)
Definition with_categoryId (c : string) (i : MediaItem) : MediaItem :=
  mkMediaItem (id i) c (type i) (fileName i) (fileSize i) (width i) (height i)
    (duration i) (thumbnailData i) (thumbnailIv i) (fileData i) (fileIv i)
    (mimeType i) (aiTags i) (aiPrompt i) (aiModel i) (aiResponse i)
    (createdAt i) (lastTagged i) (deletedOriginal i).

End Updates.

(** [config.isActive = b]. *)
Definition with_isActive (b : bool) (c : AIConfig) : AIConfig :=
  mkAIConfig (config_id c) (config_name c) (config_apiUrl c) (apiKeyEncrypted c)
    (apiKeyIv c) (config_model c) (config_defaultPrompt c) b (lastTested c).

(** *** Browser services *)

Section BrowserServices.
Context `{WebPlatform}.

(** [localStorage.getItem(key)]: the stored string, or [null]. *)
Definition getItem (key : string) : JS World (option string) :=
  gets (fun w => localStorage (browser w) !! key).

(** [localStorage.setItem(key, value)]. *)
Definition setItem (key value : string) : JS World unit :=
  modify (fun w =>
    with_browser (with_localStorage (<[key := value]> (localStorage (browser w))) (browser w)) w).

(** [crypto.getRandomValues(new Uint8Array(n))]: the next [n] bytes. *)
Definition getRandomValues (n : nat) : JS World (list byte) :=
  fun w =>
    let b := browser w in
    (Ok (List.map (fun i => entropy b (entropy_pos b + i)) (seq 0 n)),
     with_browser (with_entropy_pos (entropy_pos b + n) b) w).

(** [Math.random() * 16 | 0]: the next value, between 0 and 15. *)
Definition random_nibble : JS World N :=
  fun w =>
    let b := browser w in
    (Ok (math_random b (math_pos b) mod 16)%N,
     with_browser (with_math_pos (S (math_pos b)) b) w).

(** [Date.now()]: the next reading. *)
Definition Date_now : JS World Z :=
  fun w =>
    let b := browser w in
    (Ok (clock b (clock_pos b)), with_browser (with_clock_pos (S (clock_pos b)) b) w).

(** [v.toString(16)] for [0 <= v < 16]. *)
Definition hex_digit (v : N) : ascii :=
  match v with
  | 0%N => "0" | 1%N => "1" | 2%N => "2" | 3%N => "3"
  | 4%N => "4" | 5%N => "5" | 6%N => "6" | 7%N => "7"
  | 8%N => "8" | 9%N => "9" | 10%N => "a" | 11%N => "b"
  | 12%N => "c" | 13%N => "d" | 14%N => "e" | _ => "f"
  end%char.

(** The callback of [replace(/[xy]/g, ...)], run on one character of the
    template; other characters stay. *)
Definition uuid_char (c : ascii) : JS World ascii :=
  if Ascii.eqb c "x" then
    let* r := random_nibble in ret (hex_digit r)
  else if Ascii.eqb c "y" then
    let* r := random_nibble in ret (hex_digit (N.lor (N.land r 3) 8))
  else ret c.

Fixpoint uuid_replace (template : string) : JS World string :=
  match template with
  | EmptyString => ret EmptyString
  | String c rest =>
      let* d := uuid_char c in
      let* ds := uuid_replace rest in
      ret (String d ds)
  end.

(** [generateUUID()], the same method in [AIAPIClient], [FileHandler] and
    [CategoryManager]. *)
Definition generateUUID : JS World string :=
  uuid_replace "xxxxxxxx-xxxx-4xxx-yxxx-xxxxxxxxxxxx".

End BrowserServices.

(** *** Further services of the page *)

(** What the methods outside the claims' own call and the program does not
    define: [trim] on a stored text; the UTF-16 code units of a stored
    text; what the index [isActive] of the store [aiConfigs] answers to
    [getAll(true)] (the records it finds, or the exception it throws: the
    key is a boolean); and the canvas work of [ImageProcessor.toBase64ForAI]
    and [VideoProcessor.extractFrameForAI], a data URL or a rejection. *)
Class PageServices := {
  String_trim : string -> string;
  code_units : string -> JsText.jsstring;
  isActive_getAll_true : gmap string AIConfig -> result (list AIConfig);
  toBase64ForAI : Blob -> result string;
  extractFrameForAI : Blob -> result string }.

(** The fields that tagging assigns: [aiTags], [aiPrompt], [aiModel],
    [aiResponse], [lastTagged]. *)
Definition with_tagging `{WebPlatform} (tags : list JsText.jsstring) (prompt model : string)
    (response : option string) (tagged : option Z) (i : MediaItem) : MediaItem :=
  mkMediaItem (id i) (categoryId i) (type i) (fileName i) (fileSize i) (width i) (height i)
    (duration i) (thumbnailData i) (thumbnailIv i) (fileData i) (fileIv i)
    (mimeType i) tags prompt model response (createdAt i) tagged (deletedOriginal i).

(** [item.aiTags = tags]. *)
Definition with_aiTags `{WebPlatform} (tags : list JsText.jsstring) (i : MediaItem)
  : MediaItem :=
  with_tagging tags (aiPrompt i) (aiModel i) (aiResponse i) (lastTagged i) i.

(** Assignments to the fields of the [AIAPIClient]. *)
Definition set_apiUrl (v : string) (a : AIClientState) : AIClientState :=
  mkAIClient v (apiKey a) (model a) (defaultPrompt a).

Definition set_apiKey (v : string) (a : AIClientState) : AIClientState :=
  mkAIClient (apiUrl a) v (model a) (defaultPrompt a).

Definition set_model (v : string) (a : AIClientState) : AIClientState :=
  mkAIClient (apiUrl a) (apiKey a) v (defaultPrompt a).

Definition set_defaultPrompt (v : string) (a : AIClientState) : AIClientState :=
  mkAIClient (apiUrl a) (apiKey a) (model a) v.

(* --------------------------------------------------------------------- *)
(** ** 5. [class KeyManager] and [class Encryption]                        *)
(* --------------------------------------------------------------------- *)

Module KeyManager.
Section KeyManager.
Context `{WebPlatform}.

(** [bufferToBase64(buffer)]: the loop appends [String.fromCharCode(bytes[i])]
    to [binary], then [btoa(binary)]. *)
Definition bufferToBase64 (buffer : list byte) : string :=
  let binary :=
    fold_left (fun binary b => String.append binary (String (ascii_of_byte b) EmptyString))
      buffer "" in
  btoa binary.

(** [base64ToBuffer(base64)]: [atob], then [bytes[i] = binary.charCodeAt(i)]. *)
Definition base64ToBuffer (base64 : string) : JS World (list byte) :=
  match atob base64 with
  | None => throw (mkExn "InvalidCharacterError" "atob")
  | Some binary => ret (List.map byte_of_ascii (list_ascii_of_string binary))
  end.

Definition set_salt (s : list byte) : JS World unit :=
  modify (fun w => with_keyManager (with_salt (Some s) (keyManager w)) w).

Definition set_masterKey (k : option CryptoKey) : JS World unit :=
  modify (fun w => with_keyManager (with_masterKey k (keyManager w)) w).

Definition initializeSalt : JS World unit :=
  let* storedSalt := getItem "app_salt" in
  match storedSalt with
  | Some stored =>
      if truthy storedSalt then
        let* s := base64ToBuffer stored in
        set_salt s
      else
        let* s := getRandomValues 16 in
        let* _ := set_salt s in
        setItem "app_salt" (bufferToBase64 s)
  | None =>
      let* s := getRandomValues 16 in
      let* _ := set_salt s in
      setItem "app_salt" (bufferToBase64 s)
  end.

Definition isPasswordSet (w : World) : bool :=
  match localStorage (browser w) !! "app_salt" with
  | Some _ => true
  | None => false
  end.

Definition deriveKey (password : string) : JS World CryptoKey :=
  let* this_salt := gets (fun w => salt (keyManager w)) in
  let* _ := match this_salt with
            | None => initializeSalt
            | Some _ => ret tt
            end in
  let passwordBuffer := TextEncoder_encode password in
  let keyMaterial := subtle_importKey "raw" passwordBuffer "PBKDF2" false ["deriveKey"] in
  let* this_salt := gets (fun w => salt (keyManager w)) in
  match this_salt with
  | None => throw (mkExn "TypeError" "salt")
  | Some s =>
      let key :=
        subtle_deriveKey
          (mkPbkdf2Params "PBKDF2" s 100000 "SHA-256")
          keyMaterial
          (mkAesKeyGenParams "AES-GCM" 256)
          false
          ["encrypt"; "decrypt"] in
      let* _ := set_masterKey (Some key) in
      ret key
  end.

(** [crypto.subtle.decrypt] as a step that may reject. *)
Definition decrypt (iv : list byte) (key : CryptoKey) (data : list byte) : JS World (list byte) :=
  match subtle_decrypt iv key data with
  | Some plain => ret plain
  | None => throw (mkExn "OperationError" "decrypt")
  end.

(** [JSON.parse(testData)] with the destructuring that follows it. *)
Definition parse_test (testData : string) : JS World (string * string) :=
  match JSON_parse_test testData with
  | Some r => ret r
  | None => throw (mkExn "SyntaxError" "JSON.parse")
  end.

Definition verifyPassword (password : string) : JS World bool :=
  let* testData := getItem "password_test" in
  match testData with
  | Some data =>
      if truthy testData then
        try_catch
          (let* key := deriveKey password in
           let* (encrypted, iv) := parse_test data in
           let* iv_buffer := base64ToBuffer iv in
           let* encrypted_buffer := base64ToBuffer encrypted in
           let* decrypted := decrypt iv_buffer key encrypted_buffer in
           let text := TextDecoder_decode decrypted in
           ret (String.eqb text "PASSWORD_CORRECT"))
          (fun _ => ret false)
      else ret true
  | None => ret true
  end.

Definition setupPassword (password : string) : JS World bool :=
  let* _ := initializeSalt in
  let* key := deriveKey password in
  let testData := TextEncoder_encode "PASSWORD_CORRECT" in
  let* iv := getRandomValues 12 in
  let encrypted := subtle_encrypt iv key testData in
  let* _ := setItem "password_test"
              (JSON_stringify_test (bufferToBase64 encrypted) (bufferToBase64 iv)) in
  ret true.

Definition getMasterKey : JS World CryptoKey :=
  let* k := gets (fun w => masterKey (keyManager w)) in
  match k with
  | None => throw (Error "Application is locked. Please unlock first.")
  | Some key => ret key
  end.

Definition lock : JS World unit := set_masterKey None.

Definition isUnlocked (w : World) : bool :=
  match masterKey (keyManager w) with
  | Some _ => true
  | None => false
  end.

End KeyManager.
End KeyManager.

Module Encryption.
Section Encryption.
Context `{WebPlatform}.

Definition bufferToBase64 := KeyManager.bufferToBase64.
Definition base64ToBuffer := KeyManager.base64ToBuffer.

(** [encryptFile(fileBlob)]: the only argument is the blob. *)
Definition encryptFile (fileBlob : Blob) : JS World (list byte * list byte) :=
  let* key := KeyManager.getMasterKey in
  let* iv := getRandomValues 12 in
  let fileBuffer := blob_bytes fileBlob in
  let encrypted := subtle_encrypt iv key fileBuffer in
  ret (encrypted, iv).

Definition decryptFile (encryptedData iv : list byte) : JS World (list byte) :=
  let* key := KeyManager.getMasterKey in
  let* decrypted := KeyManager.decrypt iv key encryptedData in
  ret decrypted.

Definition encryptString (text : string) : JS World (string * string) :=
  let* key := KeyManager.getMasterKey in
  let* iv := getRandomValues 12 in
  let data := TextEncoder_encode text in
  let encrypted := subtle_encrypt iv key data in
  ret (bufferToBase64 encrypted, bufferToBase64 iv).

Definition decryptString (encryptedBase64 ivBase64 : string) : JS World string :=
  let* key := KeyManager.getMasterKey in
  let* encrypted := base64ToBuffer encryptedBase64 in
  let* iv := base64ToBuffer ivBase64 in
  let* decrypted := KeyManager.decrypt iv key encrypted in
  ret (TextDecoder_decode decrypted).

(** [encryptBlob(blob)]: [{ data, iv }] with the IV in base64. *)
Definition encryptBlob (blob : Blob) : JS World (list byte * string) :=
  let* (encrypted, iv) := encryptFile blob in
  ret (encrypted, bufferToBase64 iv).

Definition decryptToBlob (encryptedData : list byte) (ivBase64 mimeType : string)
  : JS World Blob :=
  let* iv := base64ToBuffer ivBase64 in
  let* decrypted := decryptFile encryptedData iv in
  ret (mkBlob decrypted mimeType).

End Encryption.
End Encryption.

(* --------------------------------------------------------------------- *)
(** ** 6. [class IndexedDBManager]                                         *)
(* --------------------------------------------------------------------- *)

(** An object store with in-line keys ([keyPath: 'id']) and unique indexes,
    as [schema] declares them.  [store.add] refuses a key that is present;
    [store.add] and [store.put] both refuse a record whose value under a
    unique index is already held by a record with another key. *)
Module ObjectStore.
Section ObjectStore.
Context {T : Type} (key : T -> string) (unique : list (T -> string)).

Definition clashes (data : T) (m : gmap string T) : bool :=
  existsb (fun ix =>
    existsb (fun kr => negb (String.eqb (fst kr) (key data))
                       && String.eqb (ix (snd kr)) (ix data))
            (map_to_list m))
    unique.

Definition ConstraintError : exn := mkExn "ConstraintError" "constraint".

Definition add (data : T) (m : gmap string T) : result (gmap string T) :=
  match m !! key data with
  | Some _ => Throw ConstraintError
  | None => if clashes data m then Throw ConstraintError
            else Ok (<[key data := data]> m)
  end.

Definition put (data : T) (m : gmap string T) : result (gmap string T) :=
  if clashes data m then Throw ConstraintError
  else Ok (<[key data := data]> m).

Definition get (k : string) (m : gmap string T) : option T := m !! k.

Definition getAll (m : gmap string T) : list T := List.map snd (map_to_list m).

Definition remove (k : string) (m : gmap string T) : gmap string T := delete k m.

(** [index.getAll(value)] on a non-unique index with string keys. *)
Definition getByIndex (ix : T -> string) (value : string) (m : gmap string T) : list T :=
  List.filter (fun r => String.eqb (ix r) value) (getAll m).

End ObjectStore.
End ObjectStore.

Module IndexedDBManager.
Section IndexedDBManager.
Context `{WebPlatform}.

(** Run a write on one store: the request succeeds with the new store, or
    fails and leaves the store as it was. *)
Definition write {T} (read : Database -> gmap string T)
    (store : gmap string T -> Database -> Database)
    (op : gmap string T -> result (gmap string T)) : JS World unit :=
  fun w => match op (read (db w)) with
           | Ok m => (Ok tt, with_db (store m (db w)) w)
           | Throw e => (Throw e, w)
           end.

(** categories: unique index [name] *)
Definition addCategory (category : Category) : JS World unit :=
  write categories with_categories (ObjectStore.add category_id [category_name] category).

Definition getCategory (k : string) : JS World (option Category) :=
  gets (fun w => ObjectStore.get k (categories (db w))).

Definition getAllCategories : JS World (list Category) :=
  gets (fun w => ObjectStore.getAll (categories (db w))).

Definition updateCategory (category : Category) : JS World unit :=
  write categories with_categories (ObjectStore.put category_id [category_name] category).

Definition deleteCategory (k : string) : JS World unit :=
  write categories with_categories (fun m => Ok (ObjectStore.remove k m)).

(** mediaItems: no unique index *)
Definition addMediaItem (item : MediaItem) : JS World unit :=
  write mediaItems with_mediaItems (ObjectStore.add id [] item).

Definition getMediaItem (k : string) : JS World (option MediaItem) :=
  gets (fun w => ObjectStore.get k (mediaItems (db w))).

Definition getAllMediaItems : JS World (list MediaItem) :=
  gets (fun w => ObjectStore.getAll (mediaItems (db w))).

Definition getMediaItemsByCategory (c : string) : JS World (list MediaItem) :=
  gets (fun w => ObjectStore.getByIndex categoryId c (mediaItems (db w))).

Definition updateMediaItem (item : MediaItem) : JS World unit :=
  write mediaItems with_mediaItems (ObjectStore.put id [] item).

Definition deleteMediaItem (k : string) : JS World unit :=
  write mediaItems with_mediaItems (fun m => Ok (ObjectStore.remove k m)).

(** aiConfigs: unique index [name] *)
Definition addAIConfig (config : AIConfig) : JS World unit :=
  write aiConfigs with_aiConfigs (ObjectStore.add config_id [config_name] config).

Definition getAIConfig (k : string) : JS World (option AIConfig) :=
  gets (fun w => ObjectStore.get k (aiConfigs (db w))).

Definition getAllAIConfigs : JS World (list AIConfig) :=
  gets (fun w => ObjectStore.getAll (aiConfigs (db w))).

Definition updateAIConfig (config : AIConfig) : JS World unit :=
  write aiConfigs with_aiConfigs (ObjectStore.put config_id [config_name] config).

Definition deleteAIConfig (k : string) : JS World unit :=
  write aiConfigs with_aiConfigs (fun m => Ok (ObjectStore.remove k m)).

(** [getActiveAIConfig()]: [getByIndex(STORES.AI_CONFIGS, 'isActive', true)],
    then [configs.length > 0 ? configs[0] : null]. *)
Definition getActiveAIConfig `{PageServices} : JS World (option AIConfig) :=
  let* configs := (fun w => (isActive_getAll_true (aiConfigs (db w)), w)) in
  ret (match configs with
       | config :: _ => Some config
       | [] => None
       end).

(** [clearAll()]: [store.clear()] on the three stores, one after the other. *)
Definition clearAll : JS World unit :=
  let* _ := write categories with_categories (fun _ => Ok ∅) in
  let* _ := write mediaItems with_mediaItems (fun _ => Ok ∅) in
  write aiConfigs with_aiConfigs (fun _ => Ok ∅).

End IndexedDBManager.
End IndexedDBManager.

(* --------------------------------------------------------------------- *)
(** ** 7. [AIAPIClient.saveConfig]                                         *)
(* --------------------------------------------------------------------- *)

(** The [config] argument; [id], [name] and [defaultPrompt] may be missing. *)
Record ConfigInput := mkConfigInput {
  input_id : option string;
  input_name : option string;
  input_apiUrl : string;
  input_apiKey : string;
  input_model : string;
  input_defaultPrompt : option string }.

Module AIAPIClient.
Section AIAPIClient.
Context `{WebPlatform}.

Definition extractTags := TagExtraction.extractTags.

Definition saveConfig (config : ConfigInput) : JS World AIConfig :=
  try_catch
    (let* (encrypted, iv) := Encryption.encryptString (input_apiKey config) in
     let* the_id :=
       (if truthy (input_id config) then ret (or_default (input_id config) "")
        else generateUUID) in
     let* this_defaultPrompt := gets (fun w => defaultPrompt (aiClient w)) in
     let* now := Date_now in
     let configData :=
       mkAIConfig
         the_id
         (or_default (input_name config) "Default Config")
         (input_apiUrl config)
         encrypted
         iv
         (input_model config)
         (or_default (input_defaultPrompt config) this_defaultPrompt)
         true
         now in
     let* allConfigs := IndexedDBManager.getAllAIConfigs in
     let* _ :=
       for_of allConfigs (fun oldConfig =>
         if negb (String.eqb (config_id oldConfig) the_id) then
           IndexedDBManager.updateAIConfig (with_isActive false oldConfig)
         else ret tt) in
     let* existingConfig := IndexedDBManager.getAIConfig the_id in
     let* _ :=
       match existingConfig with
       | Some _ => IndexedDBManager.updateAIConfig configData
       | None => IndexedDBManager.addAIConfig configData
       end in
     let* _ :=
       modify (fun w =>
         with_aiClient
           (mkAIClient
              (input_apiUrl config)
              (input_apiKey config)
              (input_model config)
              (or_default (input_defaultPrompt config) (defaultPrompt (aiClient w))))
           w) in
     ret configData)
    (fun error => throw error).

(** [loadConfig(db)]: the fields are assigned one after the other, so what
    was assigned before a failed decryption stays assigned; the handler only
    logs. *)
Definition loadConfig `{PageServices} : JS World unit :=
  try_catch
    (let* config := IndexedDBManager.getActiveAIConfig in
     match config with
     | Some config =>
         let* _ := modify (fun w => with_aiClient (set_apiUrl (config_apiUrl config) (aiClient w)) w) in
         let* _ := modify (fun w => with_aiClient (set_model (config_model config) (aiClient w)) w) in
         let* _ :=
           (if truthy (Some (apiKeyEncrypted config)) && truthy (Some (apiKeyIv config)) then
              let* key := Encryption.decryptString (apiKeyEncrypted config) (apiKeyIv config) in
              modify (fun w => with_aiClient (set_apiKey key (aiClient w)) w)
            else ret tt) in
         if truthy (Some (config_defaultPrompt config)) then
           modify (fun w =>
             with_aiClient (set_defaultPrompt (config_defaultPrompt config) (aiClient w)) w)
         else ret tt
     | None => ret tt
     end)
    (fun _ => ret tt).

(** What [analyzeImage] hands to [fetch]: the URL, the [Authorization]
    header, and the fields of the JSON body that vary. *)
Record ChatRequest := mkChatRequest {
  req_url : string;
  req_authorization : string;
  req_model : string;
  req_prompt : string;
  req_image : string;
  req_max_tokens : N }.

(** What comes back: [fetch] rejects; or the response is not [ok], with
    [response.status] as the template prints it, [response.statusText] and
    [errorData.error?.message] if the body has one; or it is [ok], and
    [response.json()] with [data.choices?.[0]?.message?.content] gives a
    text, nothing, or an exception. *)
Inductive FetchOutcome :=
| fetch_rejected (e : exn)
| fetch_not_ok (status statusText : string) (message : option string)
| fetch_ok (content : result (option string)).

(** [{ success, tags, fullResponse, error }]. *)
Record Analysis := mkAnalysis {
  an_success : bool;
  an_tags : list JsText.jsstring;
  an_fullResponse : string;
  an_error : option string }.

(** [analyzeImage(base64Image, customPrompt)]; [fetch] is the answer of the
    network to the one request the method sends. *)
Definition analyzeImage `{PageServices} (fetch : ChatRequest -> FetchOutcome)
    (base64Image : string) (customPrompt : option string) : JS World Analysis :=
  let* this := gets (fun w => aiClient w) in
  if negb (truthy (Some (apiUrl this))) || negb (truthy (Some (apiKey this))) then
    throw (Error "AI API not configured")
  else
    let prompt := or_default customPrompt (defaultPrompt this) in
    try_catch
      (let* fullResponse :=
         match fetch (mkChatRequest
                        (String.append (apiUrl this) "/chat/completions")
                        (String.append "Bearer " (apiKey this))
                        (model this) prompt base64Image 500) with
         | fetch_rejected e => throw e
         | fetch_not_ok status statusText message =>
             throw (Error (String.append "API Error: "
                             (String.append status
                                (String.append " - " (or_default message statusText)))))
         | fetch_ok (Throw e) => throw e
         | fetch_ok (Ok content) => ret (or_default content "")
         end in
       let tags := extractTags (code_units fullResponse) in
       ret (mkAnalysis true tags fullResponse None))
      (fun error => ret (mkAnalysis false [] "" (Some (exn_message error)))).

End AIAPIClient.
End AIAPIClient.

(* --------------------------------------------------------------------- *)
(** ** 8. [class FileHandler] with the two media processors                *)
(* --------------------------------------------------------------------- *)

(** What [extractMetadata] resolves with; only films have a [duration]. *)
Record Metadata `{WebPlatform} := mkMetadata {
  md_width : Z;
  md_height : Z;
  md_duration : option JsNumber;
  md_size : Z;
  md_type : string;
  md_fileName : string }.
Arguments mkMetadata {_}.

(** One entry of the array [importFiles] returns:
    [{ success: true, item, fileName }] or [{ success: false, error, fileName }]. *)
Inductive ImportResult `{WebPlatform} :=
| Imported (item : MediaItem) (fileName : string)
| Failed (error : string) (fileName : string).

Module ImageProcessor.
Section ImageProcessor.
Context `{WebPlatform}.

Definition validTypes : list string :=
  ["image/jpeg"; "image/jpg"; "image/png"; "image/gif"; "image/webp"].

(** [validTypes.includes(file.type)]. *)
Definition isValidImage (file : File) : bool :=
  existsb (String.eqb (file_type file)) validTypes.

Definition extractMetadata (file : File) : JS World Metadata :=
  match image_dimensions file with
  | Some (w, h) => ret (mkMetadata w h None (file_size file) (file_type file) (file_name file))
  | None => throw (Error "Failed to load image")
  end.

Definition generateThumbnail (file : File) : JS World Blob :=
  lift_result (render_thumbnail image file).

End ImageProcessor.
End ImageProcessor.

Module VideoProcessor.
Section VideoProcessor.
Context `{WebPlatform}.

Definition validTypes : list string :=
  ["video/mp4"; "video/webm"; "video/ogg"; "video/quicktime"; "video/x-msvideo";
   "video/x-matroska"].

Definition isValidVideo (file : File) : bool :=
  existsb (String.eqb (file_type file)) validTypes.

Definition extractMetadata (file : File) : JS World Metadata :=
  match video_dimensions file with
  | Some (w, h, d) =>
      ret (mkMetadata w h (Some d) (file_size file) (file_type file) (file_name file))
  | None => throw (Error "Failed to load video metadata")
  end.

Definition generateThumbnail (file : File) : JS World Blob :=
  lift_result (render_thumbnail video file).

End VideoProcessor.
End VideoProcessor.

Module FileHandler.
Section FileHandler.
Context `{WebPlatform}.

(** [metadata.duration || 0]. *)
Definition duration_or_zero (d : option JsNumber) : JsNumber :=
  match d with
  | Some n => if number_truthy n then n else number_zero
  | None => number_zero
  end.

Definition processFile (file : File) (categoryId : string) : JS World MediaItem :=
  let isImage := ImageProcessor.isValidImage file in
  let isVideo := VideoProcessor.isValidVideo file in
  if negb isImage && negb isVideo then throw (Error "Unsupported file type")
  else
    let type := if isImage then image else video in
    let* metadata :=
      (if isImage then ImageProcessor.extractMetadata file
       else VideoProcessor.extractMetadata file) in
    let* thumbnailBlob :=
      (if isImage then ImageProcessor.generateThumbnail file
       else VideoProcessor.generateThumbnail file) in
    let* encryptedThumbnail := Encryption.encryptBlob thumbnailBlob in
    let* encryptedFile := Encryption.encryptBlob (blob_of_file file) in
    let* new_id := generateUUID in
    let* now := Date_now in
    let mediaItem :=
      mkMediaItem
        new_id
        categoryId
        type
        (md_fileName metadata)
        (md_size metadata)
        (md_width metadata)
        (md_height metadata)
        (duration_or_zero (md_duration metadata))
        (fst encryptedThumbnail)
        (snd encryptedThumbnail)
        (fst encryptedFile)
        (snd encryptedFile)
        (file_type file)
        []
        ""
        ""
        None
        now
        None
        false in
    let* _ := IndexedDBManager.addMediaItem mediaItem in
    ret mediaItem.

(** [progressCallback(current, total, fileName)]: the call is recorded. *)
Definition report_progress (current total : nat) (name : string) : JS World unit :=
  modify (fun w =>
    with_browser
      (with_progress_calls (progress_calls (browser w) ++ [(current, total, name)]) (browser w))
      w).

(** The [for] loop of [importFiles], from index [i] on. *)
Fixpoint importFiles_loop (i totalFiles : nat) (files : list File) (categoryId : string)
    (progressCallback : bool) (results : list ImportResult)
  : JS World (list ImportResult) :=
  match files with
  | [] => ret results
  | file :: rest =>
      let* _ := (if progressCallback then report_progress (i + 1) totalFiles (file_name file)
                 else ret tt) in
      let* results' :=
        try_catch
          (let* mediaItem := processFile file categoryId in
           ret (results ++ [Imported mediaItem (file_name file)]))
          (fun error => ret (results ++ [Failed (exn_message error) (file_name file)])) in
      importFiles_loop (S i) totalFiles rest categoryId progressCallback results'
  end.

Definition importFiles (files : list File) (categoryId : string) (progressCallback : bool)
  : JS World (list ImportResult) :=
  importFiles_loop 0 (length files) files categoryId progressCallback [].

(** [URL.createObjectURL(blob)]: a URL that resolves to [blob], identified
    with the blob it resolves to. *)
Inductive ObjectURL := object_url (blob : Blob).

Definition getDecryptedThumbnail (mediaItem : MediaItem) : JS World ObjectURL :=
  try_catch
    (let* blob :=
       Encryption.decryptToBlob (thumbnailData mediaItem) (thumbnailIv mediaItem)
         "image/jpeg" in
     ret (object_url blob))
    (fun error => throw error).

Definition getDecryptedFile (mediaItem : MediaItem) : JS World ObjectURL :=
  try_catch
    (let* blob :=
       Encryption.decryptToBlob (fileData mediaItem) (fileIv mediaItem)
         (mimeType mediaItem) in
     ret (object_url blob))
    (fun error => throw error).

Definition getDecryptedBlob (mediaItem : MediaItem) : JS World Blob :=
  try_catch
    (let* blob :=
       Encryption.decryptToBlob (fileData mediaItem) (fileIv mediaItem)
         (mimeType mediaItem) in
     ret blob)
    (fun error => throw error).

(** [validateFileSize(file)]: at most 500 MB. *)
Definition validateFileSize (file : File) : bool :=
  (file_size file <=? 500 * 1024 * 1024)%Z.

End FileHandler.
End FileHandler.

(* --------------------------------------------------------------------- *)
(** ** 9. [CategoryManager.deleteCategory]                                 *)
(* --------------------------------------------------------------------- *)

Module CategoryManager.
Section CategoryManager.
Context `{WebPlatform}.

(** [loadCategories()]: the cache is refreshed; rendering is not modelled. *)
Definition loadCategories : JS World unit :=
  try_catch
    (let* cs := IndexedDBManager.getAllCategories in
     modify (fun w =>
       with_categoryManager (mkCategoryManager cs (activeCategory (categoryManager w))) w))
    (fun _ => ret tt).

Definition setActiveCategory (categoryId : string) : JS World unit :=
  modify (fun w =>
    with_categoryManager (mkCategoryManager (cm_categories (categoryManager w)) categoryId) w).

(** [deleteCategory(categoryId)]; [confirmed] is the answer to [confirm(...)]. *)
Definition deleteCategory (confirmed : bool) (categoryId : string) : JS World unit :=
  if negb confirmed then ret tt
  else
    try_catch
      (let* items := IndexedDBManager.getMediaItemsByCategory categoryId in
       let* _ :=
         for_of items (fun item =>
           IndexedDBManager.updateMediaItem (with_categoryId "uncategorized" item)) in
       let* _ := IndexedDBManager.deleteCategory categoryId in
       let* _ := loadCategories in
       let* active := gets (fun w => activeCategory (categoryManager w)) in
       if String.eqb active categoryId then setActiveCategory "all" else ret tt)
      (fun _ => ret tt).

Definition getActiveCategory : JS World string :=
  gets (fun w => activeCategory (categoryManager w)).

(** [getCategoryById(categoryId)]: [this.categories.find(...) || null]. *)
Definition getCategoryById (categoryId : string) : JS World (option Category) :=
  gets (fun w =>
    List.find (fun cat => String.eqb (category_id cat) categoryId)
      (cm_categories (categoryManager w))).

(** [saveCategory()]: the three inputs and [modal.dataset.editId] are its
    arguments; [alert] and [closeModal] only show. *)
Definition saveCategory `{PageServices} (nameInput descInput colorInput : string)
    (editId : option string) : JS World unit :=
  let name := String_trim nameInput in
  if negb (truthy (Some name)) then ret tt
  else
    let description := String_trim descInput in
    let* now := Date_now in
    try_catch
      (let* _ :=
         (if truthy editId then
            IndexedDBManager.updateCategory
              (mkCategory (or_default editId "") name description colorInput now)
          else
            let* new_id := generateUUID in
            IndexedDBManager.addCategory
              (mkCategory new_id name description colorInput now)) in
       loadCategories)
      (fun _ => ret tt).

(** A property of the object [counts]: a number, or what [+ 1] makes of a
    property inherited from [Object.prototype] (a text, not a count). *)
Inductive CountValue := count_number (n : nat) | not_a_count.

(** The names [Object.prototype] defines. *)
Definition Object_prototype : list string :=
  ["constructor"; "__defineGetter__"; "__defineSetter__"; "hasOwnProperty";
   "__lookupGetter__"; "__lookupSetter__"; "isPrototypeOf"; "propertyIsEnumerable";
   "toString"; "valueOf"; "__proto__"; "toLocaleString"].

Definition inherited (k : string) : bool := existsb (String.eqb k) Object_prototype.

(** One turn of [items.forEach]:
    [counts[item.categoryId] = (counts[item.categoryId] || 0) + 1].
    Reading an absent key finds the inherited property, if there is one;
    writing creates the key, except for [__proto__], whose setter ignores
    what is not an object. *)
Definition count_item (counts : gmap string CountValue) (item : MediaItem)
  : gmap string CountValue :=
  let k := categoryId item in
  match counts !! k with
  | Some (count_number n) => <[k := count_number (n + 1)]> counts
  | Some not_a_count => <[k := not_a_count]> counts
  | None =>
      if inherited k then
        (if String.eqb k "__proto__" then counts else <[k := not_a_count]> counts)
      else <[k := count_number 1]> counts
  end.

Definition calculateCategoryCounts (items : list MediaItem) : gmap string CountValue :=
  fold_left count_item items ∅.

(** [counts[category.id] || 0], as [renderCategories] shows it. *)
Definition count_shown (counts : gmap string CountValue) (k : string) : CountValue :=
  match counts !! k with
  | Some v => v
  | None => if inherited k then not_a_count else count_number 0
  end.

End CategoryManager.
End CategoryManager.

(* --------------------------------------------------------------------- *)
(** ** 9b. [class TagProcessor]                                            *)
(* --------------------------------------------------------------------- *)

(** What [tagItem] resolves with: [{ success: true, item, tags }] or
    [{ success: false, item, error }]. *)
Inductive TagResult `{WebPlatform} :=
| Tagged (item : MediaItem) (tags : list JsText.jsstring)
| NotTagged (item : MediaItem) (error : string).

(** What [batchTag] resolves with: [{ success, failed, results }]. *)
Record BatchReport `{WebPlatform} := mkBatchReport {
  batch_success : nat;
  batch_failed : nat;
  batch_results : list TagResult }.
Arguments mkBatchReport {_}.

Module TagProcessor.
Section TagProcessor.
Context `{WebPlatform} `{PageServices}.

(** [tagItem(mediaItem, customPrompt)]; [fetch] is the answer of the network
    to the request of [analyzeImage].  The five assignments change the
    object before it is written, so a failure of the write would report the
    changed object. *)
Definition tagItem (fetch : AIAPIClient.ChatRequest -> AIAPIClient.FetchOutcome)
    (mediaItem : MediaItem) (customPrompt : option string) : JS World TagResult :=
  try_catch
    (let* blob := FileHandler.getDecryptedBlob mediaItem in
     let* base64Image :=
       lift_result (match type mediaItem with
                    | image => toBase64ForAI blob
                    | video => extractFrameForAI blob
                    end) in
     let* result := AIAPIClient.analyzeImage fetch base64Image customPrompt in
     if negb (AIAPIClient.an_success result) then
       throw (Error (or_default (AIAPIClient.an_error result) "AI analysis failed"))
     else
       let* this_defaultPrompt := gets (fun w => defaultPrompt (aiClient w)) in
       let* this_model := gets (fun w => model (aiClient w)) in
       let* now := Date_now in
       let tagged :=
         with_tagging (AIAPIClient.an_tags result)
           (or_default customPrompt this_defaultPrompt) this_model
           (Some (AIAPIClient.an_fullResponse result)) (Some now) mediaItem in
       try_catch
         (let* _ := IndexedDBManager.updateMediaItem tagged in
          ret (Tagged tagged (AIAPIClient.an_tags result)))
         (fun error => ret (NotTagged tagged (exn_message error))))
    (fun error => ret (NotTagged mediaItem (exn_message error))).

Definition tag_success (r : TagResult) : bool :=
  match r with
  | Tagged _ _ => true
  | NotTagged _ _ => false
  end.

Definition tag_item (r : TagResult) : MediaItem :=
  match r with
  | Tagged item _ => item
  | NotTagged item _ => item
  end.

(** The loop of [batchTag] from index [i] on; [fetches i] answers the
    request made for the item at index [i].  The progress callback receives
    the item, recorded here under its file name; [delay] only waits. *)
Fixpoint batchTag_loop (fetches : nat -> AIAPIClient.ChatRequest -> AIAPIClient.FetchOutcome)
    (i total : nat) (mediaItems : list MediaItem) (progressCallback : bool)
    (customPrompt : option string) (results : list TagResult)
    (successCount failedCount : nat) : JS World BatchReport :=
  match mediaItems with
  | [] => ret (mkBatchReport successCount failedCount results)
  | item :: rest =>
      let* _ := (if progressCallback
                 then FileHandler.report_progress (i + 1) total (fileName item)
                 else ret tt) in
      let* result := tagItem (fetches i) item customPrompt in
      if tag_success result then
        batchTag_loop fetches (S i) total rest progressCallback customPrompt
          (results ++ [result]) (S successCount) failedCount
      else
        batchTag_loop fetches (S i) total rest progressCallback customPrompt
          (results ++ [result]) successCount (S failedCount)
  end.

Definition batchTag (fetches : nat -> AIAPIClient.ChatRequest -> AIAPIClient.FetchOutcome)
    (mediaItems : list MediaItem) (progressCallback : bool) (customPrompt : option string)
  : JS World BatchReport :=
  batchTag_loop fetches 0 (length mediaItems) mediaItems progressCallback customPrompt [] 0 0.

(** [retryFailed(failedResults, ...)]. *)
Definition retryFailed (fetches : nat -> AIAPIClient.ChatRequest -> AIAPIClient.FetchOutcome)
    (failedResults : list TagResult) (progressCallback : bool) (customPrompt : option string)
  : JS World BatchReport :=
  let itemsToRetry :=
    List.map tag_item (List.filter (fun r => negb (tag_success r)) failedResults) in
  batchTag fetches itemsToRetry progressCallback customPrompt.

(** [!item.aiTags || item.aiTags.length === 0]. *)
Definition untagged (item : MediaItem) : bool :=
  match aiTags item with
  | [] => true
  | _ :: _ => false
  end.

(** [getUntaggedItems(categoryId = 'all')]. *)
Definition getUntaggedItems (categoryId : option string) : JS World (list MediaItem) :=
  let categoryId := match categoryId with Some c => c | None => "all" end in
  try_catch
    (let* items :=
       (if String.eqb categoryId "all" then IndexedDBManager.getAllMediaItems
        else IndexedDBManager.getMediaItemsByCategory categoryId) in
     ret (List.filter untagged items))
    (fun _ => ret []).

(** [clearTags(mediaItem)]. *)
Definition clearTags (mediaItem : MediaItem) : JS World MediaItem :=
  let cleared := with_tagging [] "" "" (Some "") None mediaItem in
  let* _ := IndexedDBManager.updateMediaItem cleared in
  ret cleared.

(** [addManualTag(mediaItem, tag)]; [aiTags] is always an array here. *)
Definition addManualTag (mediaItem : MediaItem) (tag : JsText.jsstring)
  : JS World MediaItem :=
  let trimmedTag := JsText.trim tag in
  if negb (JsText.is_empty trimmedTag)
     && negb (JsText.includes trimmedTag (aiTags mediaItem)) then
    let pushed := with_aiTags (aiTags mediaItem ++ [trimmedTag]) mediaItem in
    let* _ := IndexedDBManager.updateMediaItem pushed in
    ret pushed
  else ret mediaItem.

(** [removeTag(mediaItem, tag)]. *)
Definition removeTag (mediaItem : MediaItem) (tag : JsText.jsstring) : JS World MediaItem :=
  let filtered :=
    with_aiTags (List.filter (fun t => negb (JsText.same_text t tag)) (aiTags mediaItem))
      mediaItem in
  let* _ := IndexedDBManager.updateMediaItem filtered in
  ret filtered.

End TagProcessor.
End TagProcessor.

(* --------------------------------------------------------------------- *)
(** ** 9c. [class SettingsManager]                                         *)
(* --------------------------------------------------------------------- *)

Module SettingsManager.
Section SettingsManager.
Context `{WebPlatform} `{PageServices}.

(** [showStatus('aiConfigStatus', message, type)], the last thing every
    path of [saveAIConfig] does. *)
Record Status := mkStatus { status_message : string; status_type : string }.

(** [saveAIConfig()]; the four inputs are its arguments. *)
Definition saveAIConfig (apiUrlInput apiKeyInput modelInput defaultPromptInput : string)
  : JS World Status :=
  let apiUrl := String_trim apiUrlInput in
  let apiKey := String_trim apiKeyInput in
  let model := String_trim modelInput in
  let defaultPrompt := String_trim defaultPromptInput in
  if negb (truthy (Some apiUrl)) || negb (truthy (Some apiKey)) || negb (truthy (Some model))
  then ret (mkStatus "请填写所有必填字段" "error")
  else
    try_catch
      (let* _ :=
         AIAPIClient.saveConfig
           (mkConfigInput None (Some "Default Config") apiUrl apiKey model
              (Some defaultPrompt)) in
       ret (mkStatus "配置已保存！" "success"))
      (fun error =>
         ret (mkStatus (String.append "保存失败: " (exn_message error)) "error")).

(** [saveGeneralSettings()]; the two check boxes and the slider are its
    arguments. *)
Definition saveGeneralSettings (autoDelete encryptFiles : bool) (thumbnailQuality : string)
  : JS World unit :=
  let* _ := setItem "autoDeleteOriginal" (if autoDelete then "true" else "false") in
  let* _ := setItem "encryptFiles" (if encryptFiles then "true" else "false") in
  setItem "thumbnailQuality" thumbnailQuality.

(** [clearAllData()]; [confirmed] is the answer of the dialog.  The result
    tells whether the reload of the page has been scheduled. *)
Definition clearAllData (confirmed : bool) : JS World bool :=
  if negb confirmed then ret false
  else
    try_catch
      (let* _ := IndexedDBManager.clearAll in
       ret true)
      (fun _ => ret false).

End SettingsManager.
End SettingsManager.

(* --------------------------------------------------------------------- *)
(** ** 9d. [class Validators]                                              *)
(* --------------------------------------------------------------------- *)

(** Regular expressions over code units, as far as the validators use them:
    character classes, sequence, alternative and repetition, matched by
    derivatives.  [re.test(s)] for an expression anchored at both ends is
    [matches]; for a single class without anchors it is [existsb]. *)
Module RegExp.
Import JsText.

Inductive regex :=
| re_none
| re_empty
| re_class (p : code_unit -> bool)
| re_seq (r1 r2 : regex)
| re_alt (r1 r2 : regex)
| re_star (r : regex).

(** [r+]. *)
Definition re_plus (r : regex) : regex := re_seq r (re_star r).

Fixpoint nullable (r : regex) : bool :=
  match r with
  | re_none => false
  | re_empty => true
  | re_class _ => false
  | re_seq r1 r2 => nullable r1 && nullable r2
  | re_alt r1 r2 => nullable r1 || nullable r2
  | re_star _ => true
  end.

Fixpoint derive (c : code_unit) (r : regex) : regex :=
  match r with
  | re_none => re_none
  | re_empty => re_none
  | re_class p => if p c then re_empty else re_none
  | re_seq r1 r2 =>
      if nullable r1 then re_alt (re_seq (derive c r1) r2) (derive c r2)
      else re_seq (derive c r1) r2
  | re_alt r1 r2 => re_alt (derive c r1) (derive c r2)
  | re_star r1 => re_seq (derive c r1) (re_star r1)
  end.

(** [/^r$/.test(s)]. *)
Definition matches (r : regex) (s : jsstring) : bool :=
  nullable (fold_left (fun r c => derive c r) s r).

(** The strings of an expression. *)
Inductive lang : regex -> jsstring -> Prop :=
| lang_empty : lang re_empty []
| lang_class p c : p c = true -> lang (re_class p) [c]
| lang_seq r1 r2 s1 s2 : lang r1 s1 -> lang r2 s2 -> lang (re_seq r1 r2) (s1 ++ s2)
| lang_alt_l r1 r2 s : lang r1 s -> lang (re_alt r1 r2) s
| lang_alt_r r1 r2 s : lang r2 s -> lang (re_alt r1 r2) s
| lang_star_nil r : lang (re_star r) []
| lang_star_cons r s1 s2 :
    lang r s1 -> lang (re_star r) s2 -> lang (re_star r) (s1 ++ s2).

End RegExp.

Module Validators.
Import JsText RegExp.

(** The classes [[a-z]], [[A-Z]], [[^a-zA-Z0-9]], [[a-zA-Z0-9_-]]. *)
Definition is_lower (c : code_unit) : bool := ((97 <=? c) && (c <=? 122))%N.
Definition is_upper (c : code_unit) : bool := ((65 <=? c) && (c <=? 90))%N.
Definition is_other (c : code_unit) : bool :=
  negb (is_lower c || is_upper c || is_digit c).
Definition is_key_unit (c : code_unit) : bool :=
  (is_lower c || is_upper c || is_digit c || (c =? 95) || (c =? 45))%N.

(** The class [[^\s@]]. *)
Definition is_address_unit (c : code_unit) : bool :=
  negb (is_space c || (c =? 64)%N).

(** [/^[^\s@]+@[^\s@]+\.[^\s@]+$/]. *)
Definition email_re : regex :=
  re_seq (re_plus (re_class is_address_unit))
    (re_seq (re_class (N.eqb 64))
       (re_seq (re_plus (re_class is_address_unit))
          (re_seq (re_class (N.eqb 46))
             (re_plus (re_class is_address_unit))))).

Definition isValidEmail (email : jsstring) : bool := matches email_re email.

(** [{ valid, message, strength }]. *)
Record PasswordReport := mkPasswordReport {
  pw_valid : bool;
  pw_message : string;
  pw_strength : nat }.

Definition validatePassword (password : jsstring) : PasswordReport :=
  if is_empty password || (length password <? 8)%nat then
    mkPasswordReport false "密码至少需要8个字符" 0
  else
    let strength := 0%nat in
    let strength := if (12 <=? length password)%nat then S strength else strength in
    let strength := if (16 <=? length password)%nat then S strength else strength in
    let strength := if existsb is_lower password then S strength else strength in
    let strength := if existsb is_upper password then S strength else strength in
    let strength := if existsb is_digit password then S strength else strength in
    let strength := if existsb is_other password then S strength else strength in
    mkPasswordReport true
      (if (3 <=? strength)%nat then "强密码"
       else if (2 <=? strength)%nat then "中等密码"
       else "弱密码")
      (Nat.min strength 5).



(** [isValidFileSize(size, maxSize = 500 * 1024 * 1024)]. *)
Definition isValidFileSize (size : Z) (maxSize : option Z) : bool :=
  let maxSize := match maxSize with Some m => m | None => (500 * 1024 * 1024)%Z end in
  ((0 <? size) && (size <=? maxSize))%Z.

(** [allowedTypes.includes(mimeType)]. *)
Definition isValidMimeType (mimeType : string) (allowedTypes : list string) : bool :=
  existsb (String.eqb mimeType) allowedTypes.

(** The table [map] of [escapeHtml]. *)
Definition html_entity (c : code_unit) : option jsstring :=
  if (c =? 38)%N then Some (js "&amp;")
  else if (c =? 60)%N then Some (js "&lt;")
  else if (c =? 62)%N then Some (js "&gt;")
  else if (c =? 34)%N then Some (js "&quot;")
  else if (c =? 39)%N then Some (js "&#039;")
  else None.

(** [text.replace(re, m => map[m])], where [re] matches each of the five
    characters of the table, everywhere. *)
Definition escapeHtml (text : jsstring) : jsstring :=
  flat_map (fun c => match html_entity c with Some e => e | None => [c] end) text.

(** What [s && b] evaluates to: the string when it is empty, else [b]. *)
Inductive StringOrBool := a_string (s : jsstring) | a_bool (b : bool).

Definition and_then (s : jsstring) (b : bool) : StringOrBool :=
  if is_empty s then a_string s else a_bool b.

Definition is_true (v : StringOrBool) : bool :=
  match v with
  | a_bool b => b
  | a_string s => negb (is_empty s)
  end.

(** [apiKey && apiKey.length >= 20 && /^[a-zA-Z0-9_-]+$/.test(apiKey)]. *)
Definition isValidApiKey (apiKey : jsstring) : StringOrBool :=
  and_then apiKey
    ((20 <=? length apiKey)%nat && matches (re_plus (re_class is_key_unit)) apiKey).

(** [{ valid, message }]. *)
Record NameReport := mkNameReport { name_valid : bool; name_message : string }.

Definition validateCategoryName (name : jsstring) : NameReport :=
  if is_empty name || (length (trim name) =? 0)%nat then
    mkNameReport false "类别名称不能为空"
  else if (50 <? length name)%nat then
    mkNameReport false "类别名称不能超过50个字符"
  else mkNameReport true "".

(** [tag && tag.trim().length > 0 && tag.length <= 100]. *)
Definition isValidTag (tag : jsstring) : StringOrBool :=
  and_then tag ((0 <? length (trim tag))%nat && (length tag <=? 100)%nat).

End Validators.

(* --------------------------------------------------------------------- *)
(** ** 10. What is assumed of the platform, and which states are met       *)
(* --------------------------------------------------------------------- *)

Section Assumptions.
Context `{WebPlatform}.

(** [atob] undoes [btoa]. *)
Definition base64_roundtrip : Prop :=
  forall binary, atob (btoa binary) = Some binary.

(** Only the empty input encodes to the empty string. *)
Definition base64_nonempty : Prop :=
  forall binary, btoa binary = "" -> binary = "".


Definition json_nonempty : Prop :=
  forall encrypted iv, JSON_stringify_test encrypted iv <> "".

(** AES-GCM decrypts what it encrypted under the same key and IV. *)
Definition gcm_roundtrip : Prop :=
  forall iv key data, subtle_decrypt iv key (subtle_encrypt iv key data) = Some data.

(** Under one key, two 96-bit IVs give two outputs for the same data.  (In
    AES-GCM the tag is GHASH of the ciphertext xor the block cipher applied
    to [IV || 0^31 || 1]; equal ciphertexts with equal tags force equal
    blocks, and the block cipher is a permutation.) *)
Definition gcm_iv_injective : Prop :=
  forall key data iv1 iv2,
    length iv1 = 12%nat -> length iv2 = 12%nat ->
    subtle_encrypt iv1 key data = subtle_encrypt iv2 key data -> iv1 = iv2.

(** AES-GCM refuses, under another key, what was encrypted under one
    (the authentication tag does not verify). *)
Definition gcm_authentic : Prop :=
  forall iv key key' data,
    key' <> key -> subtle_decrypt iv key' (subtle_encrypt iv key data) = None.


(** The key [deriveKey] computes from a password and a salt. *)
Definition pbkdf2_key (password : string) (s : list byte) : CryptoKey :=
  subtle_deriveKey
    (mkPbkdf2Params "PBKDF2" s 100000 "SHA-256")
    (subtle_importKey "raw" (TextEncoder_encode password) "PBKDF2" false ["deriveKey"])
    (mkAesKeyGenParams "AES-GCM" 256)
    false
    ["encrypt"; "decrypt"].

(** The [n] bytes [crypto.getRandomValues] hands out from position [p]. *)
Definition entropy_bytes (w : World) (p n : nat) : list byte :=
  List.map (fun i => entropy (browser w) (p + i)) (seq 0 n).

Definition stored (w : World) (key : string) : option string :=
  localStorage (browser w) !! key.

(** The key-management state is well formed: the persisted salt is the
    base64 of 16 bytes, the salt held in memory is the persisted one, and the
    persisted verifier is the JSON text of a record. *)
Definition wf_keys (w : World) : Prop :=
  (forall t, stored w "app_salt" = Some t ->
     exists s, length s = 16%nat /\ t = KeyManager.bufferToBase64 s)
  /\ (forall s, salt (keyManager w) = Some s ->
        stored w "app_salt" = Some (KeyManager.bufferToBase64 s))
  /\ (forall t, stored w "password_test" = Some t ->
        exists encrypted iv, t = JSON_stringify_test encrypted iv).

(** The bytes [base64ToBuffer] returns, when [atob] accepts the text. *)
Definition base64_bytes (t : string) : option (list byte) :=
  match atob t with
  | Some binary => Some (List.map byte_of_ascii (list_ascii_of_string binary))
  | None => None
  end.



(** What can happen to the key-management state of a page. *)
Inductive key_event :=
| ev_initializeSalt
| ev_deriveKey (password : string)
| ev_verifyPassword (password : string)
| ev_setupPassword (password : string)
| ev_lock
| ev_reload
| ev_setting (key value : string).

Definition is_setting_key (key : string) : bool :=
  negb (String.eqb key "app_salt") && negb (String.eqb key "password_test").

(** The state an event leaves behind.  A reload builds a new [KeyManager];
    [SettingsManager] writes its own keys of [localStorage]. *)
Definition after (ev : key_event) (w : World) : World :=
  match ev with
  | ev_initializeSalt => snd (KeyManager.initializeSalt w)
  | ev_deriveKey p => snd (KeyManager.deriveKey p w)
  | ev_verifyPassword p => snd (KeyManager.verifyPassword p w)
  | ev_setupPassword p => snd (KeyManager.setupPassword p w)
  | ev_lock => snd (KeyManager.lock w)
  | ev_reload => with_keyManager (mkKeyManager None None) w
  | ev_setting key value =>
      if is_setting_key key then snd (setItem key value w) else w
  end.

(** A first visit: nothing of the key manager is persisted or held. *)
Definition first_visit (w : World) : Prop :=
  stored w "app_salt" = None /\ stored w "password_test" = None
  /\ keyManager w = mkKeyManager None None.

Inductive reachable : World -> Prop :=
| reachable_first w : first_visit w -> reachable w
| reachable_after ev w : reachable w -> reachable (after ev w).

(** Every record of a store sits under its own [id] (in-line keys). *)
Definition keyed {T} (key : T -> string) (m : gmap string T) : Prop :=
  forall k r, m !! k = Some r -> key r = k.

Definition success (r : ImportResult) : bool :=
  match r with
  | Imported _ _ => true
  | Failed _ _ => false
  end.



Definition unsupported (file : File) : bool :=
  negb (ImageProcessor.isValidImage file) && negb (VideoProcessor.isValidVideo file).

(** What the processor chosen by [processFile] resolves or rejects with. *)
Definition metadata_of (file : File) : result Metadata :=
  if ImageProcessor.isValidImage file then
    match image_dimensions file with
    | Some (w, h) => Ok (mkMetadata w h None (file_size file) (file_type file) (file_name file))
    | None => Throw (Error "Failed to load image")
    end
  else
    match video_dimensions file with
    | Some (w, h, d) =>
        Ok (mkMetadata w h (Some d) (file_size file) (file_type file) (file_name file))
    | None => Throw (Error "Failed to load video metadata")
    end.

Definition media_type_of (file : File) : MediaType :=
  if ImageProcessor.isValidImage file then image else video.

(** The state [processFile] leaves when it gets as far as [addMediaItem]:
    24 random bytes, 31 values of [Math.random] and one clock reading are
    used; [d] is the database it leaves. *)
Definition after_import (w : World) (d : Database) : World :=
  mkWorld (keyManager w)
    (mkBrowser (localStorage (browser w))
       (entropy (browser w)) (entropy_pos (browser w) + 12 + 12)
       (math_random (browser w)) (math_pos (browser w) + 31)
       (clock (browser w)) (S (clock_pos (browser w)))
       (progress_calls (browser w)))
    d (aiClient w) (categoryManager w).

(** The entry [importFiles] pushes for a file, from what [processFile]
    returned or threw. *)
Definition entry_of (file : File) (r : result MediaItem) : ImportResult :=
  match r with
  | Ok item => Imported item (file_name file)
  | Throw e => Failed (exn_message e) (file_name file)
  end.


(** No two configurations of a store share a name (the unique index). *)
Definition names_unique (m : gmap string AIConfig) : Prop :=
  forall k1 k2 r1 r2,
    m !! k1 = Some r1 -> m !! k2 = Some r2 -> config_name r1 = config_name r2 -> k1 = k2.

(** [m] is [m0] with some configurations deactivated. *)
Definition deactivated_from (m0 m : gmap string AIConfig) : Prop :=
  forall k, m !! k = m0 !! k
            \/ exists r, m0 !! k = Some r /\ m !! k = Some (with_isActive false r).

(** The active configurations of a store. *)
Definition active_configs (m : gmap string AIConfig) : gmap string AIConfig :=
  filter (fun kc => isActive (snd kc) = true) m.

(** The string [generateUUID] builds from the values [Math.random] gives
    from position [pos] on, and the number of values it uses. *)
Fixpoint uuid_from (tape : nat -> N) (pos : nat) (template : string) : string :=
  match template with
  | EmptyString => EmptyString
  | String c rest =>
      if Ascii.eqb c "x" then
        String (hex_digit (tape pos mod 16)%N) (uuid_from tape (S pos) rest)
      else if Ascii.eqb c "y" then
        String (hex_digit (N.lor (N.land (tape pos mod 16)%N 3) 8))
          (uuid_from tape (S pos) rest)
      else String c (uuid_from tape pos rest)
  end.

Fixpoint uuid_draws (template : string) : nat :=
  match template with
  | EmptyString => 0
  | String c rest =>
      if Ascii.eqb c "x" then S (uuid_draws rest)
      else if Ascii.eqb c "y" then S (uuid_draws rest)
      else uuid_draws rest
  end.

Definition uuid_template : string := "xxxxxxxx-xxxx-4xxx-yxxx-xxxxxxxxxxxx".

(** The UUID a state is about to generate. *)
Definition next_uuid (w : World) : string :=
  uuid_from (math_random (browser w)) (math_pos (browser w)) uuid_template.

(** The id [saveConfig] gives the record: [config.id], or a new UUID. *)
Definition saved_id (config : ConfigInput) (w : World) : string :=
  if truthy (input_id config) then or_default (input_id config) "" else next_uuid w.

End Assumptions.

(* --------------------------------------------------------------------- *)
(** ** 11. Further notions used by the properties                          *)
(* --------------------------------------------------------------------- *)

Section Notions.
Context `{WebPlatform}.

(** What [getMasterKey] throws while no key is held. *)
Definition locked : exn := Error "Application is locked. Please unlock first.".

(** What the model throws when [crypto.subtle.decrypt] rejects. *)
Definition not_authentic : exn := mkExn "OperationError" "decrypt".

(** What the model throws when [atob] refuses its argument. *)
Definition not_base64 : exn := mkExn "InvalidCharacterError" "atob".

(** No two records of a store agree on the field [ix] (a unique index). *)
Definition unique_on {T} (ix : T -> string) (m : gmap string T) : Prop :=
  forall k1 k2 r1 r2,
    m !! k1 = Some r1 -> m !! k2 = Some r2 -> ix r1 = ix r2 -> k1 = k2.

(** The three stores as [schema] declares them: in-line keys, and unique
    names for categories and configurations. *)
Definition wf_db (d : Database) : Prop :=
  keyed category_id (categories d) /\ unique_on category_name (categories d)
  /\ keyed id (mediaItems d)
  /\ keyed config_id (aiConfigs d) /\ unique_on config_name (aiConfigs d).


(** The digits [toString(16)] writes, and those of them that the variant
    position of a version-4 UUID can hold. *)
Definition is_hex (c : ascii) : bool :=
  existsb (Ascii.eqb c) (list_ascii_of_string "0123456789abcdef").

Definition is_variant (c : ascii) : bool :=
  existsb (Ascii.eqb c) (list_ascii_of_string "89ab").

(** [u] fills [template]: a hexadecimal digit for every [x], a variant digit
    for every [y], and the template's own character elsewhere. *)
Fixpoint fills (template u : string) : bool :=
  match template, u with
  | EmptyString, EmptyString => true
  | String t template', String c u' =>
      (if Ascii.eqb t "x" then is_hex c
       else if Ascii.eqb t "y" then is_variant c
       else Ascii.eqb c t)
      && fills template' u'
  | _, _ => false
  end.

(** A version-4 UUID in lower case. *)
Definition is_uuid_v4 (u : string) : bool := fills uuid_template u.

(** The method [c] keeps the property [P] of the state, whether it returns
    or throws. *)
Definition preserves {A} (P : World -> Prop) (c : JS World A) : Prop :=
  forall w, P w -> P (snd (c w)).

(** [P] looks neither at the counters of the browser, at the recorded
    progress calls, at the fields of the [AIAPIClient] nor at those of the
    [CategoryManager]. *)
Definition frame_stable (P : World -> Prop) : Prop :=
  (forall w b, localStorage b = localStorage (browser w) -> P w -> P (with_browser b w))
  /\ (forall w a, P w -> P (with_aiClient a w))
  /\ (forall w c, P w -> P (with_categoryManager c w)).

(** Every write of [IndexedDBManager] keeps [P]. *)
Definition write_stable (P : World -> Prop) : Prop :=
  (forall r, preserves P (IndexedDBManager.addCategory r))
  /\ (forall r, preserves P (IndexedDBManager.updateCategory r))
  /\ (forall k, preserves P (IndexedDBManager.deleteCategory k))
  /\ (forall r, preserves P (IndexedDBManager.addMediaItem r))
  /\ (forall r, preserves P (IndexedDBManager.updateMediaItem r))
  /\ (forall k, preserves P (IndexedDBManager.deleteMediaItem k))
  /\ (forall r, preserves P (IndexedDBManager.addAIConfig r))
  /\ (forall r, preserves P (IndexedDBManager.updateAIConfig r))
  /\ (forall k, preserves P (IndexedDBManager.deleteAIConfig k))
  /\ preserves P IndexedDBManager.clearAll.

(** [w'] differs from [w] at most in the recorded progress calls. *)
Definition same_but_progress (w w' : World) : Prop :=
  keyManager w' = keyManager w /\ db w' = db w
  /\ aiClient w' = aiClient w /\ categoryManager w' = categoryManager w
  /\ localStorage (browser w') = localStorage (browser w)
  /\ entropy (browser w') = entropy (browser w)
  /\ entropy_pos (browser w') = entropy_pos (browser w)
  /\ math_random (browser w') = math_random (browser w)
  /\ math_pos (browser w') = math_pos (browser w)
  /\ clock (browser w') = clock (browser w)
  /\ clock_pos (browser w') = clock_pos (browser w).

(** The key manager and what it persists are those of [w0]. *)
Definition same_keys (w0 w : World) : Prop :=
  keyManager w = keyManager w0
  /\ stored w "app_salt" = stored w0 "app_salt"
  /\ stored w "password_test" = stored w0 "password_test".

End Notions.

(** What can happen on the page: an event of the key manager, or a call of
    one of the other methods of the model, with any arguments and any
    answers of the user and of the network. *)
Inductive page_event `{WebPlatform} :=
| pe_key (ev : key_event)
| pe_addCategory (r : Category)
| pe_updateCategory (r : Category)
| pe_deleteCategoryRecord (k : string)
| pe_addMediaItem (r : MediaItem)
| pe_updateMediaItem (r : MediaItem)
| pe_deleteMediaItem (k : string)
| pe_addAIConfig (r : AIConfig)
| pe_updateAIConfig (r : AIConfig)
| pe_deleteAIConfig (k : string)
| pe_saveConfig (config : ConfigInput)
| pe_loadConfig
| pe_importFiles (files : list File) (c : string) (progressCallback : bool)
| pe_deleteCategory (confirmed : bool) (c : string)
| pe_saveCategory (nameInput descInput colorInput : string) (editId : option string)
| pe_tagItem (fetch : AIAPIClient.ChatRequest -> AIAPIClient.FetchOutcome)
    (item : MediaItem) (customPrompt : option string)
| pe_batchTag (fetches : nat -> AIAPIClient.ChatRequest -> AIAPIClient.FetchOutcome)
    (items : list MediaItem) (progressCallback : bool) (customPrompt : option string)
| pe_clearTags (item : MediaItem)
| pe_addManualTag (item : MediaItem) (tag : JsText.jsstring)
| pe_removeTag (item : MediaItem) (tag : JsText.jsstring)
| pe_saveAIConfig (apiUrlInput apiKeyInput modelInput defaultPromptInput : string)
| pe_saveGeneralSettings (autoDelete encryptFiles : bool) (thumbnailQuality : string)
| pe_clearAllData (confirmed : bool).

Section PageStates.
Context `{WebPlatform} `{PageServices}.

(** The state an event of the page leaves behind. *)
Definition after_page (ev : page_event) (w : World) : World :=
  match ev with
  | pe_key ev => after ev w
  | pe_addCategory r => snd (IndexedDBManager.addCategory r w)
  | pe_updateCategory r => snd (IndexedDBManager.updateCategory r w)
  | pe_deleteCategoryRecord k => snd (IndexedDBManager.deleteCategory k w)
  | pe_addMediaItem r => snd (IndexedDBManager.addMediaItem r w)
  | pe_updateMediaItem r => snd (IndexedDBManager.updateMediaItem r w)
  | pe_deleteMediaItem k => snd (IndexedDBManager.deleteMediaItem k w)
  | pe_addAIConfig r => snd (IndexedDBManager.addAIConfig r w)
  | pe_updateAIConfig r => snd (IndexedDBManager.updateAIConfig r w)
  | pe_deleteAIConfig k => snd (IndexedDBManager.deleteAIConfig k w)
  | pe_saveConfig config => snd (AIAPIClient.saveConfig config w)
  | pe_loadConfig => snd (AIAPIClient.loadConfig w)
  | pe_importFiles files c cb => snd (FileHandler.importFiles files c cb w)
  | pe_deleteCategory confirmed c => snd (CategoryManager.deleteCategory confirmed c w)
  | pe_saveCategory n d c e => snd (CategoryManager.saveCategory n d c e w)
  | pe_tagItem fetch item prompt => snd (TagProcessor.tagItem fetch item prompt w)
  | pe_batchTag fetches items cb prompt =>
      snd (TagProcessor.batchTag fetches items cb prompt w)
  | pe_clearTags item => snd (TagProcessor.clearTags item w)
  | pe_addManualTag item tag => snd (TagProcessor.addManualTag item tag w)
  | pe_removeTag item tag => snd (TagProcessor.removeTag item tag w)
  | pe_saveAIConfig a b c d => snd (SettingsManager.saveAIConfig a b c d w)
  | pe_saveGeneralSettings a e q => snd (SettingsManager.saveGeneralSettings a e q w)
  | pe_clearAllData confirmed => snd (SettingsManager.clearAllData confirmed w)
  end.

(** A first visit finds nothing persisted and the three stores empty. *)
Definition first_page (w : World) : Prop :=
  first_visit w /\ db w = mkDatabase ∅ ∅ ∅.

Inductive page_reachable : World -> Prop :=
| page_first w : first_page w -> page_reachable w
| page_after ev w : page_reachable w -> page_reachable (after_page ev w).

(** The events that are not the key manager's own. *)
Definition outside_key_manager (ev : page_event) : bool :=
  match ev with
  | pe_key _ => false
  | _ => true
  end.

End PageStates.

(* ===================================================================== *)
(** * Part II. A concrete platform                                         *)
(* ===================================================================== *)

(** A small platform on which the model computes: base64 is the identity
    coding, the record text is a prefix code, the key derivation
    concatenates salt and password, and "encryption" puts the IV and the
    framed key before the data, so that another key or IV is refused.  It
    serves to run the methods on concrete states. *)
Module Toy.

Fixpoint stringify (encrypted iv : string) : string :=
  match encrypted with
  | EmptyString => String "|" iv
  | String c rest => String "." (String c (stringify rest iv))
  end.

Fixpoint parse (t : string) : option (string * string) :=
  match t with
  | String a t1 =>
      if Ascii.eqb a "|" then Some (EmptyString, t1)
      else if Ascii.eqb a "." then
        match t1 with
        | String c t2 =>
            match parse t2 with
            | Some (e, i) => Some (String c e, i)
            | None => None
            end
        | EmptyString => None
        end
      else None
  | EmptyString => None
  end.

Fixpoint strip_prefix (p l : list byte) : option (list byte) :=
  match p, l with
  | [], _ => Some l
  | a :: p', b :: l' => if Byte.eqb a b then strip_prefix p' l' else None
  | _ :: _, [] => None
  end.

(** The key as a prefix code: [x01] before each byte, [x00] at the end. *)
Fixpoint frame (key : list byte) : list byte :=
  match key with
  | [] => [x00]
  | b :: rest => x01 :: b :: frame rest
  end.

Definition encrypt (iv key data : list byte) : list byte := iv ++ frame key ++ data.

Definition decrypt (iv key data : list byte) : option (list byte) :=
  strip_prefix (iv ++ frame key) data.

#[export] Instance platform : WebPlatform := {|
  CryptoKey := list byte;
  TextEncoder_encode := list_byte_of_string;
  TextDecoder_decode := string_of_list_byte;
  btoa := fun s => s;
  atob := fun s => Some s;
  JSON_stringify_test := stringify;
  JSON_parse_test := parse;
  subtle_importKey := fun _ data _ _ _ => data;
  subtle_deriveKey := fun params base _ _ _ => pbkdf2_salt params ++ base;
  subtle_encrypt := encrypt;
  subtle_decrypt := decrypt;
  JsNumber := Z;
  number_zero := 0%Z;
  number_truthy := fun n => negb (Z.eqb n 0);
  image_dimensions := fun f =>
    match file_bytes f with [] => None | _ => Some (640, 480)%Z end;
  video_dimensions := fun f =>
    match file_bytes f with [] => None | _ => Some (1280, 720, 12)%Z end;
  render_thumbnail := fun _ f => Ok (mkBlob (take 2 (file_bytes f)) "image/jpeg")
|}.

Definition browser0 : Browser :=
  mkBrowser ∅
    (fun i => byte_of_ascii (ascii_of_nat (7 * i + 1)))
    0
    (fun i => N.of_nat (3 * i + 5))
    0
    (fun i => (1700000000000 + Z.of_nat i)%Z)
    0
    [].

(** The page on a first visit. *)
Definition world0 : World :=
  mkWorld (mkKeyManager None None) browser0 (mkDatabase ∅ ∅ ∅)
    (mkAIClient "" "" "gpt-4o" "describe") (mkCategoryManager [] "all").

(** After the master password has been set up. *)
Definition world_set : World := snd (KeyManager.setupPassword "correct horse" world0).

(** The same store after a reload: nothing is held in memory. *)
Definition world_reloaded : World := with_keyManager (mkKeyManager None None) world_set.

Definition photo : File := mkFile "a.png" "image/png" [x01; x02; x03].
Definition notes : File := mkFile "b.txt" "text/plain" [x04].
Definition film : File := mkFile "c.mp4" "video/mp4" [x05; x06].

Definition configA : ConfigInput :=
  mkConfigInput (Some "A") (Some "first") "https://a.example/v1" "key-a" "gpt-4o" None.

Definition configB : ConfigInput :=
  mkConfigInput None (Some "second") "https://b.example/v1" "key-b" "gpt-4o-mini" (Some "tags").

(** The store with configuration A saved and active. *)
Definition world_A : World := snd (AIAPIClient.saveConfig configA world_set).

Definition savedA : AIConfig :=
  match fst (AIAPIClient.saveConfig configA world_set) with
  | Ok saved => saved
  | Throw _ => mkAIConfig "" "" "" "" "" "" "" false 0
  end.

Definition savedB : AIConfig :=
  match fst (AIAPIClient.saveConfig configB world_A) with
  | Ok saved => saved
  | Throw _ => mkAIConfig "" "" "" "" "" "" "" false 0
  end.

Definition world_B : World := snd (AIAPIClient.saveConfig configB world_A).

(** What the settings dialog passes: no id, the fixed name. *)
Definition configDefault : ConfigInput :=
  mkConfigInput None (Some "Default Config") "https://c.example/v1" "key-c" "gpt-4o" (Some "").

Definition world_D : World := snd (AIAPIClient.saveConfig configDefault world_set).

(** The salt and the key held after the set-up. *)
Definition salt_set : list byte :=
  match salt (keyManager world_set) with Some s => s | None => [] end.

Definition key_set : list byte :=
  match masterKey (keyManager world_set) with Some k => k | None => [] end.

Definition letter : Blob := mkBlob [x48; x49] "text/plain".

(** A category with two imported items. *)
Definition holidays : Category := mkCategory "cat-1" "Holidays" "" "#3498db" 1700000000000.

Definition world_album : World :=
  snd (FileHandler.importFiles [photo; film] "cat-1" false
         (snd (IndexedDBManager.addCategory holidays world_set))).




(** The further services: [trim] removes the spaces at both ends of an
    ASCII text; the index on [isActive] refuses the key [true], as IndexedDB
    does: a boolean is not a valid key, so no record with a boolean
    [isActive] is in the index and [getAll(true)] throws a [DataError]. *)
Fixpoint drop_blanks (l : list ascii) : list ascii :=
  match l with
  | [] => []
  | c :: rest => if Ascii.eqb c " " then drop_blanks rest else l
  end.

Definition trim_text (s : string) : string :=
  string_of_list_ascii
    (rev (drop_blanks (rev (drop_blanks (list_ascii_of_string s))))).

Definition data_url (blob : Blob) : result string :=
  match blob_bytes blob with
  | [] => Throw (Error "Failed to load image")
  | bytes => Ok (String.append "data:image/jpeg;base64," (string_of_list_byte bytes))
  end.

#[export] Instance services : PageServices := {|
  String_trim := trim_text;
  code_units := JsText.js;
  isActive_getAll_true := fun _ =>
    Throw (mkExn "DataError"
             "Failed to execute 'getAll' on 'IDBIndex': The parameter is not a valid key.");
  toBase64ForAI := data_url;
  extractFrameForAI := data_url
|}.

Definition savedD : AIConfig :=
  match fst (AIAPIClient.saveConfig configDefault world_set) with
  | Ok saved => saved
  | Throw _ => mkAIConfig "" "" "" "" "" "" "" false 0
  end.

(** Configuration A saved, then the page reloaded and unlocked again: the
    client has its initial fields. *)
Definition world_A_again : World :=
  with_aiClient (mkAIClient "" "" "gpt-4o" "describe") world_A.

(** A media item that is in no store. *)
Definition sketch : MediaItem :=
  mkMediaItem "m-1" "cat-1" image "sketch.png" 3 640 480 0%Z [x0a] "iv-1" [x0b] "iv-2"
    "image/png" [] "" "" None 1700000000000 None false.

End Toy.

(* ===================================================================== *)
(** * Part III. Properties                                                 *)
(* ===================================================================== *)

(* --------------------------------------------------------------------- *)
(** ** Tag extraction                                                      *)
(* --------------------------------------------------------------------- *)

Module TagExtractionFacts.
Import JsText TagExtraction.

Lemma drop_while_head {A} (p : A -> bool) l x r :
  drop_while p l = x :: r -> p x = false.
Proof.
  induction l as [|y l IH]; simpl; [discriminate|].
  destruct (p y) eqn:E; [exact IH|]. intros [= -> _]. exact E.
Qed.

Lemma take_drop_while {A} (p : A -> bool) l :
  take_while p l ++ drop_while p l = l.
Proof.
  induction l as [|y l IH]; simpl; [reflexivity|].
  destruct (p y); simpl; [now rewrite IH | reflexivity].
Qed.

Lemma drop_while_all {A} (p : A -> bool) ws rest :
  Forall (fun c => p c = true) ws ->
  drop_while p (ws ++ rest) = drop_while p rest.
Proof.
  induction 1 as [|c ws Hc _ IH]; simpl; [reflexivity|]. now rewrite Hc.
Qed.

Lemma drop_while_stop {A} (p : A -> bool) l :
  match l with [] => True | c :: _ => p c = false end -> drop_while p l = l.
Proof. destruct l as [|c l]; simpl; [reflexivity|]. now intros ->. Qed.

(** Every match of the delimiter class ends a fragment: there is one
    fragment more than there are delimiters, and no fragment holds one. *)
Lemma split_length p s : length (split p s) = S (length (List.filter p s)).
Proof.
  induction s as [|c s IH]; simpl; [reflexivity|].
  destruct (p c); simpl; [now rewrite IH|].
  destruct (split p s); simpl in *; [discriminate | exact IH].
Qed.

Lemma split_fragments p s :
  Forall (Forall (fun c => p c = false)) (split p s).
Proof.
  induction s as [|c s IH]; simpl.
  - repeat constructor.
  - destruct (p c) eqn:E.
    + constructor; [constructor | exact IH].
    + destruct (split p s) as [|f fs].
      * repeat constructor. exact E.
      * inversion IH; subst. constructor; [constructor; assumption | assumption].
Qed.

(** The fragments, put end to end, are the response without its delimiters. *)
Lemma split_concat p s :
  concat (split p s) = List.filter (fun c => negb (p c)) s.
Proof.
  induction s as [|c s IH]; simpl; [reflexivity|].
  destruct (p c); simpl; [exact IH|].
  destruct (split p s) as [|f fs]; simpl in *; now rewrite <- IH.
Qed.

(** [trim] leaves no white space at either end. *)
Lemma trim_start s :
  match trim s with [] => True | c :: _ => is_space c = false end.
Proof.
  unfold trim, trimEnd, trimStart.
  destruct (drop_while is_space s) as [|c r] eqn:E; simpl; [exact I|].
  pose proof (drop_while_head _ _ _ _ E) as Hc.
  destruct (drop_while is_space (rev r ++ [c])) as [|y t] eqn:E2; simpl; [exact I|].
  assert (Hrev : exists u, drop_while is_space (rev r ++ [c]) = u ++ [c]).
  { clear E E2. generalize (rev r). intros l. induction l as [|z l IH]; simpl.
    - rewrite Hc. now exists [].
    - destruct (is_space z); [exact IH|]. now exists (z :: l). }
  destruct Hrev as [u Hu]. rewrite E2 in Hu.
  assert (rev (y :: t) = c :: rev u) as Hr.
  { rewrite Hu. rewrite rev_app_distr. reflexivity. }
  simpl in Hr. rewrite Hr. exact Hc.
Qed.

Lemma trim_end s :
  match rev (trim s) with [] => True | c :: _ => is_space c = false end.
Proof.
  unfold trim, trimEnd. rewrite rev_involutive.
  destruct (drop_while is_space (rev (trimStart s))) as [|c r] eqn:E; [exact I|].
  exact (drop_while_head _ _ _ _ E).
Qed.

(** A bullet with the white space after it goes; anything else stays. *)
Lemma replace_bullet_marker b ws rest :
  is_bullet b = true -> Forall (fun c => is_space c = true) ws ->
  match rest with [] => True | c :: _ => is_space c = false end ->
  replace_bullet (b :: ws ++ rest) = rest.
Proof.
  intros Hb Hws Hrest. simpl. rewrite Hb.
  rewrite drop_while_all by assumption. now apply drop_while_stop.
Qed.

Lemma replace_bullet_other s :
  match s with [] => True | c :: _ => is_bullet c = false end ->
  replace_bullet s = s.
Proof. destruct s as [|c s]; simpl; [reflexivity|]. now intros ->. Qed.

(** Digits, a full stop and the white space after it go. *)
Lemma replace_numbering_marker d ds ws rest :
  Forall (fun c => is_digit c = true) (d :: ds) ->
  Forall (fun c => is_space c = true) ws ->
  match rest with [] => True | c :: _ => is_space c = false end ->
  replace_numbering ((d :: ds) ++ 46%N :: ws ++ rest) = rest.
Proof.
  intros Hd Hws Hrest. unfold replace_numbering.
  assert (Ht : forall l t, Forall (fun c => is_digit c = true) l ->
            take_while is_digit (l ++ 46%N :: t) = l
            /\ drop_while is_digit (l ++ 46%N :: t) = 46%N :: t).
  { intros l t Hl. induction Hl as [|c l Hc _ IH]; simpl; [now split|].
    rewrite Hc. destruct IH as [-> ->]. now split. }
  destruct (Ht (d :: ds) (ws ++ rest) Hd) as [-> ->]. simpl.
  rewrite drop_while_all by assumption. now apply drop_while_stop.
Qed.

(** The loop pushes, in order, the normalised fragments that pass the
    length test. *)
Lemma loop_pushes lines tags :
  fold_left extractTags_body lines tags
  = tags ++ List.filter rule_keep (List.map rule_normalise lines).
Proof.
  revert tags. induction lines as [|l lines IH]; intros tags; simpl.
  - now rewrite app_nil_r.
  - rewrite IH. unfold extractTags_body, rule_keep, rule_normalise, rule_strip_marker,
      cleaned, substring0.
    destruct (_ && _); [now rewrite <- app_assoc | reflexivity].
Qed.

Lemma rule_keep_bounds t :
  rule_keep (rule_normalise t) = true ->
  (2 < length (rule_normalise t) < 100)%nat /\ (length (rule_normalise t) <= 50)%nat.
Proof.
  unfold rule_keep. intros Hk. apply andb_prop in Hk as [H1 H2].
  apply Nat.ltb_lt in H1. apply Nat.ltb_lt in H2.
  split; [lia|]. unfold rule_normalise. rewrite length_take. lia.
Qed.

(** The classes of the code are the characters the rule names. *)
Lemma is_delimiter_units c : is_delimiter c = true <-> In c rule_delimiters.
Proof.
  unfold is_delimiter, rule_delimiters. cbn [In].
  rewrite !orb_true_iff, !N.eqb_eq. intuition congruence.
Qed.

Lemma is_bullet_units c : is_bullet c = true <-> In c rule_bullets.
Proof.
  unfold is_bullet, rule_bullets. cbn [In].
  rewrite !orb_true_iff, !N.eqb_eq. intuition congruence.
Qed.

Lemma is_digit_units c : is_digit c = true <-> rule_digit c.
Proof.
  unfold is_digit, rule_digit. rewrite andb_true_iff, !N.leb_le. reflexivity.
Qed.

Lemma is_space_units c : is_space c = true <-> In c rule_white_space.
Proof.
  unfold is_space, rule_white_space. cbn [In].
  rewrite !orb_true_iff, !andb_true_iff, !N.leb_le, !N.eqb_eq. lia.
Qed.

Lemma not_true_units (p : code_unit -> bool) (units : list code_unit) c :
  (forall x, p x = true <-> In x units) -> p c = false <-> ~ In c units.
Proof. intros Hp. rewrite <- Hp. now destruct (p c). Qed.

Lemma Forall_units (p : code_unit -> bool) (units : list code_unit) (l : jsstring) :
  (forall x, p x = true <-> In x units) ->
  Forall (fun c => In c units) l -> Forall (fun c => p c = true) l.
Proof.
  intros Hp Hl. eapply Forall_impl; [exact Hl|]. cbv beta. intros c. apply Hp.
Qed.

Lemma starts_clean_space (s : jsstring) :
  rule_starts_clean s -> match s with [] => True | c :: _ => is_space c = false end.
Proof.
  destruct s as [|c s]; [easy|]. cbn. apply (not_true_units _ _ _ is_space_units).
Qed.

(** A delimiter ends a fragment, and what is left after the last one is the
    last fragment. *)
Lemma split_at (p : code_unit -> bool) (fragment : jsstring) d rest :
  Forall (fun c => p c = false) fragment -> p d = true ->
  split p (fragment ++ d :: rest) = fragment :: split p rest.
Proof.
  intros Hf Hd. induction Hf as [|c f Hc _ IH]; cbn [app split].
  - now rewrite Hd.
  - now rewrite Hc, IH.
Qed.

Lemma split_last (p : code_unit -> bool) (fragment : jsstring) :
  Forall (fun c => p c = false) fragment -> split p fragment = [fragment].
Proof.
  induction 1 as [|c f Hc _ IH]; cbn [split]; [reflexivity|]. now rewrite Hc, IH.
Qed.

(** [trim] removes the white space at both ends, and only that. *)
Lemma trim_core (l core r : jsstring) :
  Forall (fun c => is_space c = true) l ->
  Forall (fun c => is_space c = true) r ->
  match core with [] => True | c :: _ => is_space c = false end ->
  match rev core with [] => True | c :: _ => is_space c = false end ->
  trim (l ++ core ++ r) = core.
Proof.
  intros Hl Hr Hfirst Hlast. unfold trim, trimEnd, trimStart.
  rewrite drop_while_all by exact Hl.
  assert (Hrev : Forall (fun c => is_space c = true) (rev r)).
  { apply List.Forall_forall. intros c Hc. apply List.in_rev in Hc.
    revert c Hc. now apply List.Forall_forall. }
  destruct core as [|c core].
  - cbn [app]. rewrite <- (app_nil_r r) at 1. rewrite drop_while_all by exact Hr.
    reflexivity.
  - rewrite (drop_while_stop is_space ((c :: core) ++ r)) by exact Hfirst.
    rewrite rev_app_distr, drop_while_all by exact Hrev.
    rewrite drop_while_stop by exact Hlast. apply rev_involutive.
Qed.

Lemma digits_run (ds rest : jsstring) :
  Forall (fun c => is_digit c = true) ds ->
  match rest with [] => True | c :: _ => is_digit c = false end ->
  take_while is_digit (ds ++ rest) = ds /\ drop_while is_digit (ds ++ rest) = rest.
Proof.
  intros Hd Hrest. induction Hd as [|c ds Hc _ IH]; cbn [app take_while drop_while].
  - destruct rest as [|c rest]; [now split|]. cbn [take_while drop_while].
    now rewrite Hrest.
  - rewrite Hc. destruct IH as [-> ->]. now split.
Qed.

(** Without digits and a full stop at its beginning a text is left as it
    is. *)
Lemma replace_numbering_other (ds rest : jsstring) :
  Forall (fun c => is_digit c = true) ds ->
  match rest with
  | [] => True
  | c :: _ => is_digit c = false /\ (ds = [] \/ c <> 46%N)
  end ->
  replace_numbering (ds ++ rest) = ds ++ rest.
Proof.
  intros Hd Hrest. unfold replace_numbering.
  destruct (digits_run ds rest Hd) as [-> ->].
  { destruct rest as [|c rest]; [exact I | apply Hrest]. }
  destruct ds as [|d ds]; [reflexivity|].
  destruct rest as [|c rest]; [reflexivity|].
  destruct Hrest as [_ [Hx|Hx]]; [discriminate|].
  apply N.eqb_neq in Hx. now rewrite Hx.
Qed.

(** C3. For every response, [extractTags] is the rule of the specification:
    the response is split at commas, semicolons and newlines; each fragment
    is trimmed, loses a leading bullet ([-], U+2022, [*]) and a leading
    numbering (digits and a full stop), each with the white space after it,
    and is cut to 50 code units; a fragment is kept when its length is more
    than 2 and less than 100; the first 10 kept fragments are returned in
    their order.  So there are at most 10 tags, each longer than 2 and at
    most 50 long, and the response of the specification gives its four tags.
    Each stage is what its words say, on the characters themselves: a
    delimiter (one of the three) ends a fragment and the text after the
    last delimiter is the last fragment; trimming removes the white space
    at both ends and nothing else; a bullet (one of the three) goes with the
    white space after it, and a text that begins otherwise stays; a run of
    digits followed at once by a full stop goes with the white space after
    it, and a text that begins otherwise stays.  No fragment holds a
    delimiter, and a trimmed text has no white space at either end. *)
Theorem extractTags_rule (response : jsstring) :
  extractTags response = tag_rule response
  /\ (length (extractTags response) <= 10)%nat
  /\ Forall (fun t => (2 < length t < 100)%nat /\ (length t <= 50)%nat)
       (extractTags response)
  /\ sublist (extractTags response)
       (List.map rule_normalise (rule_fragments response))
  /\ extractTags (js "cat, a dog, - bird, 1. fish, x")
     = [js "cat"; js "a dog"; js "bird"; js "fish"]
  /\ extractTags response
     = take 10
         (List.filter (fun t => (2 <? length t)%nat && (length t <? 100)%nat)
            (List.map (fun fragment =>
                         take 50 (replace_numbering (replace_bullet (trim fragment))))
               (rule_fragments response)))
  /\ (forall fragment d rest,
        Forall (fun c => ~ In c rule_delimiters) fragment -> In d rule_delimiters ->
        rule_fragments (fragment ++ d :: rest) = fragment :: rule_fragments rest)
  /\ (forall fragment,
        Forall (fun c => ~ In c rule_delimiters) fragment ->
        rule_fragments fragment = [fragment])
  /\ (forall l core r,
        Forall (fun c => In c rule_white_space) l ->
        Forall (fun c => In c rule_white_space) r ->
        rule_starts_clean core -> rule_starts_clean (rev core) ->
        trim (l ++ core ++ r) = core)
  /\ (forall b ws rest,
        In b rule_bullets -> Forall (fun c => In c rule_white_space) ws ->
        rule_starts_clean rest ->
        replace_bullet (b :: ws ++ rest) = rest)
  /\ (forall s,
        match s with [] => True | c :: _ => ~ In c rule_bullets end ->
        replace_bullet s = s)
  /\ (forall ds ws rest,
        ds <> [] -> Forall rule_digit ds ->
        Forall (fun c => In c rule_white_space) ws -> rule_starts_clean rest ->
        replace_numbering (ds ++ rule_full_stop :: ws ++ rest) = rest)
  /\ (forall ds rest,
        Forall rule_digit ds ->
        match rest with
        | [] => True
        | c :: _ => ~ rule_digit c /\ (ds = [] \/ c <> rule_full_stop)
        end ->
        replace_numbering (ds ++ rest) = ds ++ rest)
  /\ Forall (Forall (fun c => ~ In c rule_delimiters)) (rule_fragments response)
  /\ (forall s, rule_starts_clean (trim s) /\ rule_starts_clean (rev (trim s))).
Proof.
  assert (E : extractTags response = tag_rule response).
  { unfold extractTags, tag_rule, rule_fragments, slice0. now rewrite loop_pushes. }
  split; [exact E|]. rewrite E. unfold tag_rule.
  split; [rewrite length_take; lia|].
  split.
  { apply Forall_take. apply List.Forall_forall. intros t Ht.
    apply List.filter_In in Ht as [Hin Hk].
    apply List.in_map_iff in Hin as [f [<- _]]. now apply rule_keep_bounds. }
  split.
  { etrans; [apply sublist_take|].
    generalize (List.map rule_normalise (rule_fragments response)). intros l.
    induction l as [|x l IH]; simpl; [constructor|].
    destruct (rule_keep x); [now constructor | now constructor]. }
  split; [vm_compute; reflexivity|].
  split; [reflexivity|].
  assert (Hfree : forall fragment, Forall (fun c => ~ In c rule_delimiters) fragment ->
                    Forall (fun c => is_delimiter c = false) fragment).
  { intros fragment Hf. eapply Forall_impl; [exact Hf|]. cbv beta. intros c.
    apply (not_true_units _ _ _ is_delimiter_units). }
  split.
  { intros fragment d rest Hf Hd. unfold rule_fragments.
    apply split_at; [now apply Hfree | now apply is_delimiter_units]. }
  split.
  { intros fragment Hf. unfold rule_fragments. apply split_last. now apply Hfree. }
  split.
  { intros l core r Hl Hr Hfirst Hlast.
    apply trim_core;
      [exact (Forall_units _ _ _ is_space_units Hl)
      |exact (Forall_units _ _ _ is_space_units Hr)
      |now apply starts_clean_space | now apply starts_clean_space]. }
  split.
  { intros b ws rest Hb Hws Hrest.
    apply replace_bullet_marker;
      [now apply is_bullet_units | exact (Forall_units _ _ _ is_space_units Hws)
      |now apply starts_clean_space]. }
  split.
  { intros s Hs. apply replace_bullet_other. destruct s as [|c s]; [exact I|].
    now apply (not_true_units _ _ _ is_bullet_units). }
  assert (Hdigits : forall ds, Forall rule_digit ds ->
                      Forall (fun c => is_digit c = true) ds).
  { intros ds Hd. eapply Forall_impl; [exact Hd|]. cbv beta. intros c. apply is_digit_units. }
  split.
  { intros ds ws rest Hne Hd Hws Hrest. destruct ds as [|d ds]; [contradiction|].
    apply replace_numbering_marker;
      [now apply Hdigits | exact (Forall_units _ _ _ is_space_units Hws)
      |now apply starts_clean_space]. }
  split.
  { intros ds rest Hd Hrest. apply replace_numbering_other; [now apply Hdigits|].
    destruct rest as [|c rest]; [exact I|]. destruct Hrest as [Hc Hstop].
    split; [|exact Hstop].
    destruct (is_digit c) eqn:Ec; [|reflexivity]. apply is_digit_units in Ec.
    contradiction. }
  assert (Hclean : forall s, match s with [] => True | c :: _ => is_space c = false end ->
                     rule_starts_clean s).
  { intros [|c s]; [easy|]. cbn. apply (not_true_units _ _ _ is_space_units). }
  split.
  { unfold rule_fragments. eapply Forall_impl; [apply split_fragments|]. cbv beta.
    intros fragment Hf. eapply Forall_impl; [exact Hf|]. cbv beta. intros c.
    apply (not_true_units _ _ _ is_delimiter_units). }
  intros s. split; apply Hclean; [apply trim_start | apply trim_end].
Qed.

End TagExtractionFacts.

(* --------------------------------------------------------------------- *)
(** ** Key management                                                      *)
(* --------------------------------------------------------------------- *)

Ltac run :=
  unfold bind, ret, gets, modify, throw, try_catch, lift_result in *; simpl in *.

Lemma bind_Ok {S A B} (c : JS S A) (k : A -> JS S B) s a s' :
  c s = (Ok a, s') -> bind c k s = k a s'.
Proof. intros E. unfold bind. now rewrite E. Qed.

Lemma bind_Throw {S A B} (c : JS S A) (k : A -> JS S B) s e s' :
  c s = (Throw e, s') -> bind c k s = (Throw e, s').
Proof. intros E. unfold bind. now rewrite E. Qed.

Lemma try_catch_Ok {S A} (c : JS S A) (h : exn -> JS S A) s a s' :
  c s = (Ok a, s') -> try_catch c h s = (Ok a, s').
Proof. intros E. unfold try_catch. now rewrite E. Qed.

Lemma Ok_inj {A} (a b : A) : Ok a = Ok b -> a = b.
Proof. now intros [= ->]. Qed.

Lemma pair_inv {A B} (a c : A) (b d : B) : (a, b) = (c, d) -> a = c /\ b = d.
Proof. now intros [= -> ->]. Qed.

Lemma bind_inv {S A B} (c : JS S A) (k : A -> JS S B) s b s' :
  bind c k s = (Ok b, s') ->
  exists a s1, c s = (Ok a, s1) /\ k a s1 = (Ok b, s').
Proof.
  unfold bind. destruct (c s) as [[a|e] s1]; [eauto | discriminate].
Qed.

Lemma try_rethrow {S A} (c : JS S A) s :
  try_catch c (fun error => throw error) s = c s.
Proof. unfold try_catch, throw. now destruct (c s) as [[a|e] s1]. Qed.

Lemma try_catch_Throw {S A} (c : JS S A) (h : exn -> JS S A) s e s' :
  c s = (Throw e, s') -> try_catch c h s = h e s'.
Proof. intros E. unfold try_catch. now rewrite E. Qed.

Section KeyFacts.
Context `{WebPlatform}.
Import KeyManager.

Lemma append_empty_r (s : string) : String.append s "" = s.
Proof.
  induction s as [|c s IH]; [reflexivity|].
  change (String c (String.append s "") = String c s). now rewrite IH.
Qed.

Lemma append_snoc (a : string) c (s : string) :
  String.append (String.append a (String c EmptyString)) s = String.append a (String c s).
Proof.
  induction a as [|d a IH]; [reflexivity|].
  change (String d (String.append (String.append a (String c EmptyString)) s)
          = String d (String.append a (String c s))).
  now rewrite IH.
Qed.

Lemma binary_loop buffer acc :
  fold_left (fun binary b => String.append binary (String (ascii_of_byte b) EmptyString))
    buffer acc
  = String.append acc (string_of_list_byte buffer).
Proof.
  revert acc. induction buffer as [|b buffer IH]; intros acc; simpl.
  - symmetry. apply append_empty_r.
  - rewrite IH. apply append_snoc.
Qed.

Lemma bufferToBase64_eq buffer :
  bufferToBase64 buffer = btoa (string_of_list_byte buffer).
Proof. unfold bufferToBase64. now rewrite binary_loop. Qed.

Lemma base64ToBuffer_bufferToBase64 (w : World) buffer :
  base64_roundtrip ->
  base64ToBuffer (bufferToBase64 buffer) w = (Ok buffer, w).
Proof.
  intros Hrt. unfold base64ToBuffer. rewrite bufferToBase64_eq, Hrt.
  unfold ret. f_equal. f_equal. apply list_byte_of_string_of_list_byte.
Qed.

Lemma bufferToBase64_inj a b :
  base64_roundtrip -> bufferToBase64 a = bufferToBase64 b -> a = b.
Proof.
  intros Hrt E. rewrite !bufferToBase64_eq in E.
  assert (E' : Some (string_of_list_byte a) = Some (string_of_list_byte b))
    by (rewrite <- !Hrt; now rewrite E).
  injection E' as E'.
  rewrite <- (list_byte_of_string_of_list_byte a), <- (list_byte_of_string_of_list_byte b).
  now rewrite E'.
Qed.

Lemma bufferToBase64_truthy s :
  base64_nonempty -> length s = 16%nat -> truthy (Some (bufferToBase64 s)) = true.
Proof.
  intros Hne Hlen. simpl. destruct (String.eqb_spec (bufferToBase64 s) ""); [|reflexivity].
  rewrite bufferToBase64_eq in e. apply Hne in e.
  destruct s; [discriminate|]. discriminate.
Qed.

Lemma length_entropy_bytes (w : World) p n : length (entropy_bytes w p n) = n.
Proof. unfold entropy_bytes. now rewrite length_map, length_seq. Qed.

(** *** What each method does to a well-formed state *)

(** With a salt persisted, [initializeSalt] loads it and writes nothing. *)
Lemma initializeSalt_persisted (w : World) s :
  base64_roundtrip -> base64_nonempty ->
  stored w "app_salt" = Some (bufferToBase64 s) -> length s = 16%nat ->
  initializeSalt w = (Ok tt, with_keyManager (with_salt (Some s) (keyManager w)) w).
Proof.
  intros Hrt Hne Hst Hlen. unfold initializeSalt, getItem. run.
  unfold stored in Hst. rewrite Hst.
  pose proof (bufferToBase64_truthy s Hne Hlen) as Ht. simpl in *. rewrite Ht.
  rewrite base64ToBuffer_bufferToBase64 by assumption. reflexivity.
Qed.

(** With none persisted, it draws 16 bytes, holds and persists them. *)
Lemma initializeSalt_first (w : World) :
  stored w "app_salt" = None ->
  exists w',
    initializeSalt w = (Ok tt, w')
    /\ salt (keyManager w') = Some (entropy_bytes w (entropy_pos (browser w)) 16)
    /\ masterKey (keyManager w') = masterKey (keyManager w)
    /\ localStorage (browser w')
       = <["app_salt" := bufferToBase64 (entropy_bytes w (entropy_pos (browser w)) 16)]>
           (localStorage (browser w))
    /\ db w' = db w.
Proof.
  intros Hst. unfold initializeSalt, getItem. run. unfold stored in Hst. rewrite Hst.
  eexists. split; [reflexivity|]. simpl. repeat split; reflexivity.
Qed.

Lemma wf_salt_unique (w : World) s :
  base64_roundtrip -> wf_keys w ->
  stored w "app_salt" = Some (bufferToBase64 s) -> length s = 16%nat.
Proof.
  intros Hrt (W1 & _ & _) Hst. destruct (W1 _ Hst) as (s' & Hlen & E).
  apply bufferToBase64_inj in E; [|assumption]. now subst.
Qed.

(** With a salt persisted, [deriveKey] derives from that salt, holds the key
    and the salt, and writes nothing. *)
Lemma deriveKey_persisted (w : World) password s :
  base64_roundtrip -> base64_nonempty -> wf_keys w ->
  stored w "app_salt" = Some (bufferToBase64 s) ->
  deriveKey password w
  = (Ok (pbkdf2_key password s),
     with_keyManager (mkKeyManager (Some (pbkdf2_key password s)) (Some s)) w).
Proof.
  intros Hrt Hne Hwf Hst.
  pose proof (wf_salt_unique w s Hrt Hwf Hst) as Hlen.
  unfold deriveKey. run.
  destruct (salt (keyManager w)) as [s'|] eqn:Es.
  - destruct Hwf as (_ & W2 & _). specialize (W2 _ Es).
    rewrite Hst in W2. injection W2 as W2. apply bufferToBase64_inj in W2; [|assumption].
    subst s'. rewrite Es. unfold set_masterKey. run.
    unfold with_masterKey. rewrite Es. reflexivity.
  - rewrite (initializeSalt_persisted w s) by assumption. simpl.
    unfold set_masterKey. run. reflexivity.
Qed.

(** In a well-formed state [initializeSalt] always returns, holding the
    persisted salt. *)
Lemma initializeSalt_returns (w : World) :
  base64_roundtrip -> wf_keys w ->
  exists s w',
    initializeSalt w = (Ok tt, w')
    /\ salt (keyManager w') = Some s
    /\ length s = 16%nat
    /\ stored w' "app_salt" = Some (bufferToBase64 s)
    /\ masterKey (keyManager w') = masterKey (keyManager w)
    /\ (forall k, k <> "app_salt" -> stored w' k = stored w k)
    /\ db w' = db w.
Proof.
  intros Hrt Hwf. unfold initializeSalt, getItem, bind, gets.
  assert (Hfresh : exists s w',
    (let (r, s') := getRandomValues 16 w in
     match r with
     | Ok a => (let (r0, s'0) := set_salt a s' in
                match r0 with
                | Ok _ => setItem "app_salt" (bufferToBase64 a) s'0
                | Throw e => (Throw e, s'0)
                end)
     | Throw e => (Throw e, s')
     end) = (Ok tt, w')
    /\ salt (keyManager w') = Some s
    /\ length s = 16%nat
    /\ stored w' "app_salt" = Some (bufferToBase64 s)
    /\ masterKey (keyManager w') = masterKey (keyManager w)
    /\ (forall k, k <> "app_salt" -> stored w' k = stored w k)
    /\ db w' = db w).
  { eexists _, _. split; [reflexivity|]. unfold stored. simpl.
    split; [reflexivity|]. split; [reflexivity|].
    split; [now rewrite lookup_insert_eq|]. split; [reflexivity|].
    split; [|reflexivity]. intros k Hk. now rewrite lookup_insert_ne. }
  destruct (localStorage (browser w) !! "app_salt") as [t|] eqn:Et; [|exact Hfresh].
  destruct (truthy (Some t)); [|exact Hfresh].
  destruct Hwf as (W1 & _ & _). destruct (W1 _ Et) as (s & Hlen & ->).
  rewrite base64ToBuffer_bufferToBase64 by assumption.
  eexists _, _. split; [reflexivity|]. unfold stored. simpl.
  repeat split; try assumption; reflexivity.
Qed.

(** In a well-formed state [deriveKey] always returns a key and holds it. *)
Lemma deriveKey_returns (w : World) password :
  base64_roundtrip -> wf_keys w ->
  exists key w',
    deriveKey password w = (Ok key, w')
    /\ masterKey (keyManager w') = Some key
    /\ (forall k, k <> "app_salt" -> stored w' k = stored w k)
    /\ db w' = db w.
Proof.
  intros Hrt Hwf. unfold deriveKey, bind, gets.
  destruct (salt (keyManager w)) as [s'|] eqn:Es.
  - unfold ret. rewrite Es. unfold set_masterKey, modify.
    eexists _, _. split; [reflexivity|]. simpl. repeat split; reflexivity.
  - destruct (initializeSalt_returns w Hrt Hwf)
      as (s & w1 & -> & Hs & _ & _ & _ & Hoth & Hdb).
    rewrite Hs. unfold set_masterKey, modify, ret.
    eexists _, _. split; [reflexivity|]. simpl. repeat split; assumption.
Qed.

(** *** Well-formedness is an invariant *)

Lemma wf_keys_ext (w w' : World) :
  wf_keys w ->
  salt (keyManager w') = salt (keyManager w) ->
  stored w' "app_salt" = stored w "app_salt" ->
  stored w' "password_test" = stored w "password_test" ->
  wf_keys w'.
Proof.
  intros (W1 & W2 & W3) Es Ea Ep. unfold wf_keys. rewrite Es, Ea, Ep. auto.
Qed.

Lemma wf_initializeSalt (w : World) :
  base64_roundtrip -> wf_keys w -> wf_keys (snd (initializeSalt w)).
Proof.
  intros Hrt Hwf.
  destruct (initializeSalt_returns w Hrt Hwf)
    as (s & w1 & -> & Hs & Hlen & Hst & _ & Hoth & _). simpl.
  destruct Hwf as (_ & _ & W3). unfold wf_keys. rewrite Hs, Hst.
  split; [|split].
  - intros t [= <-]. eauto.
  - intros s' [= <-]. reflexivity.
  - rewrite Hoth by discriminate. exact W3.
Qed.

Lemma deriveKey_state (w : World) password :
  base64_roundtrip -> wf_keys w ->
  exists key w1,
    deriveKey password w = (Ok key, with_keyManager (with_masterKey (Some key) (keyManager w1)) w1)
    /\ (w1 = w \/ w1 = snd (initializeSalt w))
    /\ wf_keys w1.
Proof.
  intros Hrt Hwf. unfold deriveKey, bind, gets.
  destruct (salt (keyManager w)) as [s'|] eqn:Es.
  - unfold ret. rewrite Es. unfold set_masterKey, modify.
    eexists _, w. split; [reflexivity|]. split; [now left | assumption].
  - pose proof (wf_initializeSalt w Hrt Hwf) as Hwf1.
    destruct (initializeSalt_returns w Hrt Hwf)
      as (s & w1 & E & Hs & _ & _ & _ & _ & _).
    rewrite E in *. simpl in Hwf1.
    rewrite Hs. unfold set_masterKey, modify, ret.
    eexists _, w1. split; [reflexivity|]. split; [now right | assumption].
Qed.

Lemma wf_with_masterKey (w : World) k :
  wf_keys w -> wf_keys (with_keyManager (with_masterKey k (keyManager w)) w).
Proof. intros Hwf. eapply wf_keys_ext; [exact Hwf | reflexivity..]. Qed.

Lemma wf_deriveKey (w : World) password :
  base64_roundtrip -> wf_keys w -> wf_keys (snd (deriveKey password w)).
Proof.
  intros Hrt Hwf.
  destruct (deriveKey_state w password Hrt Hwf) as (key & w1 & -> & _ & Hwf1).
  simpl. now apply wf_with_masterKey.
Qed.

(** The steps of [verifyPassword] after [deriveKey] read and write nothing:
    the state it leaves is the one it found or the one [deriveKey] left. *)
Lemma verifyPassword_state (w : World) password :
  snd (verifyPassword password w) = w
  \/ snd (verifyPassword password w) = snd (deriveKey password w).
Proof.
  unfold verifyPassword, getItem, bind, gets.
  destruct (localStorage (browser w) !! "password_test") as [t|]; [|now left].
  destruct (truthy (Some t)); [|now left].
  right. unfold try_catch, bind.
  destruct (deriveKey password w) as [[key|e] w1]; [|reflexivity].
  unfold parse_test. destruct (JSON_parse_test t) as [[enc iv]|]; [|reflexivity].
  unfold ret at 1. unfold base64ToBuffer.
  destruct (atob iv); [|reflexivity]. unfold ret at 1.
  destruct (atob enc); [|reflexivity]. unfold ret at 1.
  unfold decrypt. destruct (subtle_decrypt _ _ _); reflexivity.
Qed.

Lemma wf_verifyPassword (w : World) password :
  base64_roundtrip -> wf_keys w -> wf_keys (snd (verifyPassword password w)).
Proof.
  intros Hrt Hwf. destruct (verifyPassword_state w password) as [-> | ->];
    [assumption | now apply wf_deriveKey].
Qed.

(** With a salt held, [deriveKey] uses it and only replaces the held key. *)
Lemma deriveKey_held (w : World) password s :
  salt (keyManager w) = Some s ->
  deriveKey password w
  = (Ok (pbkdf2_key password s),
     with_keyManager (with_masterKey (Some (pbkdf2_key password s)) (keyManager w)) w).
Proof.
  intros Hs. unfold deriveKey, bind, gets. rewrite Hs. unfold ret. rewrite Hs.
  unfold set_masterKey, modify. reflexivity.
Qed.

(** [setupPassword] on any well-formed state: it returns [true], keeps a
    persisted salt, holds the derived key, and replaces the verifier by the
    encryption of the marker under that key and twelve new bytes. *)
Lemma setupPassword_returns (w : World) password :
  base64_roundtrip -> wf_keys w ->
  exists s w1 w',
    setupPassword password w = (Ok true, w')
    /\ initializeSalt w = (Ok tt, w1)
    /\ salt (keyManager w') = Some s
    /\ length s = 16%nat
    /\ stored w' "app_salt" = Some (bufferToBase64 s)
    /\ stored w1 "app_salt" = Some (bufferToBase64 s)
    /\ masterKey (keyManager w') = Some (pbkdf2_key password s)
    /\ stored w' "password_test"
       = Some (JSON_stringify_test
                 (bufferToBase64
                    (subtle_encrypt (entropy_bytes w1 (entropy_pos (browser w1)) 12)
                       (pbkdf2_key password s) (TextEncoder_encode "PASSWORD_CORRECT")))
                 (bufferToBase64 (entropy_bytes w1 (entropy_pos (browser w1)) 12)))
    /\ db w' = db w.
Proof.
  intros Hrt Hwf. unfold setupPassword, bind.
  destruct (initializeSalt_returns w Hrt Hwf)
    as (s & w1 & E & Hs & Hlen & Hst & _ & _ & Hdb).
  rewrite E. rewrite (deriveKey_held _ password s Hs).
  unfold getRandomValues, setItem, modify, ret, stored in *. simpl.
  exists s, w1. eexists. split; [reflexivity|]. simpl.
  split; [reflexivity|]. split; [assumption|]. split; [assumption|].
  split; [now rewrite lookup_insert_ne|]. split; [assumption|]. split; [reflexivity|].
  split; [now rewrite lookup_insert_eq | assumption].
Qed.

Lemma wf_setupPassword (w : World) password :
  base64_roundtrip -> wf_keys w -> wf_keys (snd (setupPassword password w)).
Proof.
  intros Hrt Hwf.
  destruct (setupPassword_returns w password Hrt Hwf)
    as (s & w1 & w' & -> & _ & Hs & Hlen & Hst & _ & _ & Hv & _). simpl.
  unfold wf_keys. rewrite Hs, Hst, Hv. split; [|split].
  - intros t [= <-]. eauto.
  - intros s' [= <-]. reflexivity.
  - intros t [= <-]. eauto.
Qed.

Lemma wf_after (ev : key_event) (w : World) :
  base64_roundtrip -> wf_keys w -> wf_keys (after ev w).
Proof.
  intros Hrt Hwf. destruct ev as [ | p | p | p | | | k v]; simpl.
  - now apply wf_initializeSalt.
  - now apply wf_deriveKey.
  - now apply wf_verifyPassword.
  - now apply wf_setupPassword.
  - now apply wf_with_masterKey.
  - destruct Hwf as (W1 & _ & W3). split; [exact W1|]. split; [discriminate | exact W3].
  - unfold is_setting_key.
    destruct (String.eqb_spec k "app_salt"); [assumption|].
    destruct (String.eqb_spec k "password_test"); [assumption|]. simpl.
    eapply wf_keys_ext; [exact Hwf | reflexivity | |];
      unfold stored; simpl; now rewrite lookup_insert_ne.
Qed.

(** Every state the key manager can reach is well formed. *)
Lemma reachable_wf (w : World) :
  base64_roundtrip -> reachable w -> wf_keys w.
Proof.
  intros Hrt. induction 1 as [w (Ha & Hp & Hk) | ev w _ IH].
  - unfold wf_keys. rewrite Ha, Hp, Hk. simpl. repeat split; discriminate.
  - now apply wf_after.
Qed.

(** *** The verifier *)


Lemma wf_verifier_truthy (w : World) t :
  json_nonempty -> wf_keys w -> stored w "password_test" = Some t ->
  truthy (Some t) = true.
Proof.
  intros Hne (_ & _ & W3) Hst. destruct (W3 _ Hst) as (e & i & ->). simpl.
  destruct (String.eqb_spec (JSON_stringify_test e i) ""); [|reflexivity].
  now apply Hne in e0.
Qed.

Lemma base64_bytes_bufferToBase64 buffer :
  base64_roundtrip -> base64_bytes (bufferToBase64 buffer) = Some buffer.
Proof.
  intros Hrt. unfold base64_bytes. rewrite bufferToBase64_eq, Hrt.
  f_equal. apply list_byte_of_string_of_list_byte.
Qed.




(** *** Key derivation *)

(** C5. For every password and persisted salt, in well-formed states:
    [deriveKey] returns the key that [crypto.subtle.deriveKey] computes with
    PBKDF2, hash SHA-256, that salt and 100000 iterations, for AES-GCM of
    length 256, from the UTF-8 bytes of the password; a call in any other
    well-formed state with the same persisted salt, and a second call in the
    state the first one leaves, return the same key; the persisted salt
    stays. *)
Theorem deriveKey_pbkdf2 (w w2 : World) (password : string) (s : list byte) :
  base64_roundtrip -> base64_nonempty -> wf_keys w -> wf_keys w2 ->
  stored w "app_salt" = Some (bufferToBase64 s) ->
  stored w2 "app_salt" = Some (bufferToBase64 s) ->
  fst (deriveKey password w)
  = Ok (subtle_deriveKey
          (mkPbkdf2Params "PBKDF2" s 100000 "SHA-256")
          (subtle_importKey "raw" (TextEncoder_encode password) "PBKDF2" false ["deriveKey"])
          (mkAesKeyGenParams "AES-GCM" 256)
          false
          ["encrypt"; "decrypt"])
  /\ fst (deriveKey password w2) = fst (deriveKey password w)
  /\ fst (deriveKey password (snd (deriveKey password w))) = fst (deriveKey password w)
  /\ stored (snd (deriveKey password w)) "app_salt" = Some (bufferToBase64 s).
Proof.
  intros Hrt Hne Hwf Hwf2 Hst Hst2.
  rewrite (deriveKey_persisted w password s) by assumption.
  rewrite (deriveKey_persisted w2 password s) by assumption.
  split; [reflexivity|]. split; [reflexivity|]. split; [|exact Hst].
  cbn [snd]. now rewrite (deriveKey_held _ password s).
Qed.

(** C10. In every well-formed state with a verifier persisted, and for every
    password: [verifyPassword] returns a boolean, and whichever boolean it
    is, the key manager then holds the key [deriveKey] derives from that
    password: [isUnlocked()] is true and [getMasterKey()] returns that key. *)
Theorem verifyPassword_holds_key (w : World) (password t : string) :
  base64_roundtrip -> json_nonempty -> wf_keys w ->
  stored w "password_test" = Some t ->
  exists b key w',
    verifyPassword password w = (Ok b, w')
    /\ fst (deriveKey password w) = Ok key
    /\ masterKey (keyManager w') = Some key
    /\ isUnlocked w' = true
    /\ fst (getMasterKey w') = Ok key.
Proof.
  intros Hrt Hjn Hwf Hst.
  pose proof (wf_verifier_truthy w t Hjn Hwf Hst) as Ht.
  destruct (deriveKey_returns w password Hrt Hwf) as (key & w1 & Ed & Hk & _ & _).
  assert (E : exists b, verifyPassword password w = (Ok b, w1)).
  { unfold verifyPassword, getItem, bind, gets. unfold stored in Hst.
    rewrite Hst, Ht. unfold try_catch, bind. rewrite Ed.
    unfold parse_test. destruct (JSON_parse_test t) as [[enc iv]|]; [|now exists false].
    unfold ret at 1. unfold base64ToBuffer.
    destruct (atob iv); [|now exists false]. unfold ret at 1.
    destruct (atob enc); [|now exists false]. unfold ret at 1.
    unfold decrypt. destruct (subtle_decrypt _ _ _); [|now exists false].
    unfold ret. eauto. }
  destruct E as [b E]. exists b, key, w1. rewrite E, Ed.
  split; [reflexivity|]. split; [reflexivity|]. split; [exact Hk|].
  unfold isUnlocked, getMasterKey, bind, gets. rewrite Hk. now split.
Qed.

(** C4, as the code has it.  In every well-formed state in which a salt is
    persisted, and for every password: [setupPassword] does not fail but
    returns [true]; it keeps the persisted salt and holds it; it holds the
    key derived from the password and that salt; and it writes a new
    verifier, the encryption of the marker under that key and the next
    twelve random bytes. *)
Theorem setupPassword_again (w : World) (password : string) :
  base64_roundtrip -> base64_nonempty -> wf_keys w ->
  isPasswordSet w = true ->
  exists s w',
    setupPassword password w = (Ok true, w')
    /\ stored w "app_salt" = Some (bufferToBase64 s)
    /\ stored w' "app_salt" = Some (bufferToBase64 s)
    /\ salt (keyManager w') = Some s
    /\ masterKey (keyManager w') = Some (pbkdf2_key password s)
    /\ stored w' "password_test"
       = Some (JSON_stringify_test
                 (bufferToBase64
                    (subtle_encrypt (entropy_bytes w (entropy_pos (browser w)) 12)
                       (pbkdf2_key password s) (TextEncoder_encode "PASSWORD_CORRECT")))
                 (bufferToBase64 (entropy_bytes w (entropy_pos (browser w)) 12))).
Proof.
  intros Hrt Hne Hwf Hset. unfold isPasswordSet in Hset.
  destruct (localStorage (browser w) !! "app_salt") as [t|] eqn:Et; [|discriminate].
  pose proof Hwf as (W1 & _ & _). destruct (W1 _ Et) as (s & Hlen & ->).
  destruct (setupPassword_returns w password Hrt Hwf)
    as (s' & w1 & w' & E & E1 & Hs & _ & Hst & _ & Hk & Hv & _).
  rewrite (initializeSalt_persisted w s) in E1 by assumption.
  injection E1 as <-.
  assert (s' = s) as ->.
  { pose proof (initializeSalt_returns w Hrt Hwf) as (s0 & w0 & E0 & Hs0 & _).
    rewrite (initializeSalt_persisted w s) in E0 by assumption. injection E0 as <-.
    simpl in Hs0.
    unfold setupPassword, bind in E.
    rewrite (initializeSalt_persisted w s) in E by assumption.
    rewrite (deriveKey_held _ password s) in E by reflexivity.
    unfold getRandomValues, setItem, modify, ret in E. simpl in E.
    injection E as <-. simpl in Hs. now injection Hs. }
  exists s, w'. repeat split; assumption.
Qed.

End KeyFacts.

(* --------------------------------------------------------------------- *)
(** ** Envelope encryption                                                 *)
(* --------------------------------------------------------------------- *)

Section EncryptionFacts.
Context `{WebPlatform}.
Import Encryption.

Lemma encryptFile_unlocked (w : World) key (blob : Blob) :
  masterKey (keyManager w) = Some key ->
  encryptFile blob w
  = (Ok (subtle_encrypt (entropy_bytes w (entropy_pos (browser w)) 12) key (blob_bytes blob),
         entropy_bytes w (entropy_pos (browser w)) 12),
     with_browser (with_entropy_pos (entropy_pos (browser w) + 12) (browser w)) w).
Proof.
  intros Hk. unfold encryptFile, KeyManager.getMasterKey, bind, gets. rewrite Hk.
  reflexivity.
Qed.

Lemma encryptFile_locked (w : World) (blob : Blob) :
  masterKey (keyManager w) = None ->
  encryptFile blob w = (Throw (Error "Application is locked. Please unlock first."), w).
Proof.
  intros Hk. unfold encryptFile, KeyManager.getMasterKey, bind, gets. now rewrite Hk.
Qed.

Lemma decryptFile_unlocked (w : World) key data iv :
  masterKey (keyManager w) = Some key ->
  fst (decryptFile data iv w)
  = match subtle_decrypt iv key data with
    | Some plain => Ok plain
    | None => Throw (mkExn "OperationError" "decrypt")
    end.
Proof.
  intros Hk. unfold decryptFile, KeyManager.getMasterKey, bind, gets. rewrite Hk.
  unfold KeyManager.decrypt, ret, throw. simpl.
  destruct (subtle_decrypt iv key data); reflexivity.
Qed.

(** C1. With the key manager unlocked, for every blob: [encryptFile] takes
    no IV from its caller but draws twelve bytes of its own; decrypting its
    output with [decryptFile] gives the bytes of the blob back; a second
    [encryptFile] of the same blob draws the next twelve bytes, and both
    outputs decrypt to the blob afterwards; the two ciphertexts differ
    whenever the two draws do. *)
Theorem encrypt_decrypt_roundtrip (w : World) (key : CryptoKey) (M : Blob) :
  gcm_roundtrip -> gcm_iv_injective ->
  masterKey (keyManager w) = Some key ->
  let p := entropy_pos (browser w) in
  let iv1 := entropy_bytes w p 12 in
  let iv2 := entropy_bytes w (p + 12) 12 in
  let c1 := subtle_encrypt iv1 key (blob_bytes M) in
  let c2 := subtle_encrypt iv2 key (blob_bytes M) in
  exists w1 w2,
    encryptFile M w = (Ok (c1, iv1), w1)
    /\ encryptFile M w1 = (Ok (c2, iv2), w2)
    /\ length iv1 = 12%nat /\ length iv2 = 12%nat
    /\ fst (decryptFile c1 iv1 w1) = Ok (blob_bytes M)
    /\ fst (decryptFile c1 iv1 w2) = Ok (blob_bytes M)
    /\ fst (decryptFile c2 iv2 w2) = Ok (blob_bytes M)
    /\ (iv1 <> iv2 -> c1 <> c2).
Proof.
  intros Hrt Hinj Hk p iv1 iv2 c1 c2.
  eexists _, _. split; [now apply encryptFile_unlocked|].
  split; [rewrite (encryptFile_unlocked _ key) by exact Hk; reflexivity|].
  split; [apply length_entropy_bytes|]. split; [apply length_entropy_bytes|].
  rewrite !(decryptFile_unlocked _ key) by exact Hk.
  unfold c1, c2. rewrite !Hrt. repeat split.
  intros Hne E. apply Hne. eapply Hinj; [| |exact E]; apply length_entropy_bytes.
Qed.

End EncryptionFacts.

(* --------------------------------------------------------------------- *)
(** ** The record store                                                    *)
(* --------------------------------------------------------------------- *)

Section StoreFacts.
Context {T : Type} (key : T -> string).

Lemma getAll_In (m : gmap string T) (r : T) :
  In r (ObjectStore.getAll m) <-> exists k, m !! k = Some r.
Proof.
  unfold ObjectStore.getAll. rewrite in_map_iff. split.
  - intros ([k r'] & <- & Hin). exists k.
    apply list_elem_of_In, elem_of_map_to_list in Hin. exact Hin.
  - intros (k & Hk). exists (k, r). split; [reflexivity|].
    apply list_elem_of_In, elem_of_map_to_list. exact Hk.
Qed.

Lemma getAll_keyed (m : gmap string T) (r : T) :
  keyed key m -> In r (ObjectStore.getAll m) -> m !! key r = Some r.
Proof.
  intros Hkeyed Hin. apply getAll_In in Hin as (k & Hk).
  now rewrite (Hkeyed _ _ Hk).
Qed.

Lemma put_no_index (r : T) (m : gmap string T) :
  ObjectStore.put key [] r m = Ok (<[key r := r]> m).
Proof. reflexivity. Qed.

Lemma add_inv unique (r : T) (m m' : gmap string T) :
  ObjectStore.add key unique r m = Ok m' ->
  m !! key r = None /\ m' = <[key r := r]> m.
Proof.
  unfold ObjectStore.add. destruct (m !! key r); [discriminate|].
  destruct (ObjectStore.clashes key unique r m); [discriminate|].
  intros [= <-]. now split.
Qed.

Lemma put_inv unique (r : T) (m m' : gmap string T) :
  ObjectStore.put key unique r m = Ok m' -> m' = <[key r := r]> m.
Proof.
  unfold ObjectStore.put.
  destruct (ObjectStore.clashes key unique r m); [discriminate|]. now intros [= <-].
Qed.

Lemma keyed_insert (r : T) (m : gmap string T) :
  keyed key m -> keyed key (<[key r := r]> m).
Proof.
  intros Hk k x. rewrite lookup_insert. case_decide as E.
  - intros [= <-]. exact E.
  - apply Hk.
Qed.

(** Every write of the store keeps the records under their own keys. *)
Lemma keyed_add unique (r : T) (m m' : gmap string T) :
  keyed key m -> ObjectStore.add key unique r m = Ok m' -> keyed key m'.
Proof. intros Hk Ha. apply add_inv in Ha as [_ ->]. now apply keyed_insert. Qed.

Lemma keyed_put unique (r : T) (m m' : gmap string T) :
  keyed key m -> ObjectStore.put key unique r m = Ok m' -> keyed key m'.
Proof. intros Hk Hp. apply put_inv in Hp as ->. now apply keyed_insert. Qed.

Lemma keyed_remove k (m : gmap string T) :
  keyed key m -> keyed key (ObjectStore.remove k m).
Proof.
  intros Hk k' r. unfold ObjectStore.remove. rewrite lookup_delete.
  case_decide; [discriminate | apply Hk].
Qed.

Lemma keyed_empty : keyed key (∅ : gmap string T).
Proof. intros k r. now rewrite lookup_empty. Qed.

(** Two maps with the same keys have the same size. *)
Lemma same_keys_size (m m' : gmap string T) :
  (forall k, m' !! k = None <-> m !! k = None) -> size m' = size m.
Proof.
  intros Hk. rewrite <- !size_dom. f_equal. apply set_eq. intros k.
  rewrite !elem_of_dom, <- !not_eq_None_Some. now rewrite Hk.
Qed.

End StoreFacts.

(* --------------------------------------------------------------------- *)
(** ** Deleting a category                                                 *)
(* --------------------------------------------------------------------- *)

Section CategoryFacts.
Context `{WebPlatform}.

(** The loop of [deleteCategory]: each listed item is written back under its
    own key with the new category; no other key is touched. *)
Lemma reassign_loop (m0 : gmap string MediaItem) (items : list MediaItem) (w : World) :
  (forall r, In r items -> m0 !! id r = Some r) ->
  exists m',
    for_of items (fun item => IndexedDBManager.updateMediaItem (with_categoryId "uncategorized" item)) w
    = (Ok tt, with_db (with_mediaItems m' (db w)) w)
    /\ (forall r, In r items -> m' !! id r = Some (with_categoryId "uncategorized" r))
    /\ (forall k, (forall r, In r items -> id r <> k) ->
          m' !! k = mediaItems (db w) !! k).
Proof.
  revert w. induction items as [|x rest IH]; intros w Hm0.
  - exists (mediaItems (db w)). split; [|split].
    + simpl. unfold ret. destruct w as [km br [c mi ai] cl cm]. reflexivity.
    + intros r [].
    + reflexivity.
  - specialize (IH (with_db (with_mediaItems (<[id x := with_categoryId "uncategorized" x]> (mediaItems (db w))) (db w)) w)).
    destruct IH as (m' & E & Hin & Hout).
    { intros r Hr. apply Hm0. now right. }
    exists m'. split; [|split].
    + simpl. erewrite bind_Ok by reflexivity. exact E.
    + intros r [<- | Hr]; [|now apply Hin].
      destruct (in_dec string_dec (id x) (List.map id rest)) as [Hi|Hi].
      * apply in_map_iff in Hi as (r & Er & Hr).
        assert (r = x) as ->.
        { pose proof (Hm0 r (or_intror Hr)) as E1.
          pose proof (Hm0 x (or_introl eq_refl)) as E2.
          rewrite Er in E1. congruence. }
        now apply Hin.
      * rewrite Hout.
        -- simpl. now rewrite lookup_insert_eq.
        -- intros r Hr Er. apply Hi. apply in_map_iff. eauto.
    + intros k Hk. rewrite Hout.
      * simpl. rewrite lookup_insert_ne; [reflexivity|]. apply Hk. now left.
      * intros r Hr. apply Hk. now right.
Qed.

Lemma getByIndex_In (m : gmap string MediaItem) c (r : MediaItem) :
  In r (ObjectStore.getByIndex categoryId c m)
  <-> (exists k, m !! k = Some r) /\ categoryId r = c.
Proof.
  unfold ObjectStore.getByIndex. rewrite filter_In, getAll_In.
  now rewrite String.eqb_eq.
Qed.

(** C9. When the user confirms, for every category id: [deleteCategory]
    returns; every media item of the store is still there under its key,
    with [categoryId] set to ["uncategorized"] if it was in the category and
    untouched otherwise, every other field as before; no key is added or
    lost, so the store keeps its size; and the category record is removed.
    When the user declines nothing changes. *)
Theorem deleteCategory_reassigns (w : World) (c : string) :
  keyed id (mediaItems (db w)) ->
  let w' := snd (CategoryManager.deleteCategory true c w) in
  fst (CategoryManager.deleteCategory true c w) = Ok tt
  /\ (forall k item, mediaItems (db w) !! k = Some item ->
        mediaItems (db w') !! k
        = Some (if String.eqb (categoryId item) c
                then mkMediaItem (id item) "uncategorized" (type item) (fileName item)
                       (fileSize item) (width item) (height item) (duration item)
                       (thumbnailData item) (thumbnailIv item) (fileData item)
                       (fileIv item) (mimeType item) (aiTags item) (aiPrompt item)
                       (aiModel item) (aiResponse item) (createdAt item)
                       (lastTagged item) (deletedOriginal item)
                else item))
  /\ (forall k, mediaItems (db w') !! k = None <-> mediaItems (db w) !! k = None)
  /\ size (mediaItems (db w')) = size (mediaItems (db w))
  /\ categories (db w') = delete c (categories (db w))
  /\ aiConfigs (db w') = aiConfigs (db w)
  /\ CategoryManager.deleteCategory false c w = (Ok tt, w).
Proof.
  intros Hkeyed w'.
  set (items := ObjectStore.getByIndex categoryId c (mediaItems (db w))).
  destruct (reassign_loop (mediaItems (db w)) items w) as (m' & E & Hin & Hout).
  { intros r Hr. apply getByIndex_In in Hr as [(k & Hk) _].
    now rewrite (Hkeyed _ _ Hk). }
  assert (Hrun : exists cm',
    CategoryManager.deleteCategory true c w
    = (Ok tt,
       mkWorld (keyManager w) (browser w)
         (mkDatabase (delete c (categories (db w))) m' (aiConfigs (db w)))
         (aiClient w) cm')).
  { unfold CategoryManager.deleteCategory. change (negb true) with false. cbv iota.
    destruct (String.eqb (activeCategory (categoryManager w)) c) eqn:Ea;
      eexists; eapply try_catch_Ok;
      (erewrite bind_Ok by reflexivity); fold items;
      (erewrite bind_Ok by exact E);
      (erewrite bind_Ok by reflexivity);
      (erewrite bind_Ok by reflexivity);
      (erewrite bind_Ok by reflexivity);
      simpl; rewrite Ea; reflexivity. }
  destruct Hrun as [cm' Hr]. subst w'. rewrite Hr. simpl.
  assert (Hlook : forall k item, mediaItems (db w) !! k = Some item ->
            m' !! k = Some (if String.eqb (categoryId item) c
                            then with_categoryId "uncategorized" item else item)).
  { intros k item Hk. pose proof (Hkeyed _ _ Hk) as <-.
    destruct (String.eqb_spec (categoryId item) c) as [Ec|Ec].
    - apply Hin. apply getByIndex_In. eauto.
    - rewrite Hout; [exact Hk|]. intros r Hr' Er.
      apply getByIndex_In in Hr' as [(k' & Hk') Ec'].
      pose proof (Hkeyed _ _ Hk') as <-. rewrite Er in Hk'. congruence. }
  assert (Hnone : forall k, m' !! k = None <-> mediaItems (db w) !! k = None).
  { intros k. split; intros Hk.
    - destruct (mediaItems (db w) !! k) as [item|] eqn:Ek; [|reflexivity].
      rewrite (Hlook _ _ Ek) in Hk. discriminate.
    - rewrite Hout; [exact Hk|]. intros r Hr' Er.
      apply getByIndex_In in Hr' as [(k' & Hk') _].
      pose proof (Hkeyed _ _ Hk') as E'. congruence. }
  split; [reflexivity|]. split; [exact Hlook|]. split; [exact Hnone|].
  split; [now apply same_keys_size|]. repeat split; reflexivity.
Qed.

End CategoryFacts.

(* --------------------------------------------------------------------- *)
(** ** Random identifiers                                                  *)
(* --------------------------------------------------------------------- *)

Section UuidFacts.
Context `{WebPlatform}.

Lemma with_math_pos_twice (w : World) a b :
  with_browser (with_math_pos b (browser (with_browser (with_math_pos a (browser w)) w)))
    (with_browser (with_math_pos a (browser w)) w)
  = with_browser (with_math_pos b (browser w)) w.
Proof. reflexivity. Qed.

Lemma with_math_pos_same (w : World) :
  with_browser (with_math_pos (math_pos (browser w)) (browser w)) w = w.
Proof. destruct w as [km [] d a c]. reflexivity. Qed.

Lemma uuid_replace_eq (template : string) (w : World) :
  uuid_replace template w
  = (Ok (uuid_from (math_random (browser w)) (math_pos (browser w)) template),
     with_browser (with_math_pos (math_pos (browser w) + uuid_draws template) (browser w)) w).
Proof.
  revert w. induction template as [|c rest IH]; intros w.
  - simpl. unfold ret. rewrite Nat.add_0_r. now rewrite with_math_pos_same.
  - simpl uuid_replace. unfold uuid_char. simpl uuid_from. simpl uuid_draws.
    destruct (Ascii.eqb c "x"); [|destruct (Ascii.eqb c "y")].
    + erewrite bind_Ok by (erewrite bind_Ok by reflexivity; reflexivity).
      erewrite bind_Ok by apply IH. unfold ret.
      rewrite <- Nat.add_succ_comm. reflexivity.
    + erewrite bind_Ok by (erewrite bind_Ok by reflexivity; reflexivity).
      erewrite bind_Ok by apply IH. unfold ret.
      rewrite <- Nat.add_succ_comm. reflexivity.
    + erewrite bind_Ok by reflexivity.
      erewrite bind_Ok by apply IH. reflexivity.
Qed.

Lemma next_uuid_ext (w' w : World) :
  math_random (browser w') = math_random (browser w) ->
  math_pos (browser w') = math_pos (browser w) ->
  next_uuid w' = next_uuid w.
Proof. unfold next_uuid. now intros -> ->. Qed.

Lemma entropy_bytes_ext (w' w : World) p n :
  entropy (browser w') = entropy (browser w) ->
  entropy_bytes w' p n = entropy_bytes w p n.
Proof. unfold entropy_bytes. now intros ->. Qed.

(** [generateUUID] always returns; it only advances [Math.random]. *)
Lemma generateUUID_eq (w : World) :
  generateUUID w
  = (Ok (next_uuid w), with_browser (with_math_pos (math_pos (browser w) + 31) (browser w)) w).
Proof.
  unfold generateUUID, next_uuid. fold uuid_template. rewrite uuid_replace_eq.
  assert (uuid_draws uuid_template = 31%nat) as -> by (vm_compute; reflexivity).
  reflexivity.
Qed.

End UuidFacts.

(* --------------------------------------------------------------------- *)
(** ** Saving an AI configuration                                          *)
(* --------------------------------------------------------------------- *)

Section ConfigFacts.
Context `{WebPlatform}.

Lemma encryptString_eq (text : string) (w : World) :
  Encryption.encryptString text w
  = match masterKey (keyManager w) with
    | Some key =>
        let iv := entropy_bytes w (entropy_pos (browser w)) 12 in
        (Ok (KeyManager.bufferToBase64 (subtle_encrypt iv key (TextEncoder_encode text)),
             KeyManager.bufferToBase64 iv),
         with_browser (with_entropy_pos (entropy_pos (browser w) + 12) (browser w)) w)
    | None => (Throw (Error "Application is locked. Please unlock first."), w)
    end.
Proof.
  unfold Encryption.encryptString, KeyManager.getMasterKey, bind, gets.
  destruct (masterKey (keyManager w)); reflexivity.
Qed.

(** The deactivation loop of [saveConfig], when it runs to its end: every
    listed configuration other than the saved one is written back inactive;
    no other key is touched, and nothing but the store of configurations. *)
Lemma deactivate_loop (m0 : gmap string AIConfig) (the_id : string)
    (l : list AIConfig) (w w' : World) :
  (forall r, In r l -> m0 !! config_id r = Some r) ->
  for_of l (fun oldConfig =>
    if negb (String.eqb (config_id oldConfig) the_id) then
      IndexedDBManager.updateAIConfig (with_isActive false oldConfig)
    else ret tt) w = (Ok tt, w') ->
  exists m',
    w' = with_db (with_aiConfigs m' (db w)) w
    /\ (forall r, In r l -> config_id r <> the_id ->
          m' !! config_id r = Some (with_isActive false r))
    /\ (forall k, k = the_id \/ (forall r, In r l -> config_id r <> k) ->
          m' !! k = aiConfigs (db w) !! k).
Proof.
  revert w. induction l as [|x rest IH]; intros w Hm0 Hrun.
  - simpl in Hrun. injection Hrun as <-. exists (aiConfigs (db w)).
    split; [|split].
    + destruct w as [km br [c mi ai] cl cm]. reflexivity.
    + intros r [].
    + reflexivity.
  - simpl in Hrun. apply bind_inv in Hrun as ([] & w1 & Hx & Hrest).
    assert (Hw1 : exists m1, w1 = with_db (with_aiConfigs m1 (db w)) w
              /\ (config_id x <> the_id ->
                    m1 = <[config_id x := with_isActive false x]> (aiConfigs (db w)))
              /\ (config_id x = the_id -> m1 = aiConfigs (db w))).
    { destruct (String.eqb_spec (config_id x) the_id) as [Ex|Ex]; simpl in Hx.
      - injection Hx as <-. exists (aiConfigs (db w)). split; [|split].
        + destruct w as [km br [c mi ai] cl cm]. reflexivity.
        + contradiction.
        + reflexivity.
      - unfold IndexedDBManager.updateAIConfig, IndexedDBManager.write in Hx.
        destruct (ObjectStore.put _ _ _ _) as [m1|e] eqn:Ep; [|discriminate].
        injection Hx as <-. apply put_inv in Ep. exists m1.
        split; [reflexivity|]. split; [intros _; exact Ep | contradiction]. }
    destruct Hw1 as (m1 & -> & Hne & Heq).
    destruct (IH _ (fun r Hr => Hm0 r (or_intror Hr)) Hrest) as (m' & -> & Hin & Hout).
    exists m'. split; [reflexivity|]. simpl in Hout. split.
    + intros r [<- | Hr] Hid; [|now apply Hin].
      destruct (in_dec string_dec (config_id x) (List.map config_id rest)) as [Hi|Hi].
      * apply in_map_iff in Hi as (r & Er & Hr).
        assert (r = x) as ->.
        { pose proof (Hm0 r (or_intror Hr)) as E1.
          pose proof (Hm0 x (or_introl eq_refl)) as E2.
          rewrite Er in E1. congruence. }
        now apply Hin.
      * rewrite Hout.
        -- rewrite (Hne Hid). now rewrite lookup_insert_eq.
        -- right. intros r Hr Er. apply Hi. apply in_map_iff. eauto.
    + intros k Hk. rewrite Hout.
      * destruct (String.eqb_spec (config_id x) the_id) as [Ex|Ex].
        -- now rewrite (Heq Ex).
        -- rewrite (Hne Ex). rewrite lookup_insert_ne; [reflexivity|].
           destruct Hk as [-> | Hk]; [exact Ex | apply Hk; now left].
      * destruct Hk as [-> | Hk]; [now left | right].
        intros r Hr. apply Hk. now right.
Qed.

Lemma clashes_false {T} (key ix : T -> string) (r : T) (m : gmap string T) :
  (forall k r', m !! k = Some r' -> k <> key r -> ix r' <> ix r) ->
  ObjectStore.clashes key [ix] r m = false.
Proof.
  intros Hno. unfold ObjectStore.clashes. cbn [existsb]. rewrite orb_false_r.
  destruct (existsb _ (map_to_list m)) eqn:E; [|reflexivity].
  apply existsb_exists in E as ([k r'] & Hin & Hb). exfalso.
  apply list_elem_of_In, elem_of_map_to_list in Hin.
  apply andb_prop in Hb as [Hk Hn]. cbn [fst snd] in Hk, Hn.
  apply negb_true_iff, String.eqb_neq in Hk. apply String.eqb_eq in Hn.
  exact (Hno k r' Hin Hk Hn).
Qed.

(** On a store with in-line keys and unique names the deactivation loop
    runs to its end: writing a configuration back with another [isActive]
    cannot offend the unique index. *)
Lemma deactivate_loop_runs (m0 : gmap string AIConfig) (the_id : string)
    (l : list AIConfig) (w : World) :
  keyed config_id m0 -> names_unique m0 ->
  (forall r, In r l -> m0 !! config_id r = Some r) ->
  deactivated_from m0 (aiConfigs (db w)) ->
  exists m',
    for_of l (fun oldConfig =>
      if negb (String.eqb (config_id oldConfig) the_id) then
        IndexedDBManager.updateAIConfig (with_isActive false oldConfig)
      else ret tt) w = (Ok tt, with_db (with_aiConfigs m' (db w)) w)
    /\ deactivated_from m0 m'.
Proof.
  intros Hkeyed Huniq. revert w. induction l as [|x rest IH]; intros w Hm0 Hvar.
  - exists (aiConfigs (db w)). split; [|exact Hvar].
    simpl. unfold ret. destruct w as [km br [c mi ai] cl cm]. reflexivity.
  - pose proof (Hm0 x (or_introl eq_refl)) as Hx.
    assert (Hrest : forall r, In r rest -> m0 !! config_id r = Some r)
      by (intros r Hr; apply Hm0; now right).
    simpl for_of. destruct (String.eqb_spec (config_id x) the_id) as [Ex|Ex]; cbn [negb].
    + erewrite bind_Ok by reflexivity. now apply IH.
    + assert (Hput : ObjectStore.put config_id [config_name] (with_isActive false x)
                       (aiConfigs (db w))
                     = Ok (<[config_id x := with_isActive false x]> (aiConfigs (db w)))).
      { unfold ObjectStore.put. rewrite clashes_false; [reflexivity|].
        intros k r' Hk Hne Hname. cbn in Hne, Hname. apply Hne.
        destruct (Hvar k) as [Esame | (r0 & Hr0 & Hdeact)].
        - rewrite Esame in Hk. exact (Huniq _ _ _ _ Hk Hx Hname).
        - rewrite Hdeact in Hk. injection Hk as <-.
          exact (Huniq _ _ _ _ Hr0 Hx Hname). }
      destruct (IH (with_db (with_aiConfigs
                     (<[config_id x := with_isActive false x]> (aiConfigs (db w))) (db w)) w)
                  Hrest) as (m' & E & Hvar').
      { intros k. cbn. destruct (decide (k = config_id x)) as [->|Hk].
        - right. exists x. split; [exact Hx | apply lookup_insert_eq].
        - rewrite lookup_insert_ne by congruence. apply Hvar. }
      exists m'. split; [|exact Hvar'].
      erewrite bind_Ok; [exact E|].
      unfold IndexedDBManager.updateAIConfig, IndexedDBManager.write. now rewrite Hput.
Qed.

(** [saveConfig] completes whenever the key manager is unlocked, the store
    has in-line keys and unique names, and no other configuration bears the
    name being saved. *)
Lemma saveConfig_completes (w : World) (config : ConfigInput) (key : CryptoKey) :
  masterKey (keyManager w) = Some key ->
  keyed config_id (aiConfigs (db w)) ->
  names_unique (aiConfigs (db w)) ->
  (forall k r, aiConfigs (db w) !! k = Some r -> k <> saved_id config w ->
     config_name r <> or_default (input_name config) "Default Config") ->
  exists saved w',
    AIAPIClient.saveConfig config w = (Ok saved, w')
    /\ config_id saved = saved_id config w
    /\ config_name saved = or_default (input_name config) "Default Config".
Proof.
  intros Hk Hkeyed Huniq Hname.
  unfold AIAPIClient.saveConfig. rewrite try_rethrow.
  erewrite bind_Ok by (rewrite encryptString_eq, Hk; reflexivity).
  set (w1 := with_browser _ w).
  assert (Hid : exists b2,
            (if truthy (input_id config) then ret (or_default (input_id config) "")
             else generateUUID) w1 = (Ok (saved_id config w), with_browser b2 w)).
  { unfold saved_id. destruct (truthy (input_id config)).
    - eexists. reflexivity.
    - rewrite generateUUID_eq. rewrite (next_uuid_ext w1 w) by reflexivity.
      eexists. reflexivity. }
  destruct Hid as [b2 Hid]. erewrite bind_Ok by exact Hid.
  erewrite bind_Ok by reflexivity. erewrite bind_Ok by reflexivity.
  erewrite bind_Ok by reflexivity.
  set (w3 := with_browser _ (with_browser b2 w)).
  set (configData := mkAIConfig (saved_id config w) _ _ _ _ _ _ true _).
  destruct (deactivate_loop_runs (aiConfigs (db w)) (saved_id config w)
              (ObjectStore.getAll (aiConfigs (db w))) w3 Hkeyed Huniq)
    as (m4 & Eloop & Hvar).
  { intros r Hr. now apply (getAll_keyed config_id). }
  { intros k. now left. }
  erewrite bind_Ok by exact Eloop.
  erewrite bind_Ok by reflexivity.
  assert (Hclash : ObjectStore.clashes config_id [config_name] configData m4 = false).
  { apply clashes_false. intros k r' Hr' Hne Hn. cbn in Hne, Hn.
    destruct (Hvar k) as [Esame | (r0 & Hr0 & Hdeact)].
    - rewrite Esame in Hr'. exact (Hname k r' Hr' Hne Hn).
    - rewrite Hdeact in Hr'. injection Hr' as <-. exact (Hname k r0 Hr0 Hne Hn). }
  assert (Hwrite : exists w5,
    match ObjectStore.get (saved_id config w) m4 with
    | Some _ => IndexedDBManager.updateAIConfig configData
    | None => IndexedDBManager.addAIConfig configData
    end (with_db (with_aiConfigs m4 (db w3)) w3) = (Ok tt, w5)).
  { unfold ObjectStore.get.
    destruct (m4 !! saved_id config w) eqn:Eg.
    - unfold IndexedDBManager.updateAIConfig, IndexedDBManager.write, ObjectStore.put.
      cbn [aiConfigs db with_db with_aiConfigs]. rewrite Hclash. eexists. reflexivity.
    - unfold IndexedDBManager.addAIConfig, IndexedDBManager.write, ObjectStore.add.
      cbn [aiConfigs db with_db with_aiConfigs config_id configData].
      subst configData. cbn [config_id]. rewrite Eg.
      rewrite Hclash. eexists. reflexivity. }
  destruct Hwrite as [w5 Hwrite]. erewrite bind_Ok by exact Hwrite.
  erewrite bind_Ok by reflexivity.
  eexists _, _. split; [reflexivity|]. split; reflexivity.
Qed.

(** C6. Whenever [saveConfig] completes on a store with in-line keys: the
    configuration it returns is in the store, active; every other
    configuration of the store is still there with [isActive] false and
    nothing else changed; so the active configurations of the store are
    exactly the saved one, and there is one of them. *)
Theorem saveConfig_one_active (w w' : World) (config : ConfigInput) (saved : AIConfig) :
  keyed config_id (aiConfigs (db w)) ->
  AIAPIClient.saveConfig config w = (Ok saved, w') ->
  aiConfigs (db w') !! config_id saved = Some saved
  /\ isActive saved = true
  /\ (forall k a, aiConfigs (db w) !! k = Some a -> k <> config_id saved ->
        aiConfigs (db w') !! k = Some (with_isActive false a))
  /\ (forall k, k <> config_id saved ->
        aiConfigs (db w) !! k = None -> aiConfigs (db w') !! k = None)
  /\ active_configs (aiConfigs (db w')) = {[ config_id saved := saved ]}
  /\ size (active_configs (aiConfigs (db w'))) = 1%nat.
Proof.
  intros Hkeyed Hrun. unfold AIAPIClient.saveConfig in Hrun. rewrite try_rethrow in Hrun.
  apply bind_inv in Hrun as ([enc iv] & w1 & H1 & Hrun).
  rewrite encryptString_eq in H1.
  destruct (masterKey (keyManager w)) as [key|]; [|discriminate].
  injection H1 as _ _ <-.
  apply bind_inv in Hrun as (the_id & w2 & H2 & Hrun).
  assert (Hdb2 : db w2 = db w).
  { destruct (truthy (input_id config)).
    - unfold ret in H2. now injection H2 as _ <-.
    - rewrite generateUUID_eq in H2. now injection H2 as _ <-. }
  apply bind_inv in Hrun as (prompt & w3 & H3 & Hrun).
  unfold gets in H3. injection H3 as _ <-.
  apply bind_inv in Hrun as (now & w4 & H4 & Hrun).
  unfold Date_now in H4. injection H4 as _ <-.
  apply bind_inv in Hrun as (allConfigs & w5 & H5 & Hrun).
  unfold IndexedDBManager.getAllAIConfigs, gets in H5. injection H5 as <- <-.
  apply bind_inv in Hrun as ([] & w6 & H6 & Hrun).
  apply (deactivate_loop (aiConfigs (db w))) in H6 as (m6 & -> & Hin & Hout).
  2:{ intros r Hr. simpl in Hr. rewrite Hdb2 in Hr. now apply (getAll_keyed config_id). }
  simpl in Hin, Hout. rewrite Hdb2 in Hin, Hout.
  apply bind_inv in Hrun as (existing & w7 & H7 & Hrun).
  unfold IndexedDBManager.getAIConfig, gets in H7. injection H7 as _ <-.
  apply bind_inv in Hrun as ([] & w8 & H8 & Hrun).
  apply bind_inv in Hrun as ([] & w9 & H9 & Hrun).
  unfold modify in H9. injection H9 as <-.
  unfold ret in Hrun. injection Hrun as <- <-.
  set (saved := mkAIConfig the_id _ _ _ _ _ _ true now) in *.
  assert (Hm : aiConfigs (db w8) = <[the_id := saved]> m6).
  { destruct existing.
    - unfold IndexedDBManager.updateAIConfig, IndexedDBManager.write in H8.
      destruct (ObjectStore.put _ _ _ _) as [m|e] eqn:Ep; [|discriminate].
      injection H8 as <-. apply put_inv in Ep. exact Ep.
    - unfold IndexedDBManager.addAIConfig, IndexedDBManager.write in H8.
      destruct (ObjectStore.add _ _ _ _) as [m|e] eqn:Ep; [|discriminate].
      injection H8 as <-. apply add_inv in Ep as [_ Ep]. exact Ep. }
  simpl. rewrite Hm. change (config_id saved) with the_id.
  assert (Hother : forall k a, aiConfigs (db w) !! k = Some a -> k <> the_id ->
            m6 !! k = Some (with_isActive false a)).
  { intros k a Hk Hne. pose proof (Hkeyed _ _ Hk) as <-.
    apply Hin; [|exact Hne]. apply getAll_In. eauto. }
  assert (Hnone : forall k, k <> the_id -> aiConfigs (db w) !! k = None -> m6 !! k = None).
  { intros k Hne Hk. rewrite Hout; [exact Hk|]. right. intros r Hr Er.
    apply getAll_In in Hr as (k' & Hk'). pose proof (Hkeyed _ _ Hk') as E. congruence. }
  assert (Hact : active_configs (<[the_id := saved]> m6) = {[ the_id := saved ]}).
  { apply map_eq. intros k. unfold active_configs.
    destruct (decide (k = the_id)) as [->|Hne].
    - rewrite lookup_singleton_eq. apply map_lookup_filter_Some.
      split; [apply lookup_insert_eq | reflexivity].
    - rewrite lookup_singleton_ne by congruence. apply map_lookup_filter_None.
      right. intros c Hc. rewrite lookup_insert_ne in Hc by congruence. simpl.
      destruct (aiConfigs (db w) !! k) as [a|] eqn:Ek.
      + rewrite (Hother _ _ Ek Hne) in Hc. injection Hc as <-. discriminate.
      + rewrite (Hnone _ Hne Ek) in Hc. discriminate. }
  split; [apply lookup_insert_eq|]. split; [reflexivity|].
  split; [intros k a Hk Hne; rewrite lookup_insert_ne by congruence; now apply Hother|].
  split; [intros k Hne Hk; rewrite lookup_insert_ne by congruence; now apply Hnone|].
  split; [exact Hact|]. rewrite Hact. apply map_size_singleton.
Qed.

End ConfigFacts.

(* --------------------------------------------------------------------- *)
(** ** Importing files                                                     *)
(* --------------------------------------------------------------------- *)

Section ImportFacts.
Context `{WebPlatform}.
Import FileHandler.

Lemma encryptBlob_eq (blob : Blob) (w : World) :
  Encryption.encryptBlob blob w
  = match masterKey (keyManager w) with
    | Some key =>
        let iv := entropy_bytes w (entropy_pos (browser w)) 12 in
        (Ok (subtle_encrypt iv key (blob_bytes blob), KeyManager.bufferToBase64 iv),
         with_browser (with_entropy_pos (entropy_pos (browser w) + 12) (browser w)) w)
    | None => (Throw (Error "Application is locked. Please unlock first."), w)
    end.
Proof.
  unfold Encryption.encryptBlob, Encryption.encryptFile, KeyManager.getMasterKey, bind, gets.
  destruct (masterKey (keyManager w)); reflexivity.
Qed.

Lemma metadata_step (file : File) (w : World) :
  (if ImageProcessor.isValidImage file then ImageProcessor.extractMetadata file
   else VideoProcessor.extractMetadata file) w
  = (metadata_of file, w).
Proof.
  unfold metadata_of, ImageProcessor.extractMetadata, VideoProcessor.extractMetadata.
  destruct (ImageProcessor.isValidImage file).
  - destruct (image_dimensions file) as [[a b]|]; reflexivity.
  - destruct (video_dimensions file) as [[[a b] d]|]; reflexivity.
Qed.

Lemma thumbnail_step (file : File) (w : World) :
  (if ImageProcessor.isValidImage file then ImageProcessor.generateThumbnail file
   else VideoProcessor.generateThumbnail file) w
  = (render_thumbnail (media_type_of file) file, w).
Proof.
  unfold media_type_of, ImageProcessor.generateThumbnail, VideoProcessor.generateThumbnail,
    lift_result.
  destruct (ImageProcessor.isValidImage file); reflexivity.
Qed.

(** [processFile], step by step: which step fails, with what, and the state
    left behind. *)
Lemma processFile_eq (file : File) (c : string) (w : World) :
  processFile file c w
  = if unsupported file then (Throw (Error "Unsupported file type"), w)
    else
      match metadata_of file with
      | Throw e => (Throw e, w)
      | Ok metadata =>
          match render_thumbnail (media_type_of file) file with
          | Throw e => (Throw e, w)
          | Ok thumbnailBlob =>
              match masterKey (keyManager w) with
              | None => (Throw (Error "Application is locked. Please unlock first."), w)
              | Some key =>
                  let p := entropy_pos (browser w) in
                  let iv1 := entropy_bytes w p 12 in
                  let iv2 := entropy_bytes w (p + 12) 12 in
                  let mediaItem :=
                    mkMediaItem (next_uuid w) c (media_type_of file)
                      (md_fileName metadata) (md_size metadata)
                      (md_width metadata) (md_height metadata)
                      (duration_or_zero (md_duration metadata))
                      (subtle_encrypt iv1 key (blob_bytes thumbnailBlob))
                      (KeyManager.bufferToBase64 iv1)
                      (subtle_encrypt iv2 key (file_bytes file))
                      (KeyManager.bufferToBase64 iv2)
                      (file_type file) [] "" "" None
                      (clock (browser w) (clock_pos (browser w))) None false in
                  match ObjectStore.add id [] mediaItem (mediaItems (db w)) with
                  | Ok store =>
                      (Ok mediaItem, after_import w (with_mediaItems store (db w)))
                  | Throw e => (Throw e, after_import w (db w))
                  end
              end
          end
      end.
Proof.
  unfold processFile, unsupported.
  destruct (negb (ImageProcessor.isValidImage file) && negb (VideoProcessor.isValidVideo file));
    [reflexivity|].
  unfold bind at 1. rewrite metadata_step.
  destruct (metadata_of file) as [metadata|e]; [|reflexivity].
  unfold bind at 1. rewrite thumbnail_step.
  destruct (render_thumbnail (media_type_of file) file) as [thumb|e]; [|reflexivity].
  unfold bind at 1. rewrite encryptBlob_eq.
  destruct (masterKey (keyManager w)) as [key|] eqn:Ek; [|reflexivity].
  cbv zeta. unfold bind at 1. rewrite encryptBlob_eq. simpl masterKey. rewrite Ek.
  cbv zeta. unfold bind at 1. rewrite generateUUID_eq.
  unfold bind at 1. unfold Date_now at 1.
  unfold bind, IndexedDBManager.addMediaItem, IndexedDBManager.write, ret.
  unfold media_type_of. simpl.
  rewrite (next_uuid_ext (with_browser _ _) w) by reflexivity.
  rewrite !(entropy_bytes_ext (with_browser _ w) w) by reflexivity.
  match goal with |- context [ObjectStore.add id [] ?i ?m] =>
    destruct (ObjectStore.add id [] i m) end; reflexivity.
Qed.


(** [processFile] does return an item when the type is supported, the
    processor reads the file and renders a thumbnail, the key manager is
    unlocked and the generated id is free. *)
Lemma processFile_returns (file : File) (c : string) (w : World) metadata thumbnailBlob key :
  unsupported file = false ->
  metadata_of file = Ok metadata ->
  render_thumbnail (media_type_of file) file = Ok thumbnailBlob ->
  masterKey (keyManager w) = Some key ->
  mediaItems (db w) !! next_uuid w = None ->
  exists item w', processFile file c w = (Ok item, w') /\ id item = next_uuid w.
Proof.
  intros Hu Hm Ht Hk Hfree. rewrite processFile_eq, Hu, Hm, Ht, Hk. cbv zeta.
  unfold ObjectStore.add. cbn [id]. rewrite Hfree. cbn [ObjectStore.clashes existsb].
  eexists _, _. split; reflexivity.
Qed.

(** C7. For every file and category id: if [processFile] throws, the
    database is as it was, whatever the step that failed; a file that is
    neither a valid image nor a valid video makes it throw "Unsupported file
    type" with nothing at all changed; and if it returns an item, then the
    key manager was unlocked, the store of media items is the one before
    with that item added under a key that was free, the other stores are as
    before, the item's id is the UUID generated by that call, [createdAt]
    is the clock's reading, [aiTags] is empty, and thumbnail and file are
    encrypted under the held key with two IVs drawn one after the other,
    each stored beside its ciphertext. *)
Theorem processFile_atomic (file : File) (c : string) (w : World) :
  (forall e w', processFile file c w = (Throw e, w') -> db w' = db w)
  /\ (unsupported file = true ->
        processFile file c w = (Throw (Error "Unsupported file type"), w))
  /\ (forall item w', processFile file c w = (Ok item, w') ->
        unsupported file = false
        /\ mediaItems (db w) !! id item = None
        /\ mediaItems (db w') = <[id item := item]> (mediaItems (db w))
        /\ categories (db w') = categories (db w)
        /\ aiConfigs (db w') = aiConfigs (db w)
        /\ fst (generateUUID w) = Ok (id item)
        /\ createdAt item = clock (browser w) (clock_pos (browser w))
        /\ aiTags item = []
        /\ categoryId item = c
        /\ exists key thumbnailBlob,
             masterKey (keyManager w) = Some key
             /\ render_thumbnail (type item) file = Ok thumbnailBlob
             /\ let p := entropy_pos (browser w) in
                let iv1 := entropy_bytes w p 12 in
                let iv2 := entropy_bytes w (p + 12) 12 in
                thumbnailData item = subtle_encrypt iv1 key (blob_bytes thumbnailBlob)
                /\ thumbnailIv item = KeyManager.bufferToBase64 iv1
                /\ fileData item = subtle_encrypt iv2 key (file_bytes file)
                /\ fileIv item = KeyManager.bufferToBase64 iv2).
Proof.
  rewrite processFile_eq.
  destruct (unsupported file).
  { split; [|split].
    - now intros e w' [= _ <-].
    - reflexivity.
    - intros item w' [=]. }
  destruct (metadata_of file) as [metadata|e0].
  2:{ split; [|split]; [now intros e w' [= _ <-] | discriminate | intros item w' [=]]. }
  destruct (render_thumbnail (media_type_of file) file) as [thumb|e0] eqn:Et.
  2:{ split; [|split]; [now intros e w' [= _ <-] | discriminate | intros item w' [=]]. }
  destruct (masterKey (keyManager w)) as [key|] eqn:Ek.
  2:{ split; [|split]; [now intros e w' [= _ <-] | discriminate | intros item w' [=]]. }
  cbv zeta.
  match goal with |- context [ObjectStore.add id [] ?i ?m] => set (mediaItem := i) end.
  destruct (ObjectStore.add id [] mediaItem (mediaItems (db w))) as [store|e0] eqn:Ea.
  2:{ split; [|split]; [|discriminate|intros item w' [=]].
      now intros e w' [= _ <-]. }
  split; [intros e w' E; discriminate E|]. split; [discriminate|].
  intros item w' E. injection E as E1 E2. subst item w'.
  apply add_inv in Ea as [Hfree Hstore].
  split; [reflexivity|]. split; [exact Hfree|]. split; [exact Hstore|].
  split; [reflexivity|]. split; [reflexivity|].
  split; [rewrite generateUUID_eq; cbn [fst]; subst mediaItem; cbn [id]; reflexivity|].
  split; [reflexivity|]. split; [reflexivity|]. split; [reflexivity|].
  exists key, thumb. split; [reflexivity|]. split; [exact Et|].
  cbv zeta. repeat split; reflexivity.
Qed.

End ImportFacts.

Section BatchFacts.
Context `{WebPlatform}.
Import FileHandler.

Lemma import_step (file : File) (c : string) (results : list ImportResult) (w : World) :
  try_catch
    (let* mediaItem := processFile file c in
     ret (results ++ [Imported mediaItem (file_name file)]))
    (fun error => ret (results ++ [Failed (exn_message error) (file_name file)])) w
  = (Ok (results ++ [entry_of file (fst (processFile file c w))]),
     snd (processFile file c w)).
Proof.
  unfold try_catch, bind. destruct (processFile file c w) as [[item|e] w1]; reflexivity.
Qed.

(** One turn of the loop: the file is processed in the state the files
    before it have left (after the progress call), its entry is pushed, and
    the loop goes on with the next file whatever the outcome. *)
Lemma importFiles_loop_cons (file : File) (rest : list File) (i total : nat) (c : string)
    (cb : bool) (acc : list ImportResult) (w : World) :
  let w0 := snd ((if cb then report_progress (i + 1) total (file_name file)
                  else ret tt) w) in
  importFiles_loop i total (file :: rest) c cb acc w
  = importFiles_loop (S i) total rest c cb
      (acc ++ [entry_of file (fst (processFile file c w0))])
      (snd (processFile file c w0)).
Proof.
  intros w0. subst w0. simpl importFiles_loop.
  destruct cb; (erewrite bind_Ok by reflexivity);
    (erewrite bind_Ok by apply import_step); reflexivity.
Qed.



End BatchFacts.

(* --------------------------------------------------------------------- *)
(** ** Properties that every step of a method keeps                        *)
(* --------------------------------------------------------------------- *)

Section Preservation.
Context `{WebPlatform}.
Variable P : World -> Prop.

Lemma preserves_ret {A} (a : A) : preserves P (ret a).
Proof. intros w Hw. exact Hw. Qed.

Lemma preserves_throw {A} (e : exn) : preserves P (throw (A := A) e).
Proof. intros w Hw. exact Hw. Qed.

Lemma preserves_gets {A} (f : World -> A) : preserves P (gets f).
Proof. intros w Hw. exact Hw. Qed.

Lemma preserves_lift_result {A} (r : result A) : preserves P (lift_result r).
Proof. intros w Hw. exact Hw. Qed.

Lemma preserves_bind {A B} (c : JS World A) (k : A -> JS World B) :
  preserves P c -> (forall a, preserves P (k a)) -> preserves P (bind c k).
Proof.
  intros Hc Hk w Hw. unfold bind. specialize (Hc w Hw).
  destruct (c w) as [[a|e] w1]; [apply Hk|]; exact Hc.
Qed.

Lemma preserves_try_catch {A} (c : JS World A) (h : exn -> JS World A) :
  preserves P c -> (forall e, preserves P (h e)) -> preserves P (try_catch c h).
Proof.
  intros Hc Hh w Hw. unfold try_catch. specialize (Hc w Hw).
  destruct (c w) as [[a|e] w1]; [|apply Hh]; exact Hc.
Qed.

Lemma preserves_for_of {A} (xs : list A) (body : A -> JS World unit) :
  (forall x, preserves P (body x)) -> preserves P (for_of xs body).
Proof.
  intros Hb. induction xs as [|x xs IH]; simpl.
  - apply preserves_ret.
  - apply preserves_bind; [apply Hb | intros _; exact IH].
Qed.

Lemma preserves_modify (f : World -> World) :
  (forall w, P w -> P (f w)) -> preserves P (modify f).
Proof. intros Hf w Hw. now apply Hf. Qed.

End Preservation.

(** One step of a proof that a method keeps a property: through the
    sequencing, the handlers, the loops and the tests of the method. *)
Ltac keep_step :=
  lazymatch goal with
  | |- preserves _ (bind _ _) => apply preserves_bind; [|intros ?]
  | |- preserves _ (try_catch _ _) => apply preserves_try_catch; [|intros ?]
  | |- preserves _ (for_of _ _) => apply preserves_for_of; intros ?
  | |- preserves _ (ret _) => apply preserves_ret
  | |- preserves _ (throw _) => apply preserves_throw
  | |- preserves _ (gets _) => apply preserves_gets
  | |- preserves _ (lift_result _) => apply preserves_lift_result
  | |- preserves _ (if ?b then _ else _) => destruct b
  | |- preserves _ (match ?x with _ => _ end) => destruct x
  end.

(** The methods outside the key manager, each keeping every property that
    is stable under the frame and under the writes of the stores. *)
Section MethodsKeep.
Context `{WebPlatform} `{PageServices}.
Variable P : World -> Prop.
Hypothesis Hframe : frame_stable P.
Hypothesis Hwrite : write_stable P.

Lemma keep_getRandomValues n : preserves P (getRandomValues n).
Proof. intros w Hw. destruct Hframe as (Hb & _). now apply Hb. Qed.

Lemma keep_random_nibble : preserves P random_nibble.
Proof. intros w Hw. destruct Hframe as (Hb & _). now apply Hb. Qed.

Lemma keep_Date_now : preserves P Date_now.
Proof. intros w Hw. destruct Hframe as (Hb & _). now apply Hb. Qed.

Lemma keep_report_progress i n name : preserves P (FileHandler.report_progress i n name).
Proof. intros w Hw. destruct Hframe as (Hb & _). now apply Hb. Qed.

Lemma keep_aiClient (f : World -> AIClientState) :
  preserves P (modify (fun w => with_aiClient (f w) w)).
Proof. intros w Hw. destruct Hframe as (_ & Ha & _). now apply Ha. Qed.

Lemma keep_categoryManager (f : World -> CategoryManagerState) :
  preserves P (modify (fun w => with_categoryManager (f w) w)).
Proof. intros w Hw. destruct Hframe as (_ & _ & Hc). now apply Hc. Qed.

Lemma keep_uuid_replace template : preserves P (uuid_replace template).
Proof.
  induction template as [|c rest IH]; simpl; [apply preserves_ret|].
  apply preserves_bind.
  - unfold uuid_char. repeat keep_step; apply keep_random_nibble.
  - intros d. apply preserves_bind; [exact IH | intros ds; apply preserves_ret].
Qed.

Lemma keep_generateUUID : preserves P generateUUID.
Proof. apply keep_uuid_replace. Qed.

Lemma keep_getMasterKey : preserves P KeyManager.getMasterKey.
Proof. unfold KeyManager.getMasterKey. repeat keep_step. Qed.

Lemma keep_base64ToBuffer t : preserves P (KeyManager.base64ToBuffer t).
Proof. unfold KeyManager.base64ToBuffer. repeat keep_step. Qed.

Lemma keep_decrypt iv key data : preserves P (KeyManager.decrypt iv key data).
Proof. unfold KeyManager.decrypt. repeat keep_step. Qed.

Lemma keep_encryptFile blob : preserves P (Encryption.encryptFile blob).
Proof.
  unfold Encryption.encryptFile.
  repeat first [keep_step | apply keep_getMasterKey | apply keep_getRandomValues].
Qed.

Lemma keep_decryptFile data iv : preserves P (Encryption.decryptFile data iv).
Proof.
  unfold Encryption.decryptFile.
  repeat first [keep_step | apply keep_getMasterKey | apply keep_decrypt].
Qed.

Lemma keep_encryptString text : preserves P (Encryption.encryptString text).
Proof.
  unfold Encryption.encryptString.
  repeat first [keep_step | apply keep_getMasterKey | apply keep_getRandomValues].
Qed.

Lemma keep_decryptString e i : preserves P (Encryption.decryptString e i).
Proof.
  unfold Encryption.decryptString, Encryption.base64ToBuffer.
  repeat first [keep_step | apply keep_getMasterKey | apply keep_base64ToBuffer
               | apply keep_decrypt].
Qed.

Lemma keep_encryptBlob blob : preserves P (Encryption.encryptBlob blob).
Proof. unfold Encryption.encryptBlob. repeat first [keep_step | apply keep_encryptFile]. Qed.

Lemma keep_decryptToBlob data i mime : preserves P (Encryption.decryptToBlob data i mime).
Proof.
  unfold Encryption.decryptToBlob, Encryption.base64ToBuffer.
  repeat first [keep_step | apply keep_base64ToBuffer | apply keep_decryptFile].
Qed.

Lemma keep_read {A} (f : World -> result A) : preserves P (fun w => (f w, w)).
Proof. intros w Hw. exact Hw. Qed.

(** The steps that occur in the methods below, recognised by their head. *)
Ltac keep_known :=
  lazymatch goal with
  | |- preserves _ (getRandomValues _) => apply keep_getRandomValues
  | |- preserves _ random_nibble => apply keep_random_nibble
  | |- preserves _ Date_now => apply keep_Date_now
  | |- preserves _ (FileHandler.report_progress _ _ _) => apply keep_report_progress
  | |- preserves _ generateUUID => apply keep_generateUUID
  | |- preserves _ (Encryption.encryptString _) => apply keep_encryptString
  | |- preserves _ (Encryption.decryptString _ _) => apply keep_decryptString
  | |- preserves _ (Encryption.encryptBlob _) => apply keep_encryptBlob
  | |- preserves _ (Encryption.decryptToBlob _ _ _) => apply keep_decryptToBlob
  | |- preserves _ (modify (fun w => with_aiClient _ w)) => apply keep_aiClient
  | |- preserves _ (modify (fun w => with_categoryManager _ w)) =>
      apply keep_categoryManager
  | |- preserves _ (fun w => (_, w)) => apply keep_read
  | W : forall r, preserves P (?f r) |- preserves P (?f _) => apply W
  | W : preserves P ?c |- preserves P ?c => exact W
  end.

Ltac keep := repeat first [keep_step | keep_known].

Lemma keep_saveConfig config : preserves P (AIAPIClient.saveConfig config).
Proof.
  destruct Hwrite as (_ & _ & _ & _ & _ & _ & W7 & W8 & _).
  unfold AIAPIClient.saveConfig, IndexedDBManager.getAllAIConfigs,
    IndexedDBManager.getAIConfig. keep.
Qed.

Lemma keep_getActiveAIConfig : preserves P IndexedDBManager.getActiveAIConfig.
Proof. unfold IndexedDBManager.getActiveAIConfig. keep. Qed.

Lemma keep_loadConfig : preserves P AIAPIClient.loadConfig.
Proof.
  unfold AIAPIClient.loadConfig. keep; try apply keep_getActiveAIConfig.
  all: keep.
Qed.

Lemma keep_analyzeImage fetch image prompt :
  preserves P (AIAPIClient.analyzeImage fetch image prompt).
Proof. unfold AIAPIClient.analyzeImage. keep. Qed.

Lemma keep_processFile file c : preserves P (FileHandler.processFile file c).
Proof.
  destruct Hwrite as (_ & _ & _ & W4 & _).
  unfold FileHandler.processFile, ImageProcessor.extractMetadata,
    VideoProcessor.extractMetadata, ImageProcessor.generateThumbnail,
    VideoProcessor.generateThumbnail. keep.
Qed.

Lemma keep_importFiles_loop files :
  forall i total c cb acc,
    preserves P (FileHandler.importFiles_loop i total files c cb acc).
Proof.
  induction files as [|file rest IH]; intros i total c cb acc; simpl.
  - apply preserves_ret.
  - keep; try apply keep_processFile; apply IH.
Qed.

Lemma keep_importFiles files c cb : preserves P (FileHandler.importFiles files c cb).
Proof. apply keep_importFiles_loop. Qed.

Lemma keep_getDecryptedBlob item : preserves P (FileHandler.getDecryptedBlob item).
Proof. unfold FileHandler.getDecryptedBlob. keep. Qed.

Lemma keep_getDecryptedFile item : preserves P (FileHandler.getDecryptedFile item).
Proof. unfold FileHandler.getDecryptedFile. keep. Qed.

Lemma keep_getDecryptedThumbnail item : preserves P (FileHandler.getDecryptedThumbnail item).
Proof. unfold FileHandler.getDecryptedThumbnail. keep. Qed.

Lemma keep_loadCategories : preserves P CategoryManager.loadCategories.
Proof. unfold CategoryManager.loadCategories, IndexedDBManager.getAllCategories. keep. Qed.

Lemma keep_setActiveCategory c : preserves P (CategoryManager.setActiveCategory c).
Proof. unfold CategoryManager.setActiveCategory. keep. Qed.

Lemma keep_deleteCategory confirmed c :
  preserves P (CategoryManager.deleteCategory confirmed c).
Proof.
  destruct Hwrite as (_ & _ & W3 & _ & W5 & _).
  unfold CategoryManager.deleteCategory, IndexedDBManager.getMediaItemsByCategory.
  keep; try apply keep_loadCategories; try apply keep_setActiveCategory.
Qed.

Lemma keep_saveCategory name desc color editId :
  preserves P (CategoryManager.saveCategory name desc color editId).
Proof.
  destruct Hwrite as (W1 & W2 & _).
  unfold CategoryManager.saveCategory. keep; try apply keep_loadCategories.
Qed.

Lemma keep_tagItem fetch item prompt : preserves P (TagProcessor.tagItem fetch item prompt).
Proof.
  destruct Hwrite as (_ & _ & _ & _ & W5 & _).
  unfold TagProcessor.tagItem.
  keep; try apply keep_getDecryptedBlob; try apply keep_analyzeImage. all: keep.
Qed.

Lemma keep_batchTag_loop items :
  forall fetches i total cb prompt results ok failed,
    preserves P (TagProcessor.batchTag_loop fetches i total items cb prompt results ok failed).
Proof.
  induction items as [|item rest IH]; intros fetches i total cb prompt results ok failed;
    simpl.
  - apply preserves_ret.
  - keep; try apply keep_tagItem; apply IH.
Qed.

Lemma keep_batchTag fetches items cb prompt :
  preserves P (TagProcessor.batchTag fetches items cb prompt).
Proof. apply keep_batchTag_loop. Qed.

Lemma keep_retryFailed fetches failedResults cb prompt :
  preserves P (TagProcessor.retryFailed fetches failedResults cb prompt).
Proof. apply keep_batchTag. Qed.

Lemma keep_getUntaggedItems c : preserves P (TagProcessor.getUntaggedItems c).
Proof.
  unfold TagProcessor.getUntaggedItems, IndexedDBManager.getAllMediaItems,
    IndexedDBManager.getMediaItemsByCategory. keep.
Qed.

Lemma keep_clearTags item : preserves P (TagProcessor.clearTags item).
Proof.
  destruct Hwrite as (_ & _ & _ & _ & W5 & _). unfold TagProcessor.clearTags. keep.
Qed.

Lemma keep_addManualTag item tag : preserves P (TagProcessor.addManualTag item tag).
Proof.
  destruct Hwrite as (_ & _ & _ & _ & W5 & _). unfold TagProcessor.addManualTag. keep.
Qed.

Lemma keep_removeTag item tag : preserves P (TagProcessor.removeTag item tag).
Proof.
  destruct Hwrite as (_ & _ & _ & _ & W5 & _). unfold TagProcessor.removeTag. keep.
Qed.

Lemma keep_saveAIConfig a b c d : preserves P (SettingsManager.saveAIConfig a b c d).
Proof. unfold SettingsManager.saveAIConfig. keep; apply keep_saveConfig. Qed.

Lemma keep_clearAllData confirmed : preserves P (SettingsManager.clearAllData confirmed).
Proof.
  destruct Hwrite as (_ & _ & _ & _ & _ & _ & _ & _ & _ & W10).
  unfold SettingsManager.clearAllData. keep.
Qed.

End MethodsKeep.

(* --------------------------------------------------------------------- *)
(** ** Sessions: locking, unlocking again, and what stays persisted        *)
(* --------------------------------------------------------------------- *)

Section SessionFacts.
Context `{WebPlatform}.
Import KeyManager Encryption.

Lemma decryptFile_eq (w : World) data iv :
  decryptFile data iv w
  = (match masterKey (keyManager w) with
     | None => Throw locked
     | Some key =>
         match subtle_decrypt iv key data with
         | Some plain => Ok plain
         | None => Throw not_authentic
         end
     end, w).
Proof.
  unfold decryptFile, getMasterKey, KeyManager.decrypt, bind, gets, ret, throw.
  destruct (masterKey (keyManager w)) as [key|]; [|reflexivity].
  destruct (subtle_decrypt iv key data); reflexivity.
Qed.

Lemma base64ToBuffer_eq (w : World) t :
  base64ToBuffer t w
  = (match base64_bytes t with Some b => Ok b | None => Throw not_base64 end, w).
Proof.
  unfold base64ToBuffer, KeyManager.base64ToBuffer, base64_bytes.
  destruct (atob t); reflexivity.
Qed.

Lemma decryptString_eq (w : World) e i :
  decryptString e i w
  = (match masterKey (keyManager w) with
     | None => Throw locked
     | Some key =>
         match base64_bytes e with
         | None => Throw not_base64
         | Some eb =>
             match base64_bytes i with
             | None => Throw not_base64
             | Some ib =>
                 match subtle_decrypt ib key eb with
                 | Some plain => Ok (TextDecoder_decode plain)
                 | None => Throw not_authentic
                 end
             end
         end
     end, w).
Proof.
  unfold decryptString, getMasterKey, KeyManager.decrypt, bind, gets, ret, throw.
  destruct (masterKey (keyManager w)) as [key|]; [|reflexivity].
  rewrite base64ToBuffer_eq. destruct (base64_bytes e) as [eb|]; [|reflexivity].
  rewrite base64ToBuffer_eq. destruct (base64_bytes i) as [ib|]; [|reflexivity].
  destruct (subtle_decrypt ib key eb); reflexivity.
Qed.

Lemma decryptToBlob_eq (w : World) data i mime :
  decryptToBlob data i mime w
  = (match base64_bytes i with
     | None => Throw not_base64
     | Some ib =>
         match masterKey (keyManager w) with
         | None => Throw locked
         | Some key =>
             match subtle_decrypt ib key data with
             | Some plain => Ok (mkBlob plain mime)
             | None => Throw not_authentic
             end
         end
     end, w).
Proof.
  unfold decryptToBlob, bind. rewrite base64ToBuffer_eq.
  destruct (base64_bytes i) as [ib|]; [|reflexivity].
  rewrite decryptFile_eq. destruct (masterKey (keyManager w)) as [key|]; [|reflexivity].
  destruct (subtle_decrypt ib key data); reflexivity.
Qed.

(** X1. With the key manager unlocked and a text that UTF-8 encoding and
    decoding give back, [encryptString] draws twelve random bytes and returns
    two base64 strings from which [decryptString] recovers the text in every
    later state that holds the same key; under any other key [decryptString]
    throws the decryption error, and with no key it throws the lock error.
    Neither leaves a trace in the state it ran on. *)
Theorem encryptString_roundtrip (w : World) (key : CryptoKey) (text : string) :
  base64_roundtrip -> gcm_roundtrip -> gcm_authentic ->
  TextDecoder_decode (TextEncoder_encode text) = text ->
  masterKey (keyManager w) = Some key ->
  exists encrypted iv w1,
    encryptString text w = (Ok (encrypted, iv), w1)
    /\ entropy_pos (browser w1) = (entropy_pos (browser w) + 12)%nat
    /\ keyManager w1 = keyManager w /\ db w1 = db w
    /\ (forall w2, masterKey (keyManager w2) = Some key ->
          decryptString encrypted iv w2 = (Ok text, w2))
    /\ (forall w2 key', masterKey (keyManager w2) = Some key' -> key' <> key ->
          decryptString encrypted iv w2 = (Throw not_authentic, w2))
    /\ (forall w2, masterKey (keyManager w2) = None ->
          decryptString encrypted iv w2 = (Throw locked, w2)).
Proof.
  intros Hb Hg Ha Hutf Hk. rewrite encryptString_eq, Hk. cbv zeta.
  eexists _, _, _. split; [reflexivity|].
  split; [reflexivity|]. split; [reflexivity|]. split; [reflexivity|].
  split; [|split].
  - intros w2 Hk2. rewrite decryptString_eq, Hk2.
    rewrite !base64_bytes_bufferToBase64 by exact Hb. now rewrite Hg, Hutf.
  - intros w2 key' Hk2 Hne. rewrite decryptString_eq, Hk2.
    rewrite !base64_bytes_bufferToBase64 by exact Hb. now rewrite Ha.
  - intros w2 Hk2. now rewrite decryptString_eq, Hk2.
Qed.

Lemma with_salt_same (w : World) s :
  salt (keyManager w) = Some s ->
  with_keyManager (with_salt (Some s) (keyManager w)) w = w.
Proof. destruct w as [[mk sl] b d a c]. cbn. now intros ->. Qed.

Lemma isUnlocked_false (w : World) :
  isUnlocked w = false -> masterKey (keyManager w) = None.
Proof. unfold isUnlocked. now destruct (masterKey (keyManager w)). Qed.

(** X2. While the key manager holds no key (after [lock], and on a page
    that has just been loaded), every method of [Encryption] throws and
    leaves the state as it found it: no random bytes are drawn and nothing
    is decrypted.  All of them throw the lock error, except that
    [decryptToBlob] decodes its IV first and throws the decoding error when
    the IV is not base64. *)
Theorem locked_refuses (w : World) :
  isUnlocked w = false ->
  getMasterKey w = (Throw locked, w)
  /\ (forall blob, encryptFile blob w = (Throw locked, w))
  /\ (forall data iv, decryptFile data iv w = (Throw locked, w))
  /\ (forall text, encryptString text w = (Throw locked, w))
  /\ (forall e i, decryptString e i w = (Throw locked, w))
  /\ (forall blob, encryptBlob blob w = (Throw locked, w))
  /\ (forall data i mime,
        decryptToBlob data i mime w
        = (Throw (match base64_bytes i with Some _ => locked | None => not_base64 end), w))
  /\ (forall w0, isUnlocked (snd (lock w0)) = false)
  /\ (forall w0, isUnlocked (after ev_reload w0) = false).
Proof.
  intros Hl. apply isUnlocked_false in Hl.
  split; [unfold getMasterKey, bind, gets; now rewrite Hl|].
  split; [intros blob; now apply encryptFile_locked|].
  split; [intros data iv; now rewrite decryptFile_eq, Hl|].
  split; [intros text; now rewrite encryptString_eq, Hl|].
  split; [intros e i; now rewrite decryptString_eq, Hl|].
  split; [intros blob; now rewrite encryptBlob_eq, Hl|].
  split; [|split; intros w0; reflexivity].
  intros data i mime. rewrite decryptToBlob_eq, Hl. now destruct (base64_bytes i).
Qed.

(** X3. What one session encrypts, a later one decrypts: a blob encrypted
    under the key of [password], after a reload of the page and a
    [deriveKey(p')], is decrypted to its bytes when [p'] derives the same key
    from the persisted salt, and is refused with the decryption error when
    [p'] derives another key.  ([App.unlockApplication] calls [deriveKey]
    whatever [verifyPassword] answered.) *)
Theorem decrypt_in_later_session (w : World) (password : string) (s : list byte)
    (blob : Blob) :
  base64_roundtrip -> base64_nonempty -> gcm_roundtrip -> gcm_authentic -> wf_keys w ->
  stored w "app_salt" = Some (bufferToBase64 s) ->
  masterKey (keyManager w) = Some (pbkdf2_key password s) ->
  exists c iv w1,
    encryptFile blob w = (Ok (c, iv), w1)
    /\ forall p' : string,
         let w2 := snd (deriveKey p' (after ev_reload w1)) in
         fst (deriveKey p' (after ev_reload w1)) = Ok (pbkdf2_key p' s)
         /\ (pbkdf2_key p' s = pbkdf2_key password s ->
               decryptFile c iv w2 = (Ok (blob_bytes blob), w2))
         /\ (pbkdf2_key p' s <> pbkdf2_key password s ->
               decryptFile c iv w2 = (Throw not_authentic, w2)).
Proof.
  intros Hb Hne Hg Ha Hwf Hs Hk.
  rewrite (encryptFile_unlocked w _ blob Hk).
  set (w1 := with_browser _ w).
  eexists _, _, w1. split; [reflexivity|]. intros p'.
  assert (Hwf1 : wf_keys (after ev_reload w1)).
  { apply wf_after; [exact Hb|]. eapply wf_keys_ext; [exact Hwf | reflexivity..]. }
  assert (Hs1 : stored (after ev_reload w1) "app_salt" = Some (bufferToBase64 s))
    by exact Hs.
  rewrite (deriveKey_persisted _ p' s Hb Hne Hwf1 Hs1). cbn [fst snd].
  split; [reflexivity|]. split.
  - intros E. rewrite decryptFile_eq. cbn [keyManager with_keyManager masterKey].
    rewrite E. now rewrite Hg.
  - intros E. rewrite decryptFile_eq. cbn [keyManager with_keyManager masterKey].
    now rewrite Ha.
Qed.



(** X5. [initializeSalt] is idempotent: in a well-formed state it returns,
    and a second call returns in the state the first one left, drawing no
    random byte and writing nothing. *)
Theorem initializeSalt_idempotent (w : World) :
  base64_roundtrip -> base64_nonempty -> wf_keys w ->
  exists w1,
    initializeSalt w = (Ok tt, w1)
    /\ initializeSalt w1 = (Ok tt, w1)
    /\ isPasswordSet w1 = true
    /\ (isPasswordSet w = true -> browser w1 = browser w).
Proof.
  intros Hb Hne Hwf.
  destruct (initializeSalt_returns w Hb Hwf) as (s & w1 & E & Hs & Hlen & Hst & _).
  exists w1. split; [exact E|]. split; [|split].
  - rewrite (initializeSalt_persisted w1 s Hb Hne Hst Hlen).
    now rewrite (with_salt_same w1 s Hs).
  - unfold isPasswordSet. unfold stored in Hst. now rewrite Hst.
  - unfold isPasswordSet. fold (stored w "app_salt").
    destruct (stored w "app_salt") as [t|] eqn:Et; [|discriminate]. intros _.
    pose proof Hwf as (W1 & _ & _). destruct (W1 _ Et) as (s0 & Hlen0 & ->).
    rewrite (initializeSalt_persisted w s0 Hb Hne Et Hlen0) in E.
    apply pair_inv in E as [_ <-]. reflexivity.
Qed.

End SessionFacts.

(* --------------------------------------------------------------------- *)
(** ** The stores and their unique indexes                                 *)
(* --------------------------------------------------------------------- *)

Section IndexFacts.
Context {T : Type} (key ix : T -> string).

(** The index [ix] refuses a record exactly when a record under another
    key has its value. *)
Lemma clashes_iff (r : T) (m : gmap string T) :
  ObjectStore.clashes key [ix] r m = true
  <-> exists k r', m !! k = Some r' /\ k <> key r /\ ix r' = ix r.
Proof.
  unfold ObjectStore.clashes. cbn [existsb]. rewrite orb_false_r. split.
  - intros E. apply existsb_exists in E as ([k r'] & Hin & Hb).
    apply list_elem_of_In, elem_of_map_to_list in Hin.
    apply andb_prop in Hb as [Hk Hn]. cbn [fst snd] in Hk, Hn.
    apply negb_true_iff, String.eqb_neq in Hk. apply String.eqb_eq in Hn.
    now exists k, r'.
  - intros (k & r' & Hin & Hk & Hn). apply existsb_exists. exists (k, r'). split.
    + now apply list_elem_of_In, elem_of_map_to_list.
    + cbn [fst snd]. apply andb_true_intro. split.
      * now apply negb_true_iff, String.eqb_neq.
      * now apply String.eqb_eq.
Qed.

Lemma unique_insert (r : T) (m : gmap string T) :
  unique_on ix m -> ObjectStore.clashes key [ix] r m = false ->
  unique_on ix (<[key r := r]> m).
Proof.
  intros Hu Hc k1 k2 r1 r2 H1 H2 E.
  assert (Hno : forall k r', m !! k = Some r' -> k <> key r -> ix r' <> ix r).
  { intros k r' Hk Hne Hix. apply not_true_iff_false in Hc. apply Hc.
    apply clashes_iff. now exists k, r'. }
  destruct (decide (k1 = key r)) as [->|N1]; destruct (decide (k2 = key r)) as [->|N2].
  - reflexivity.
  - rewrite lookup_insert_eq in H1. rewrite lookup_insert_ne in H2 by congruence.
    injection H1 as <-. now contradiction (Hno k2 r2 H2 N2).
  - rewrite lookup_insert_eq in H2. rewrite lookup_insert_ne in H1 by congruence.
    injection H2 as <-. now contradiction (Hno k1 r1 H1 N1).
  - rewrite lookup_insert_ne in H1, H2 by congruence. exact (Hu _ _ _ _ H1 H2 E).
Qed.

Lemma unique_delete k (m : gmap string T) :
  unique_on ix m -> unique_on ix (delete k m).
Proof.
  intros Hu k1 k2 r1 r2 H1 H2 E.
  apply lookup_delete_Some in H1 as [_ H1]. apply lookup_delete_Some in H2 as [_ H2].
  exact (Hu _ _ _ _ H1 H2 E).
Qed.

Lemma unique_empty : unique_on ix (∅ : gmap string T).
Proof. intros k1 k2 r1 r2 H1. now rewrite lookup_empty in H1. Qed.

Lemma unique_add (r : T) (m m' : gmap string T) :
  unique_on ix m -> ObjectStore.add key [ix] r m = Ok m' -> unique_on ix m'.
Proof.
  unfold ObjectStore.add. intros Hu. destruct (m !! key r); [discriminate|].
  destruct (ObjectStore.clashes key [ix] r m) eqn:Ec; [discriminate|].
  intros [= <-]. now apply unique_insert.
Qed.

Lemma unique_put (r : T) (m m' : gmap string T) :
  unique_on ix m -> ObjectStore.put key [ix] r m = Ok m' -> unique_on ix m'.
Proof.
  unfold ObjectStore.put. intros Hu.
  destruct (ObjectStore.clashes key [ix] r m) eqn:Ec; [discriminate|].
  intros [= <-]. now apply unique_insert.
Qed.

(** What [store.add] answers. *)
Lemma add_iff (r : T) (m m' : gmap string T) :
  ObjectStore.add key [ix] r m = Ok m'
  <-> m !! key r = None
      /\ (forall k r', m !! k = Some r' -> ix r' <> ix r)
      /\ m' = <[key r := r]> m.
Proof.
  unfold ObjectStore.add. split.
  - destruct (m !! key r) eqn:Ek; [discriminate|].
    destruct (ObjectStore.clashes key [ix] r m) eqn:Ec; [discriminate|].
    intros [= <-]. split; [reflexivity|]. split; [|reflexivity].
    intros k r' Hk Hix. apply not_true_iff_false in Ec. apply Ec.
    apply clashes_iff. exists k, r'. split; [exact Hk|]. split; [|exact Hix].
    intros ->. rewrite Ek in Hk. discriminate.
  - intros (Ek & Hno & ->). rewrite Ek.
    rewrite clashes_false; [reflexivity|]. intros k r' Hk _. exact (Hno k r' Hk).
Qed.

Lemma add_throws (r : T) (m : gmap string T) e :
  ObjectStore.add key [ix] r m = Throw e -> e = ObjectStore.ConstraintError.
Proof.
  unfold ObjectStore.add. destruct (m !! key r); [now intros [= <-]|].
  destruct (ObjectStore.clashes key [ix] r m); [now intros [= <-] | discriminate].
Qed.

End IndexFacts.

Section StoreMethodFacts.
Context `{WebPlatform}.
Import IndexedDBManager.

(** X6. [addCategory] succeeds exactly when the id is free and no category
    bears the name; it then stores the record, which [getCategory] finds,
    and changes nothing else.  Otherwise it throws the constraint error and
    leaves the state as it was: two categories never share an id or a
    name. *)
Theorem addCategory_unique (category : Category) (w : World) :
  let m := categories (db w) in
  let added := with_db (with_categories (<[category_id category := category]> m) (db w)) w in
  (forall w', addCategory category w = (Ok tt, w')
     <-> m !! category_id category = None
         /\ (forall k r, m !! k = Some r -> category_name r <> category_name category)
         /\ w' = added)
  /\ (forall e w', addCategory category w = (Throw e, w')
        <-> e = ObjectStore.ConstraintError /\ w' = w
            /\ (m !! category_id category <> None
                \/ exists k r, m !! k = Some r /\ category_name r = category_name category))
  /\ getCategory (category_id category) added = (Ok (Some category), added)
  /\ (forall k, k <> category_id category ->
        fst (getCategory k added) = fst (getCategory k w))
  /\ mediaItems (db added) = mediaItems (db w)
  /\ aiConfigs (db added) = aiConfigs (db w).
Proof.
  intros m added. unfold addCategory, write. fold m.
  destruct (ObjectStore.add category_id [category_name] category m) as [m'|e0] eqn:Ea.
  - apply add_iff in Ea as (Hfree & Hname & ->). fold added.
    split; [|split; [|split; [|split; [|split]]]].
    + intros w'. split; [intros [= <-] | intros (_ & _ & ->)]; auto.
    + intros e w'. split; [intros [=] | intros (_ & _ & [Hn | (k & r & Hk & Hix)])].
      * now contradiction Hn.
      * now contradiction (Hname k r Hk).
    + unfold getCategory, gets, ObjectStore.get. cbn. now rewrite lookup_insert_eq.
    + intros k Hk. unfold getCategory, gets, ObjectStore.get. cbn.
      now rewrite lookup_insert_ne by congruence.
    + reflexivity.
    + reflexivity.
  - pose proof (add_throws _ _ _ _ _ Ea) as ->.
    assert (Hwhy : m !! category_id category <> None
                   \/ exists k r, m !! k = Some r /\ category_name r = category_name category).
    { unfold ObjectStore.add in Ea. destruct (m !! category_id category) eqn:Ek.
      - left. discriminate.
      - right. destruct (ObjectStore.clashes category_id [category_name] category m) eqn:Ec;
          [|discriminate].
        apply clashes_iff in Ec as (k & r & Hk & _ & Hix). now exists k, r. }
    split; [|split; [|split; [|split; [|split]]]].
    + intros w'. split; [intros [=] | intros (Hfree & Hname & _)].
      destruct Hwhy as [Hn | (k & r & Hk & Hix)];
        [now contradiction Hn | now contradiction (Hname k r Hk)].
    + intros e w'. split; [intros [= <- <-] | intros (-> & -> & _)]; auto.
    + unfold getCategory, gets, ObjectStore.get. cbn. now rewrite lookup_insert_eq.
    + intros k Hk. unfold getCategory, gets, ObjectStore.get. cbn.
      now rewrite lookup_insert_ne by congruence.
    + reflexivity.
    + reflexivity.
Qed.

(** X7. A media item added under a free id is found by [getMediaItem]; a
    second [addMediaItem] of it is refused and changes nothing;
    [updateMediaItem] replaces it; [deleteMediaItem] removes it and gives
    the store back as it was before the item was added; deleting an id that
    is not stored succeeds and changes nothing. *)
Theorem mediaItem_roundtrip (item : MediaItem) (w : World) :
  mediaItems (db w) !! id item = None ->
  exists w1,
    addMediaItem item w = (Ok tt, w1)
    /\ getMediaItem (id item) w1 = (Ok (Some item), w1)
    /\ addMediaItem item w1 = (Throw ObjectStore.ConstraintError, w1)
    /\ (forall item', id item' = id item ->
          exists w2,
            updateMediaItem item' w1 = (Ok tt, w2)
            /\ getMediaItem (id item) w2 = (Ok (Some item'), w2)
            /\ size (mediaItems (db w2)) = size (mediaItems (db w1)))
    /\ (exists w3,
          deleteMediaItem (id item) w1 = (Ok tt, w3)
          /\ getMediaItem (id item) w3 = (Ok None, w3)
          /\ mediaItems (db w3) = mediaItems (db w))
    /\ fst (deleteMediaItem (id item) w) = Ok tt
    /\ mediaItems (db (snd (deleteMediaItem (id item) w))) = mediaItems (db w).
Proof.
  intros Hfree.
  unfold addMediaItem, getMediaItem, updateMediaItem, deleteMediaItem, write, gets,
    ObjectStore.get, ObjectStore.put, ObjectStore.remove, ObjectStore.add,
    ObjectStore.clashes.
  cbn [existsb]. rewrite Hfree.
  eexists. split; [reflexivity|]. cbn.
  rewrite lookup_insert_eq. split; [reflexivity|]. split; [reflexivity|].
  split; [|split; [|split]].
  - intros item' E. eexists. split; [reflexivity|]. cbn. rewrite <- E.
    rewrite lookup_insert_eq. split; [reflexivity|].
    rewrite E, insert_insert_eq. rewrite !map_size_insert_None by exact Hfree.
    reflexivity.
  - eexists. split; [reflexivity|]. cbn. rewrite lookup_delete_eq.
    split; [reflexivity|]. now apply delete_insert_id.
  - reflexivity.
  - now apply delete_id.
Qed.

End StoreMethodFacts.

(* --------------------------------------------------------------------- *)
(** ** The states the page can reach                                       *)
(* --------------------------------------------------------------------- *)

Section PageInvariant.
Context `{WebPlatform} `{PageServices}.

Lemma frame_wf_db : frame_stable (fun w => wf_db (db w)).
Proof. unfold frame_stable. split; [|split]; intros; assumption. Qed.

Lemma write_keeps {T} (read : Database -> gmap string T)
    (store : gmap string T -> Database -> Database)
    (op : gmap string T -> result (gmap string T)) (Q : Database -> Prop) :
  (forall d m, Q d -> op (read d) = Ok m -> Q (store m d)) ->
  preserves (fun w => Q (db w)) (IndexedDBManager.write read store op).
Proof.
  intros Hop w Hw. unfold IndexedDBManager.write.
  destruct (op (read (db w))) as [m|e] eqn:E; [|exact Hw]. cbn. now apply Hop.
Qed.

Lemma wf_db_categories (d : Database) m :
  wf_db d -> keyed category_id m -> unique_on category_name m ->
  wf_db (with_categories m d).
Proof. intros (_ & _ & K2 & K3 & U3) K U. repeat split; assumption. Qed.

Lemma wf_db_mediaItems (d : Database) m :
  wf_db d -> keyed id m -> wf_db (with_mediaItems m d).
Proof. intros (K1 & U1 & _ & K3 & U3) K. repeat split; assumption. Qed.

Lemma wf_db_aiConfigs (d : Database) m :
  wf_db d -> keyed config_id m -> unique_on config_name m ->
  wf_db (with_aiConfigs m d).
Proof. intros (K1 & U1 & K2 & _ & _) K U. repeat split; assumption. Qed.

Lemma write_wf_db : write_stable (fun w => wf_db (db w)).
Proof.
  unfold write_stable.
  split; [intros r; apply write_keeps; intros d m Hd E; pose proof Hd as (K & U & _);
          apply wf_db_categories;
          [exact Hd | eapply keyed_add; eassumption | eapply unique_add; eassumption]|].
  split; [intros r; apply write_keeps; intros d m Hd E; pose proof Hd as (K & U & _);
          apply wf_db_categories;
          [exact Hd | eapply keyed_put; eassumption | eapply unique_put; eassumption]|].
  split; [intros r; apply write_keeps; intros d m Hd [= <-]; pose proof Hd as (K & U & _);
          apply wf_db_categories;
          [exact Hd | now apply keyed_remove | now apply unique_delete]|].
  split; [intros r; apply write_keeps; intros d m Hd E;
          pose proof Hd as (_ & _ & K & _);
          apply wf_db_mediaItems; [exact Hd | eapply keyed_add; eassumption]|].
  split; [intros r; apply write_keeps; intros d m Hd E;
          pose proof Hd as (_ & _ & K & _);
          apply wf_db_mediaItems; [exact Hd | eapply keyed_put; eassumption]|].
  split; [intros r; apply write_keeps; intros d m Hd [= <-];
          pose proof Hd as (_ & _ & K & _);
          apply wf_db_mediaItems; [exact Hd | now apply keyed_remove]|].
  split; [intros r; apply write_keeps; intros d m Hd E;
          pose proof Hd as (_ & _ & _ & K & U);
          apply wf_db_aiConfigs;
          [exact Hd | eapply keyed_add; eassumption | eapply unique_add; eassumption]|].
  split; [intros r; apply write_keeps; intros d m Hd E;
          pose proof Hd as (_ & _ & _ & K & U);
          apply wf_db_aiConfigs;
          [exact Hd | eapply keyed_put; eassumption | eapply unique_put; eassumption]|].
  split; [intros r; apply write_keeps; intros d m Hd [= <-];
          pose proof Hd as (_ & _ & _ & K & U);
          apply wf_db_aiConfigs;
          [exact Hd | now apply keyed_remove | now apply unique_delete]|].
  intros w _. unfold IndexedDBManager.clearAll, bind, IndexedDBManager.write. cbn.
  repeat split; first [apply keyed_empty | apply unique_empty].
Qed.

Lemma frame_same_keys (w0 : World) : frame_stable (same_keys w0).
Proof.
  unfold same_keys, stored. repeat split; cbn; intros; try tauto.
  all: match goal with E : localStorage _ = _ |- _ => rewrite E end; tauto.
Qed.

Lemma write_same_keys (w0 : World) : write_stable (same_keys w0).
Proof.
  assert (Hw : forall T read store op,
            preserves (same_keys w0) (@IndexedDBManager.write _ T read store op)).
  { intros T read store op w Hw. unfold IndexedDBManager.write.
    destruct (op (read (db w))); exact Hw. }
  unfold write_stable. repeat (split; [intros r; apply Hw|]).
  unfold IndexedDBManager.clearAll.
  repeat (apply preserves_bind; [apply Hw | intros _]). apply Hw.
Qed.

(** The key manager never touches the database. *)
Lemma key_event_db (ev : key_event) (w : World) : db (after ev w) = db w.
Proof.
  assert (Hm : forall f : World -> World, (forall w', db (f w') = db w') ->
            preserves (fun w' => db w' = db w) (modify f)).
  { intros f Hf w' Hw'. cbn. now rewrite Hf. }
  assert (Hr : forall n, preserves (fun w' => db w' = db w) (getRandomValues n))
    by (intros n w' Hw'; exact Hw').
  assert (Hb : forall t, preserves (fun w' => db w' = db w) (KeyManager.base64ToBuffer t))
    by (intros t; unfold KeyManager.base64ToBuffer; repeat keep_step).
  assert (Hi : preserves (fun w' => db w' = db w) KeyManager.initializeSalt).
  { unfold KeyManager.initializeSalt, getItem, setItem, KeyManager.set_salt.
    repeat first [keep_step | apply Hb | apply Hr | apply Hm; reflexivity]. }
  assert (Hd : forall p, preserves (fun w' => db w' = db w) (KeyManager.deriveKey p)).
  { intros p. unfold KeyManager.deriveKey, KeyManager.set_masterKey.
    repeat first [keep_step | exact Hi | apply Hm; reflexivity]. }
  destruct ev as [|p|p|p| | |key value]; cbn [after].
  - now apply Hi.
  - now apply Hd.
  - assert (Hv : preserves (fun w' => db w' = db w) (KeyManager.verifyPassword p)).
    { unfold KeyManager.verifyPassword, getItem, KeyManager.parse_test, KeyManager.decrypt.
      repeat first [keep_step | apply Hb | apply Hd]. }
    exact (Hv w eq_refl).
  - assert (Hs : preserves (fun w' => db w' = db w) (KeyManager.setupPassword p)).
    { unfold KeyManager.setupPassword, setItem.
      repeat first [keep_step | exact Hi | apply Hd | apply Hr | apply Hm; reflexivity]. }
    exact (Hs w eq_refl).
  - reflexivity.
  - reflexivity.
  - now destruct (is_setting_key key).
Qed.

Lemma saveGeneralSettings_keys a e q (w : World) :
  same_keys w (snd (SettingsManager.saveGeneralSettings a e q w))
  /\ db (snd (SettingsManager.saveGeneralSettings a e q w)) = db w.
Proof.
  unfold same_keys, stored, SettingsManager.saveGeneralSettings, setItem, bind, modify. cbn.
  rewrite !lookup_insert_ne by discriminate. repeat split.
Qed.

(** An event outside the key manager leaves the key manager, the salt and
    the verifier as they were. *)
Lemma outside_same_keys (ev : page_event) (w : World) :
  outside_key_manager ev = true -> same_keys w (after_page ev w).
Proof.
  assert (H1 : same_keys w w) by (repeat split).
  pose proof (frame_same_keys w) as F. pose proof (write_same_keys w) as W.
  pose proof W as (W1 & W2 & W3 & W4 & W5 & W6 & W7 & W8 & W9 & W10).
  destruct ev; cbn [after_page outside_key_manager]; intros Ho; try discriminate.
  - now apply W1.
  - now apply W2.
  - now apply W3.
  - now apply W4.
  - now apply W5.
  - now apply W6.
  - now apply W7.
  - now apply W8.
  - now apply W9.
  - now apply keep_saveConfig.
  - now apply keep_loadConfig.
  - now apply keep_importFiles.
  - now apply keep_deleteCategory.
  - now apply keep_saveCategory.
  - now apply keep_tagItem.
  - now apply keep_batchTag.
  - now apply keep_clearTags.
  - now apply keep_addManualTag.
  - now apply keep_removeTag.
  - now apply keep_saveAIConfig.
  - apply saveGeneralSettings_keys.
  - now apply keep_clearAllData.
Qed.

Lemma after_page_wf_db (ev : page_event) (w : World) :
  wf_db (db w) -> wf_db (db (after_page ev w)).
Proof.
  intros Hw.
  pose proof frame_wf_db as F. pose proof write_wf_db as W.
  pose proof W as (W1 & W2 & W3 & W4 & W5 & W6 & W7 & W8 & W9 & W10).
  destruct ev; cbn [after_page].
  - now rewrite key_event_db.
  - now apply W1.
  - now apply W2.
  - now apply W3.
  - now apply W4.
  - now apply W5.
  - now apply W6.
  - now apply W7.
  - now apply W8.
  - now apply W9.
  - now apply (keep_saveConfig _ F W).
  - now apply (keep_loadConfig _ F).
  - now apply (keep_importFiles _ F W).
  - now apply (keep_deleteCategory _ F W).
  - now apply (keep_saveCategory _ F W).
  - now apply (keep_tagItem _ F W).
  - now apply (keep_batchTag _ F W).
  - now apply (keep_clearTags _ W).
  - now apply (keep_addManualTag _ W).
  - now apply (keep_removeTag _ W).
  - now apply (keep_saveAIConfig _ F W).
  - destruct (saveGeneralSettings_keys autoDelete encryptFiles thumbnailQuality w)
      as [_ ->]. exact Hw.
  - now apply (keep_clearAllData _ W).
Qed.

Lemma after_page_wf_keys (ev : page_event) (w : World) :
  base64_roundtrip -> wf_keys w -> wf_keys (after_page ev w).
Proof.
  intros Hb Hw. destruct (outside_key_manager ev) eqn:Eo.
  - destruct (outside_same_keys ev w Eo) as (K & S1 & S2).
    eapply wf_keys_ext; [exact Hw | now rewrite K | exact S1 | exact S2].
  - destruct ev; try discriminate. cbn [after_page]. now apply wf_after.
Qed.

(** X8. Every state the page can reach (from a first visit with empty
    stores, by any sequence of events of the key manager and calls of the
    other methods, whatever their arguments, the answers of the user and of
    the network, and whether they return or throw) is well formed: the
    persisted salt is the base64 of sixteen bytes and is the one held; the
    verifier is a record; every record of the three stores sits under its
    own id; no two categories and no two configurations share a name. *)
Theorem page_state_wellformed (w : World) :
  base64_roundtrip -> page_reachable w -> wf_keys w /\ wf_db (db w).
Proof.
  intros Hb Hr. induction Hr as [w [Hfirst Hdb] | ev w _ [IHk IHd]].
  - split.
    + apply (reachable_wf w Hb). now apply reachable_first.
    + rewrite Hdb. unfold wf_db. cbn.
      repeat split; first [apply keyed_empty | apply unique_empty].
  - split; [now apply after_page_wf_keys | now apply after_page_wf_db].
Qed.

(** X9. Only the key manager touches the key: every other method of the
    model, whether it returns or throws, leaves the key held, the salt held,
    the persisted salt and the persisted verifier exactly as they were, so
    that [isPasswordSet], [isUnlocked] and the answer of [verifyPassword]
    to every password are as before. *)
Theorem only_key_manager_touches_keys (ev : page_event) (w : World) :
  outside_key_manager ev = true ->
  keyManager (after_page ev w) = keyManager w
  /\ stored (after_page ev w) "app_salt" = stored w "app_salt"
  /\ stored (after_page ev w) "password_test" = stored w "password_test"
  /\ KeyManager.isPasswordSet (after_page ev w) = KeyManager.isPasswordSet w
  /\ KeyManager.isUnlocked (after_page ev w) = KeyManager.isUnlocked w.
Proof.
  intros Ho. destruct (outside_same_keys ev w Ho) as (K & S1 & S2).
  split; [exact K|]. split; [exact S1|]. split; [exact S2|]. split.
  - unfold KeyManager.isPasswordSet. fold (stored (after_page ev w) "app_salt").
    fold (stored w "app_salt"). now rewrite S1.
  - unfold KeyManager.isUnlocked. now rewrite K.
Qed.

End PageInvariant.

(* --------------------------------------------------------------------- *)
(** ** Identifiers                                                         *)
(* --------------------------------------------------------------------- *)

Section UuidShape.
Context `{WebPlatform}.

Lemma hex_digit_hex v : is_hex (hex_digit v) = true.
Proof.
  destruct v as [|p]; [reflexivity|].
  do 4 (destruct p as [p|p|]; try reflexivity).
Qed.

Lemma variant_digit r : is_variant (hex_digit (N.lor (N.land r 3) 8)) = true.
Proof.
  destruct r as [|p]; [reflexivity|].
  do 2 (destruct p as [p|p|]; try reflexivity).
Qed.

Lemma uuid_from_fills tape template :
  forall pos, fills template (uuid_from tape pos template) = true.
Proof.
  induction template as [|c rest IH]; intros pos; [reflexivity|].
  cbn [uuid_from].
  destruct (Ascii.eqb c "x") eqn:Ex; [|destruct (Ascii.eqb c "y") eqn:Ey];
    cbn [fills]; rewrite ?Ex, ?Ey, ?hex_digit_hex, ?variant_digit, ?Ascii.eqb_refl;
    apply IH.
Qed.

Lemma fills_length template :
  forall u, fills template u = true -> String.length u = String.length template.
Proof.
  induction template as [|c rest IH]; intros [|d u]; cbn [fills]; try discriminate.
  - reflexivity.
  - intros E. apply andb_prop in E as [_ E]. cbn [String.length]. now rewrite (IH u E).
Qed.

Lemma next_uuid_fills (w : World) : fills uuid_template (next_uuid w) = true.
Proof. apply uuid_from_fills. Qed.

Lemma next_uuid_length (w : World) : String.length (next_uuid w) = 36%nat.
Proof.
  rewrite (fills_length uuid_template (next_uuid w) (next_uuid_fills w)). reflexivity.
Qed.

(** X10. [generateUUID] always returns a well-formed version-4 UUID in
    lower case: 36 characters, hyphens after the 8th, 12th, 16th and 20th
    digit, the digit [4] in the version position, one of [8], [9], [a], [b]
    in the variant position and hexadecimal digits elsewhere.  It uses 31
    values of [Math.random] and changes nothing else; the result is never
    ["all"] nor ["uncategorized"], the two names the page uses for
    pseudo-categories. *)
Theorem generateUUID_v4 (w : World) :
  exists u,
    generateUUID w
    = (Ok u, with_browser (with_math_pos (math_pos (browser w) + 31) (browser w)) w)
    /\ is_uuid_v4 u = true
    /\ String.length u = 36%nat
    /\ u <> "all" /\ u <> "uncategorized".
Proof.
  exists (next_uuid w). split; [apply generateUUID_eq|].
  pose proof (next_uuid_length w) as Hl.
  split; [unfold is_uuid_v4; apply next_uuid_fills|]. split; [exact Hl|].
  split; intros E; rewrite E in Hl; discriminate.
Qed.

End UuidShape.

(* --------------------------------------------------------------------- *)
(** ** More on imports                                                     *)
(* --------------------------------------------------------------------- *)

Section ImportMore.
Context `{WebPlatform}.
Import FileHandler.






Lemma processFile_locked (file : File) (c : string) (w : World) :
  masterKey (keyManager w) = None ->
  exists e,
    processFile file c w = (Throw e, w)
    /\ (unsupported file = false ->
        (exists metadata, metadata_of file = Ok metadata) ->
        (exists thumbnail, render_thumbnail (media_type_of file) file = Ok thumbnail) ->
        e = locked).
Proof.
  intros Hk. rewrite processFile_eq, Hk.
  destruct (unsupported file); [eexists; split; [reflexivity | discriminate]|].
  destruct (metadata_of file) as [metadata|e].
  2:{ eexists. split; [reflexivity|]. intros _ [m Hm]. discriminate. }
  destruct (render_thumbnail (media_type_of file) file) as [thumb|e].
  2:{ eexists. split; [reflexivity|]. intros _ _ [t Ht]. discriminate. }
  eexists. split; reflexivity.
Qed.

Lemma same_but_progress_refl (w : World) : same_but_progress w w.
Proof. repeat split. Qed.

Lemma importFiles_loop_locked (files : list File) :
  forall (i total : nat) (c : string) (cb : bool) (acc : list ImportResult) (w : World),
    masterKey (keyManager w) = None ->
    exists rs w',
      importFiles_loop i total files c cb acc w = (Ok (acc ++ rs), w')
      /\ same_but_progress w w'
      /\ Forall (fun r => success r = false) rs
      /\ Forall2 (fun file r =>
           unsupported file = false ->
           (exists metadata, metadata_of file = Ok metadata) ->
           (exists thumbnail, render_thumbnail (media_type_of file) file = Ok thumbnail) ->
           r = Failed "Application is locked. Please unlock first." (file_name file))
           files rs.
Proof.
  induction files as [|file rest IH]; intros i total c cb acc w Hk.
  - exists [], w. rewrite app_nil_r. split; [reflexivity|].
    split; [apply same_but_progress_refl|]. split; constructor.
  - rewrite importFiles_loop_cons. cbv zeta.
    set (w0 := snd ((if cb then report_progress (i + 1) total (file_name file)
                     else ret tt) w)).
    assert (H0 : same_but_progress w w0) by (subst w0; destruct cb; repeat split).
    assert (Hk0 : masterKey (keyManager w0) = None).
    { destruct H0 as (K & _). now rewrite K. }
    clearbody w0.
    destruct (processFile_locked file c w0 Hk0) as (e & -> & He). cbn [fst snd entry_of].
    destruct (IH (S i) total c cb (acc ++ [Failed (exn_message e) (file_name file)]) w0 Hk0)
      as (rs & w' & -> & H1 & Hf & Hl).
    exists (Failed (exn_message e) (file_name file) :: rs), w'.
    rewrite <- app_assoc. split; [reflexivity|]. split; [|split].
    + unfold same_but_progress in *. intuition congruence.
    + now constructor.
    + constructor; [|exact Hl]. intros Hu Hm Ht. now rewrite (He Hu Hm Ht).
Qed.

(** X12. While the key manager holds no key nothing is imported and
    nothing is saved: [importFiles] returns one failure per file and leaves
    the database, the key manager, the random source, [Math.random] and the
    clock as they were (only the progress calls are recorded); a file that
    a processor accepts and renders fails with the lock error; [processFile]
    throws without a trace, and so does [saveConfig], with the lock error. *)
Theorem import_while_locked (files : list File) (c : string) (cb : bool) (w : World) :
  KeyManager.isUnlocked w = false ->
  (exists results w',
     importFiles files c cb w = (Ok results, w')
     /\ same_but_progress w w'
     /\ length results = length files
     /\ Forall (fun r => success r = false) results
     /\ Forall2 (fun file r =>
          unsupported file = false ->
          (exists metadata, metadata_of file = Ok metadata) ->
          (exists thumbnail, render_thumbnail (media_type_of file) file = Ok thumbnail) ->
          r = Failed "Application is locked. Please unlock first." (file_name file))
          files results)
  /\ (forall file, exists e, processFile file c w = (Throw e, w))
  /\ (forall config, AIAPIClient.saveConfig config w = (Throw locked, w)).
Proof.
  intros Hl. apply isUnlocked_false in Hl. split; [|split].
  - destruct (importFiles_loop_locked files 0 (length files) c cb [] w Hl)
      as (rs & w' & E & H1 & Hf & Hl2).
    exists rs, w'. split; [exact E|]. split; [exact H1|].
    split; [symmetry; exact (Forall2_length _ _ _ Hl2)|]. split; assumption.
  - intros file. destruct (processFile_locked file c w Hl) as (e & E & _). now exists e.
  - intros config. unfold AIAPIClient.saveConfig. rewrite try_rethrow.
    erewrite bind_Throw; [reflexivity|]. now rewrite encryptString_eq, Hl.
Qed.

(** X13. What [processFile] stored can be read back: in every state that
    holds the key the import ran under, [getDecryptedBlob] returns the bytes
    of the file under the file's MIME type, [getDecryptedFile] a URL of that
    blob, and [getDecryptedThumbnail] a URL of the thumbnail the processor
    rendered, as [image/jpeg]; the state the import left is such a state. *)
Theorem import_then_decrypt (file : File) (c : string) (w w' : World) (item : MediaItem) :
  base64_roundtrip -> gcm_roundtrip ->
  processFile file c w = (Ok item, w') ->
  exists thumbnail,
    render_thumbnail (type item) file = Ok thumbnail
    /\ keyManager w' = keyManager w
    /\ forall w2, masterKey (keyManager w2) = masterKey (keyManager w) ->
         getDecryptedBlob item w2 = (Ok (mkBlob (file_bytes file) (file_type file)), w2)
         /\ getDecryptedFile item w2
            = (Ok (object_url (mkBlob (file_bytes file) (file_type file))), w2)
         /\ getDecryptedThumbnail item w2
            = (Ok (object_url (mkBlob (blob_bytes thumbnail) "image/jpeg")), w2).
Proof.
  intros Hb Hg. rewrite processFile_eq.
  destruct (unsupported file); [discriminate|].
  destruct (metadata_of file) as [metadata|e]; [|discriminate].
  destruct (render_thumbnail (media_type_of file) file) as [thumb|e] eqn:Et; [|discriminate].
  destruct (masterKey (keyManager w)) as [key|] eqn:Ek; [|discriminate].
  cbv zeta. destruct (ObjectStore.add id [] _ _) as [store|e]; [|discriminate].
  intros E. apply pair_inv in E as [Ei <-]. apply Ok_inj in Ei. subst item.
  exists thumb. split; [exact Et|]. split; [reflexivity|].
  intros w2 Hk2. unfold getDecryptedBlob, getDecryptedFile, getDecryptedThumbnail.
  rewrite !try_rethrow. unfold bind. rewrite !decryptToBlob_eq. cbn [fileData fileIv
    thumbnailData thumbnailIv mimeType].
  rewrite !base64_bytes_bufferToBase64 by exact Hb. rewrite Hk2, !Hg.
  repeat split.
Qed.

(** X14. The general settings do not reach the import: whatever
    [saveGeneralSettings] stores (the check box "encrypt files" unchecked
    included), and indeed whatever [localStorage] holds, [processFile]
    returns the same item, with the same ciphertexts, or throws the same
    exception, and leaves the same database. *)
Theorem settings_do_not_reach_import (file : File) (c : string) (w : World) :
  (forall a e q,
     let w1 := snd (SettingsManager.saveGeneralSettings a e q w) in
     fst (SettingsManager.saveGeneralSettings a e q w) = Ok tt
     /\ stored w1 "encryptFiles" = Some (if e then "true" else "false")
     /\ fst (processFile file c w1) = fst (processFile file c w)
     /\ db (snd (processFile file c w1)) = db (snd (processFile file c w)))
  /\ (forall l,
        let w1 := with_browser (with_localStorage l (browser w)) w in
        fst (processFile file c w1) = fst (processFile file c w)
        /\ db (snd (processFile file c w1)) = db (snd (processFile file c w))).
Proof.
  assert (Hl : forall l,
    let w1 := with_browser (with_localStorage l (browser w)) w in
    fst (processFile file c w1) = fst (processFile file c w)
    /\ db (snd (processFile file c w1)) = db (snd (processFile file c w))).
  { intros l w1. rewrite !processFile_eq.
    destruct (unsupported file); [now split|].
    destruct (metadata_of file); [|now split].
    destruct (render_thumbnail (media_type_of file) file); [|now split].
    change (masterKey (keyManager w1)) with (masterKey (keyManager w)).
    destruct (masterKey (keyManager w)); [|now split]. cbv zeta.
    rewrite (next_uuid_ext w1 w) by reflexivity.
    rewrite !(entropy_bytes_ext w1 w) by reflexivity.
    change (db w1) with (db w). change (browser w1) with (with_localStorage l (browser w)).
    cbn [clock clock_pos with_localStorage entropy_pos].
    destruct (ObjectStore.add id [] _ _); now split. }
  split; [|exact Hl]. intros a e q w1.
  split; [reflexivity|]. split.
  - subst w1. unfold stored, SettingsManager.saveGeneralSettings, setItem, bind, modify. cbn.
    rewrite lookup_insert_ne by (destruct e; discriminate). now rewrite lookup_insert_eq.
  - exact (Hl (localStorage (browser w1))).
Qed.

End ImportMore.

(* --------------------------------------------------------------------- *)
(** ** More on configurations                                              *)
(* --------------------------------------------------------------------- *)

Section ConfigMore.
Context `{WebPlatform} `{PageServices}.
Import AIAPIClient.

(** The record [saveConfig] builds, from the state it starts in. *)
Lemma saveConfig_saved (w w' : World) (config : ConfigInput) (saved : AIConfig) :
  saveConfig config w = (Ok saved, w') ->
  exists key,
    masterKey (keyManager w) = Some key
    /\ saved
       = mkAIConfig (saved_id config w)
           (or_default (input_name config) "Default Config")
           (input_apiUrl config)
           (KeyManager.bufferToBase64
              (subtle_encrypt (entropy_bytes w (entropy_pos (browser w)) 12) key
                 (TextEncoder_encode (input_apiKey config))))
           (KeyManager.bufferToBase64 (entropy_bytes w (entropy_pos (browser w)) 12))
           (input_model config)
           (or_default (input_defaultPrompt config) (defaultPrompt (aiClient w)))
           true
           (clock (browser w) (clock_pos (browser w)))
    /\ aiClient w'
       = mkAIClient (input_apiUrl config) (input_apiKey config) (input_model config)
           (or_default (input_defaultPrompt config) (defaultPrompt (aiClient w)))
    /\ keyManager w' = keyManager w.
Proof.
  intros Hrun. unfold saveConfig in Hrun. rewrite try_rethrow in Hrun.
  apply bind_inv in Hrun as ([enc iv] & w1 & H1 & Hrun).
  rewrite encryptString_eq in H1.
  destruct (masterKey (keyManager w)) as [key|] eqn:Ek; [|discriminate].
  cbv zeta in H1. apply pair_inv in H1 as [H1 <-]. apply Ok_inj in H1.
  apply pair_inv in H1 as [<- <-].
  set (w1 := with_browser _ w) in *.
  apply bind_inv in Hrun as (the_id & w2 & H2 & Hrun).
  assert (Hid : the_id = saved_id config w
                /\ exists b2, w2 = with_browser b2 w /\ clock b2 = clock (browser w)
                             /\ clock_pos b2 = clock_pos (browser w)).
  { unfold saved_id. destruct (truthy (input_id config)).
    - unfold ret in H2. apply pair_inv in H2 as [H2 <-]. apply Ok_inj in H2 as <-.
      split; [reflexivity|]. eexists. repeat split.
    - rewrite generateUUID_eq in H2. apply pair_inv in H2 as [H2 <-].
      apply Ok_inj in H2 as <-. split; [now apply next_uuid_ext|].
      eexists. repeat split. }
  destruct Hid as (-> & b2 & -> & Hc & Hcp). clear H2.
  apply bind_inv in Hrun as (prompt & w3 & H3 & Hrun).
  unfold gets in H3. apply pair_inv in H3 as [H3 <-]. apply Ok_inj in H3 as <-.
  apply bind_inv in Hrun as (now & w4 & H4 & Hrun).
  unfold Date_now in H4. apply pair_inv in H4 as [H4 <-]. apply Ok_inj in H4 as <-.
  apply bind_inv in Hrun as (allConfigs & w5 & H5 & Hrun).
  unfold IndexedDBManager.getAllAIConfigs, gets in H5.
  apply pair_inv in H5 as [_ <-].
  apply bind_inv in Hrun as ([] & w6 & H6 & Hrun).
  assert (K6 : keyManager w6 = keyManager w /\ aiClient w6 = aiClient w).
  { assert (Hp : preserves (fun w' => keyManager w' = keyManager w /\ aiClient w' = aiClient w)
                   (for_of allConfigs (fun oldConfig =>
                      if negb (String.eqb (config_id oldConfig) (saved_id config w))
                      then IndexedDBManager.updateAIConfig (with_isActive false oldConfig)
                      else ret tt))).
    { apply preserves_for_of. intros x. keep_step; [|apply preserves_ret].
      intros w0 Hw0. unfold IndexedDBManager.updateAIConfig, IndexedDBManager.write.
      destruct (ObjectStore.put _ _ _ _); exact Hw0. }
    match type of H6 with
    | for_of _ _ ?w0 = _ => specialize (Hp w0 (conj eq_refl eq_refl))
    end.
    now rewrite H6 in Hp. }
  apply bind_inv in Hrun as (existing & w7 & H7 & Hrun).
  unfold IndexedDBManager.getAIConfig, gets in H7. apply pair_inv in H7 as [_ <-].
  apply bind_inv in Hrun as ([] & w8 & H8 & Hrun).
  assert (K8 : keyManager w8 = keyManager w6 /\ aiClient w8 = aiClient w6).
  { destruct existing;
      unfold IndexedDBManager.updateAIConfig, IndexedDBManager.addAIConfig,
        IndexedDBManager.write in H8;
      match type of H8 with context [match ?x with _ => _ end] => destruct x end;
      try discriminate; apply pair_inv in H8 as [_ <-]; now split. }
  apply bind_inv in Hrun as ([] & w9 & H9 & Hrun).
  unfold modify in H9. apply pair_inv in H9 as [_ <-].
  unfold ret in Hrun. apply pair_inv in Hrun as [Hs <-]. apply Ok_inj in Hs as <-.
  destruct K6 as [K6 A6]. destruct K8 as [K8 A8].
  exists key. split; [reflexivity|]. split; [|split].
  - cbn [browser with_browser]. rewrite Hc, Hcp. reflexivity.
  - cbn [aiClient with_aiClient]. rewrite A8, A6. reflexivity.
  - cbn [keyManager with_aiClient]. now rewrite K8, K6.
Qed.

Lemma or_default_truthy (v d : string) :
  truthy (Some v) = true -> or_default (Some v) d = v.
Proof. cbn. now destruct (String.eqb v ""). Qed.

Lemma or_default_falsy (v d : string) :
  truthy (Some v) = false -> or_default (Some v) d = d.
Proof. cbn. now destruct (String.eqb v ""). Qed.

(** A save under a name that another record bears, written out. *)
Lemma saveConfig_clash (w : World) (config : ConfigInput) (key : CryptoKey)
    (k0 : string) (r0 : AIConfig) :
  masterKey (keyManager w) = Some key ->
  keyed config_id (aiConfigs (db w)) ->
  names_unique (aiConfigs (db w)) ->
  aiConfigs (db w) !! k0 = Some r0 ->
  k0 <> saved_id config w ->
  config_name r0 = or_default (input_name config) "Default Config" ->
  exists w',
    saveConfig config w = (Throw ObjectStore.ConstraintError, w')
    /\ (forall k a, aiConfigs (db w) !! k = Some a -> k <> saved_id config w ->
          aiConfigs (db w') !! k = Some (with_isActive false a))
    /\ aiConfigs (db w') !! saved_id config w = aiConfigs (db w) !! saved_id config w
    /\ (forall k, aiConfigs (db w) !! k = None -> aiConfigs (db w') !! k = None)
    /\ (aiConfigs (db w) !! saved_id config w = None ->
          active_configs (aiConfigs (db w')) = ∅)
    /\ aiClient w' = aiClient w
    /\ keyManager w' = keyManager w.
Proof.
  intros Hk Hkeyed Huniq Hk0 Hne0 Hname0.
  unfold saveConfig. rewrite try_rethrow.
  erewrite bind_Ok by (rewrite encryptString_eq, Hk; reflexivity).
  set (w1 := with_browser _ w).
  assert (Hid : exists b2,
            (if truthy (input_id config) then ret (or_default (input_id config) "")
             else generateUUID) w1 = (Ok (saved_id config w), with_browser b2 w)).
  { unfold saved_id. destruct (truthy (input_id config)).
    - eexists. reflexivity.
    - rewrite generateUUID_eq. rewrite (next_uuid_ext w1 w) by reflexivity.
      eexists. reflexivity. }
  destruct Hid as [b2 Hid]. erewrite bind_Ok by exact Hid.
  erewrite bind_Ok by reflexivity. erewrite bind_Ok by reflexivity.
  erewrite bind_Ok by reflexivity.
  set (w3 := with_browser _ (with_browser b2 w)).
  set (configData := mkAIConfig (saved_id config w) _ _ _ _ _ _ true _).
  assert (Hall : forall r, In r (ObjectStore.getAll (aiConfigs (db w))) ->
                   aiConfigs (db w) !! config_id r = Some r)
    by (intros r Hr; now apply (getAll_keyed config_id)).
  destruct (deactivate_loop_runs (aiConfigs (db w)) (saved_id config w)
              (ObjectStore.getAll (aiConfigs (db w))) w3 Hkeyed Huniq Hall)
    as (m4 & Eloop & Hvar); [intros k; now left|].
  destruct (deactivate_loop (aiConfigs (db w)) (saved_id config w) _ w3 _ Hall Eloop)
    as (m4' & E4 & Hin & Hout).
  assert (m4' = m4) as -> by (apply (f_equal (fun x => aiConfigs (db x))) in E4; now cbn in E4).
  clear E4. cbn [db aiConfigs w3 with_browser] in Hout.
  erewrite bind_Ok by exact Eloop.
  erewrite bind_Ok by reflexivity.
  assert (Hother : forall k a, aiConfigs (db w) !! k = Some a -> k <> saved_id config w ->
            m4 !! k = Some (with_isActive false a)).
  { intros k a Ha Hne. pose proof (Hkeyed _ _ Ha) as <-.
    apply Hin; [|exact Hne]. apply getAll_In. eauto. }
  assert (Hself : m4 !! saved_id config w = aiConfigs (db w) !! saved_id config w)
    by (apply Hout; now left).
  assert (Hnone : forall k, aiConfigs (db w) !! k = None -> m4 !! k = None).
  { intros k Hn. rewrite Hout; [exact Hn|]. right. intros r Hr Er.
    apply getAll_In in Hr as (k' & Hk'). pose proof (Hkeyed _ _ Hk') as E. congruence. }
  assert (Hclash : ObjectStore.clashes config_id [config_name] configData m4 = true).
  { apply clashes_iff. exists k0, (with_isActive false r0).
    split; [now apply Hother|]. split; [exact Hne0 | exact Hname0]. }
  assert (Hwrite :
    match ObjectStore.get (saved_id config w) m4 with
    | Some _ => IndexedDBManager.updateAIConfig configData
    | None => IndexedDBManager.addAIConfig configData
    end (with_db (with_aiConfigs m4 (db w3)) w3)
    = (Throw ObjectStore.ConstraintError, with_db (with_aiConfigs m4 (db w3)) w3)).
  { unfold ObjectStore.get.
    destruct (m4 !! saved_id config w) eqn:Eg.
    - unfold IndexedDBManager.updateAIConfig, IndexedDBManager.write, ObjectStore.put.
      cbn [aiConfigs db with_db with_aiConfigs]. now rewrite Hclash.
    - unfold IndexedDBManager.addAIConfig, IndexedDBManager.write, ObjectStore.add.
      cbn [aiConfigs db with_db with_aiConfigs config_id configData].
      subst configData. cbn [config_id]. rewrite Eg. now rewrite Hclash. }
  erewrite bind_Throw by exact Hwrite.
  eexists. split; [reflexivity|]. cbn [db aiConfigs with_db with_aiConfigs].
  split; [exact Hother|]. split; [exact Hself|]. split; [exact Hnone|].
  split; [|split; reflexivity].
  intros Hnew. apply map_eq. intros k. rewrite lookup_empty.
  apply map_lookup_filter_None. right. intros c Hc. cbn.
  destruct (decide (k = saved_id config w)) as [->|Hne].
  - rewrite Hself, Hnew in Hc. discriminate.
  - destruct (aiConfigs (db w) !! k) as [a|] eqn:Ek.
    + rewrite (Hother _ _ Ek Hne) in Hc. injection Hc as <-. discriminate.
    + rewrite (Hnone _ Ek) in Hc. discriminate.
Qed.

(** X15. When another configuration already bears the name being saved,
    [saveConfig] throws the constraint error, and it does so after its loop
    has run: every other configuration of the store is left deactivated,
    the record under the id being saved is left as it was, nothing is added,
    and the fields of the client are not updated.  So when the id is a new
    one, no configuration at all is active afterwards. *)
Theorem saveConfig_name_taken (w : World) (config : ConfigInput) (key : CryptoKey)
    (k0 : string) (r0 : AIConfig) :
  masterKey (keyManager w) = Some key ->
  keyed config_id (aiConfigs (db w)) ->
  names_unique (aiConfigs (db w)) ->
  aiConfigs (db w) !! k0 = Some r0 ->
  k0 <> saved_id config w ->
  config_name r0 = or_default (input_name config) "Default Config" ->
  exists w',
    saveConfig config w = (Throw ObjectStore.ConstraintError, w')
    /\ (forall k a, aiConfigs (db w) !! k = Some a -> k <> saved_id config w ->
          aiConfigs (db w') !! k = Some (with_isActive false a))
    /\ aiConfigs (db w') !! saved_id config w = aiConfigs (db w) !! saved_id config w
    /\ (forall k, aiConfigs (db w) !! k = None -> aiConfigs (db w') !! k = None)
    /\ (aiConfigs (db w) !! saved_id config w = None ->
          active_configs (aiConfigs (db w')) = ∅)
    /\ aiClient w' = aiClient w
    /\ keyManager w' = keyManager w.
Proof. apply saveConfig_clash. Qed.

(** X16. The API key that [saveConfig] stores can be decrypted again, but
    [loadConfig] does not bring the configuration back.  The record
    [saveConfig] returns is active and holds the given URL and model, the
    clock reading, and an encrypted API key from which [decryptString]
    recovers the key given, in every state that holds the same master key;
    the fields of the client are the ones given.  Yet in every state in
    which the index on [isActive] answers [getAll(true)] as IndexedDB does
    for a boolean key (it throws, or it finds no record), [loadConfig]
    returns and leaves the client, and everything else, as it was. *)
Theorem saveConfig_key_recoverable (w w' : World) (config : ConfigInput)
    (saved : AIConfig) :
  base64_roundtrip -> gcm_roundtrip ->
  TextDecoder_decode (TextEncoder_encode (input_apiKey config)) = input_apiKey config ->
  saveConfig config w = (Ok saved, w') ->
  config_apiUrl saved = input_apiUrl config
  /\ config_model saved = input_model config
  /\ isActive saved = true
  /\ lastTested saved = clock (browser w) (clock_pos (browser w))
  /\ aiClient w'
     = mkAIClient (input_apiUrl config) (input_apiKey config) (input_model config)
         (config_defaultPrompt saved)
  /\ (forall w2, masterKey (keyManager w2) = masterKey (keyManager w) ->
        Encryption.decryptString (apiKeyEncrypted saved) (apiKeyIv saved) w2
        = (Ok (input_apiKey config), w2))
  /\ (forall w2,
        isActive_getAll_true (aiConfigs (db w2)) = Ok []
        \/ (exists e, isActive_getAll_true (aiConfigs (db w2)) = Throw e) ->
        loadConfig w2 = (Ok tt, w2)).
Proof.
  intros Hb Hg Hutf Hrun.
  destruct (saveConfig_saved w w' config saved Hrun) as (key & Hk & -> & Ha & _).
  cbn [config_apiUrl config_model lastTested config_defaultPrompt apiKeyEncrypted apiKeyIv
       isActive].
  split; [reflexivity|]. split; [reflexivity|]. split; [reflexivity|].
  split; [reflexivity|]. split; [exact Ha|]. split.
  - intros w2 Hk2. rewrite decryptString_eq, Hk2, Hk.
    rewrite !base64_bytes_bufferToBase64 by exact Hb. now rewrite Hg, Hutf.
  - intros w2 Hix. unfold loadConfig, IndexedDBManager.getActiveAIConfig, try_catch.
    unfold bind at 1. unfold bind at 1.
    destruct Hix as [Hix | [e Hix]]; rewrite Hix; reflexivity.
Qed.

Lemma decryptString_fst (w1 w : World) e i :
  masterKey (keyManager w1) = masterKey (keyManager w) ->
  Encryption.decryptString e i w1 = (fst (Encryption.decryptString e i w), w1).
Proof. intros Hk. rewrite !decryptString_eq, Hk. reflexivity. Qed.

(** X17. [loadConfig] never throws and touches nothing but the fields of
    the client.  When the index on [isActive] throws or finds nothing, the
    client stays as it was.  When it finds a configuration, the URL and the
    model are taken from it; then, if both the encrypted key and its IV are
    non-empty, the key is decrypted: on success the API key is the
    decrypted text and the default prompt is the stored one unless that is
    empty; when the decryption throws, the loading stops there, so that the
    client has the new URL and model with its old API key and prompt.  If
    one of the two is empty, the key is left and the prompt is loaded. *)
Theorem loadConfig_cases (w : World) :
  exists w',
    loadConfig w = (Ok tt, w')
    /\ keyManager w' = keyManager w /\ browser w' = browser w
    /\ db w' = db w /\ categoryManager w' = categoryManager w
    /\ match isActive_getAll_true (aiConfigs (db w)) with
       | Ok (config :: _) =>
           apiUrl (aiClient w') = config_apiUrl config
           /\ model (aiClient w') = config_model config
           /\ (if truthy (Some (apiKeyEncrypted config)) && truthy (Some (apiKeyIv config))
               then
                 match fst (Encryption.decryptString (apiKeyEncrypted config)
                              (apiKeyIv config) w) with
                 | Ok key =>
                     apiKey (aiClient w') = key
                     /\ defaultPrompt (aiClient w')
                        = or_default (Some (config_defaultPrompt config))
                            (defaultPrompt (aiClient w))
                 | Throw _ =>
                     apiKey (aiClient w') = apiKey (aiClient w)
                     /\ defaultPrompt (aiClient w') = defaultPrompt (aiClient w)
                 end
               else
                 apiKey (aiClient w') = apiKey (aiClient w)
                 /\ defaultPrompt (aiClient w')
                    = or_default (Some (config_defaultPrompt config))
                        (defaultPrompt (aiClient w)))
       | _ => aiClient w' = aiClient w
       end.
Proof.
  unfold loadConfig, IndexedDBManager.getActiveAIConfig, try_catch.
  unfold bind at 1. unfold bind at 1.
  destruct (isActive_getAll_true (aiConfigs (db w))) as [[|config rest]|e].
  - cbn. eexists. split; [reflexivity|]. repeat split.
  - unfold ret at 1. cbv iota.
    erewrite bind_Ok by reflexivity. erewrite bind_Ok by reflexivity.
    set (w1 := with_aiClient _ (with_aiClient _ w)).
    assert (Hk1 : masterKey (keyManager w1) = masterKey (keyManager w)) by reflexivity.
    destruct (truthy (Some (apiKeyEncrypted config)) && truthy (Some (apiKeyIv config))).
    + unfold bind at 1. unfold bind at 1.
      rewrite (decryptString_fst w1 w _ _ Hk1).
      destruct (fst (Encryption.decryptString (apiKeyEncrypted config) (apiKeyIv config) w))
        as [key|e].
      * unfold modify at 1.
        destruct (truthy (Some (config_defaultPrompt config))) eqn:Ep.
        -- rewrite (or_default_truthy _ _ Ep). eexists. split; [reflexivity|].
           repeat split.
        -- rewrite (or_default_falsy _ _ Ep). eexists. split; [reflexivity|].
           repeat split.
      * eexists. split; [reflexivity|]. repeat split.
    + unfold bind at 1. unfold ret at 1.
      destruct (truthy (Some (config_defaultPrompt config))) eqn:Ep.
      * rewrite (or_default_truthy _ _ Ep). eexists. split; [reflexivity|]. repeat split.
      * rewrite (or_default_falsy _ _ Ep). eexists. split; [reflexivity|]. repeat split.
  - eexists. split; [reflexivity|]. repeat split.
Qed.

(** X18. The settings dialog can save a configuration once.  Every save of
    the dialog goes under the name "Default Config" with a new id, so that
    once a configuration of that name is stored, a further [saveAIConfig]
    with all required fields filled reports the failure, stores nothing,
    leaves the client as it was, and leaves no configuration active.
    [saveAIConfig] never throws, and with a required field blank it changes
    nothing. *)
Theorem saveAIConfig_once (w : World) (key : CryptoKey) (k0 : string) (r0 : AIConfig)
    (apiUrlInput apiKeyInput modelInput defaultPromptInput : string) :
  masterKey (keyManager w) = Some key ->
  keyed config_id (aiConfigs (db w)) ->
  names_unique (aiConfigs (db w)) ->
  aiConfigs (db w) !! k0 = Some r0 ->
  config_name r0 = "Default Config" ->
  aiConfigs (db w) !! next_uuid w = None ->
  truthy (Some (String_trim apiUrlInput)) = true ->
  truthy (Some (String_trim apiKeyInput)) = true ->
  truthy (Some (String_trim modelInput)) = true ->
  (exists w',
     SettingsManager.saveAIConfig apiUrlInput apiKeyInput modelInput defaultPromptInput w
     = (Ok (SettingsManager.mkStatus
              (String.append "保存失败: " (exn_message ObjectStore.ConstraintError))
              "error"), w')
     /\ active_configs (aiConfigs (db w')) = ∅
     /\ (forall k, aiConfigs (db w') !! k = None <-> aiConfigs (db w) !! k = None)
     /\ aiClient w' = aiClient w)
  /\ (forall w0 a b c d, exists status w',
        SettingsManager.saveAIConfig a b c d w0 = (Ok status, w'))
  /\ (forall w0 a b c d,
        truthy (Some (String_trim a)) && truthy (Some (String_trim b))
        && truthy (Some (String_trim c)) = false ->
        SettingsManager.saveAIConfig a b c d w0
        = (Ok (SettingsManager.mkStatus "请填写所有必填字段" "error"), w0)).
Proof.
  intros Hk Hkeyed Huniq Hk0 Hname Hfresh Ta Tb Tc. split; [|split].
  - unfold SettingsManager.saveAIConfig. rewrite Ta, Tb, Tc. cbn [negb orb].
    set (config := mkConfigInput _ _ _ _ _ _).
    assert (Hid : saved_id config w = next_uuid w) by reflexivity.
    assert (Hne : k0 <> saved_id config w).
    { rewrite Hid. intros ->. rewrite Hfresh in Hk0. discriminate. }
    destruct (saveConfig_clash w config key k0 r0 Hk Hkeyed Huniq Hk0 Hne Hname)
      as (w' & E & Hother & Hself & Hnone & Hact & Ha & _).
    exists w'. split; [|split; [|split]].
    + erewrite try_catch_Throw; [reflexivity|]. erewrite bind_Throw; [reflexivity|exact E].
    + apply Hact. now rewrite Hid.
    + intros k. split; [|apply Hnone]. intros Hn.
      destruct (aiConfigs (db w) !! k) as [a0|] eqn:Ek; [|reflexivity].
      destruct (decide (k = saved_id config w)) as [->|Hd].
      * rewrite Hid, Hfresh in Ek. discriminate.
      * rewrite (Hother _ _ Ek Hd) in Hn. discriminate.
    + exact Ha.
  - intros w0 a b c d. unfold SettingsManager.saveAIConfig.
    destruct (_ || _); [eexists _, _; reflexivity|].
    unfold try_catch, bind.
    destruct (saveConfig _ w0) as [[saved|e] w1]; eexists _, _; reflexivity.
  - intros w0 a b c d Hblank. unfold SettingsManager.saveAIConfig.
    destruct (truthy (Some (String_trim a))), (truthy (Some (String_trim b))),
      (truthy (Some (String_trim c))); try discriminate; reflexivity.
Qed.

End ConfigMore.

(* --------------------------------------------------------------------- *)
(** ** The settings page and the categories                                *)
(* --------------------------------------------------------------------- *)

Section SettingsFacts.
Context `{WebPlatform} `{PageServices}.

(** [clearAllData] empties the three object stores and nothing else:
    [localStorage] (the salt, the password verifier and the general
    settings), the key held by the key manager, the fields of the AI client
    and the category list held in memory are as before.  When the user
    declines nothing changes. *)
Lemma clearAllData_scope (confirmed : bool) (w : World) :
  exists w',
    SettingsManager.clearAllData confirmed w = (Ok confirmed, w')
    /\ (if confirmed
        then categories (db w') = ∅ /\ mediaItems (db w') = ∅ /\ aiConfigs (db w') = ∅
        else db w' = db w)
    /\ keyManager w' = keyManager w /\ browser w' = browser w
    /\ aiClient w' = aiClient w /\ categoryManager w' = categoryManager w.
Proof.
  destruct confirmed.
  - eexists. split; [reflexivity|]. repeat split.
  - exists w. repeat split.
Qed.

End SettingsFacts.

Section CategoryMore.
Context `{WebPlatform} `{PageServices}.
Import CategoryManager.

(** In a store with in-line keys, looking a record up by its id in the list
    of all records is looking it up in the store. *)
Lemma find_getAll (m : gmap string Category) (k : string) :
  keyed category_id m ->
  List.find (fun cat => String.eqb (category_id cat) k) (ObjectStore.getAll m) = m !! k.
Proof.
  intros Hkeyed.
  destruct (List.find _ _) as [x|] eqn:Ef.
  - apply find_some in Ef as [Hin Hk]. apply String.eqb_eq in Hk.
    apply (getAll_keyed category_id _ _ Hkeyed) in Hin. now rewrite <- Hk, Hin.
  - destruct (m !! k) as [r|] eqn:Ek; [|reflexivity].
    assert (Hin : In r (ObjectStore.getAll m)) by (apply getAll_In; eauto).
    pose proof (find_none _ _ Ef _ Hin) as Hn. cbv beta in Hn.
    rewrite (Hkeyed _ _ Ek), String.eqb_refl in Hn. discriminate.
Qed.

Lemma try_catch_unit {S} (c : JS S unit) (s : S) :
  exists s', try_catch c (fun _ => ret tt) s = (Ok tt, s').
Proof. unfold try_catch. destruct (c s) as [[[]|e] s']; eexists; reflexivity. Qed.

(** A confirmed [deleteCategory], written out. *)
Lemma deleteCategory_run (w : World) (c : string) :
  keyed id (mediaItems (db w)) ->
  exists m',
    deleteCategory true c w
    = (Ok tt,
       mkWorld (keyManager w) (browser w)
         (mkDatabase (delete c (categories (db w))) m' (aiConfigs (db w)))
         (aiClient w)
         (mkCategoryManager (ObjectStore.getAll (delete c (categories (db w))))
            (if String.eqb (activeCategory (categoryManager w)) c
             then "all" else activeCategory (categoryManager w)))).
Proof.
  intros Hkeyed.
  set (items := ObjectStore.getByIndex categoryId c (mediaItems (db w))).
  destruct (reassign_loop (mediaItems (db w)) items w) as (m' & E & _).
  { intros r Hr. apply getByIndex_In in Hr as [(k & Hk) _].
    now rewrite (Hkeyed _ _ Hk). }
  exists m'.
  unfold deleteCategory. change (negb true) with false. cbv iota.
  destruct (String.eqb (activeCategory (categoryManager w)) c) eqn:Ea;
    eapply try_catch_Ok;
    (erewrite bind_Ok by reflexivity); fold items;
    (erewrite bind_Ok by exact E);
    (erewrite bind_Ok by reflexivity);
    (erewrite bind_Ok by reflexivity);
    (erewrite bind_Ok by reflexivity);
    simpl; rewrite Ea; reflexivity.
Qed.

(** X19. After a confirmed [deleteCategory] the category manager has
    forgotten the category: its list is the list of the store,
    [getCategoryById] finds nothing under the deleted id and finds every
    other category as it was stored, and the active category is ["all"] if
    the deleted one was active and is unchanged otherwise. *)
Theorem deleteCategory_forgets (w : World) (c : string) :
  keyed id (mediaItems (db w)) ->
  keyed category_id (categories (db w)) ->
  let w' := snd (deleteCategory true c w) in
  cm_categories (categoryManager w') = ObjectStore.getAll (categories (db w'))
  /\ fst (getCategoryById c w') = Ok None
  /\ (forall k, k <> c -> fst (getCategoryById k w') = Ok (categories (db w) !! k))
  /\ fst (getActiveCategory w')
     = Ok (if String.eqb (activeCategory (categoryManager w)) c
           then "all" else activeCategory (categoryManager w)).
Proof.
  intros Hitems Hkeyed w'.
  destruct (deleteCategory_run w c Hitems) as (m' & E).
  subst w'. rewrite E. cbn [snd].
  assert (Hk' : keyed category_id (delete c (categories (db w)))).
  { intros k r Hk. apply lookup_delete_Some in Hk as [_ Hk]. exact (Hkeyed _ _ Hk). }
  split; [reflexivity|]. split; [|split].
  - unfold getCategoryById, gets. cbn [fst categoryManager cm_categories].
    rewrite (find_getAll _ _ Hk'). now rewrite lookup_delete_eq.
  - intros k Hne. unfold getCategoryById, gets. cbn [fst categoryManager cm_categories].
    rewrite (find_getAll _ _ Hk'). now rewrite lookup_delete_ne by congruence.
  - reflexivity.
Qed.

(** X20. Saving the category dialog in edit mode replaces the whole record:
    when no other category bears the trimmed name, the store holds under
    the edited id a record with the trimmed name and description, the
    colour, and [createdAt] set to the current time, whether or not a
    record was there before, and the category manager finds it.  When
    another category bears the name, the stores and the category manager
    are left as they were.  [saveCategory] never throws, and with a blank
    name it changes nothing. *)
Theorem saveCategory_edit (w : World) (nameInput descInput colorInput editId : string) :
  truthy (Some (String_trim nameInput)) = true ->
  truthy (Some editId) = true ->
  keyed category_id (categories (db w)) ->
  let saved :=
    mkCategory editId (String_trim nameInput) (String_trim descInput) colorInput
      (clock (browser w) (clock_pos (browser w))) in
  let w' := snd (saveCategory nameInput descInput colorInput (Some editId) w) in
  ((forall k r, categories (db w) !! k = Some r -> k <> editId ->
      category_name r <> String_trim nameInput) ->
   categories (db w') = <[editId := saved]> (categories (db w))
   /\ fst (getCategoryById editId w') = Ok (Some saved)
   /\ cm_categories (categoryManager w') = ObjectStore.getAll (categories (db w')))
  /\ ((exists k r, categories (db w) !! k = Some r /\ k <> editId
                   /\ category_name r = String_trim nameInput) ->
      db w' = db w /\ categoryManager w' = categoryManager w)
  /\ (forall w0 a b c e, exists w1, saveCategory a b c e w0 = (Ok tt, w1))
  /\ (forall w0 a b c e, truthy (Some (String_trim a)) = false ->
        saveCategory a b c e w0 = (Ok tt, w0)).
Proof.
  intros Tn Te Hkeyed saved w'.
  assert (Hrun : saveCategory nameInput descInput colorInput (Some editId) w
                 = try_catch
                     (let* _ := IndexedDBManager.updateCategory saved in loadCategories)
                     (fun _ => ret tt)
                     (with_browser (with_clock_pos (S (clock_pos (browser w))) (browser w)) w)).
  { unfold saveCategory. rewrite Tn, Te, (or_default_truthy _ _ Te). reflexivity. }
  split; [|split; [|split]].
  - intros Hfree.
    assert (Hc : ObjectStore.clashes category_id [category_name] saved (categories (db w))
                 = false).
    { apply clashes_false. intros k r Hk Hne. exact (Hfree k r Hk Hne). }
    assert (E : saveCategory nameInput descInput colorInput (Some editId) w
                = (Ok tt,
                   mkWorld (keyManager w)
                     (with_clock_pos (S (clock_pos (browser w))) (browser w))
                     (mkDatabase (<[editId := saved]> (categories (db w)))
                        (mediaItems (db w)) (aiConfigs (db w)))
                     (aiClient w)
                     (mkCategoryManager
                        (ObjectStore.getAll (<[editId := saved]> (categories (db w))))
                        (activeCategory (categoryManager w))))).
    { rewrite Hrun. unfold try_catch, bind, IndexedDBManager.updateCategory,
        IndexedDBManager.write, ObjectStore.put.
      cbn [db with_browser categories]. rewrite Hc. reflexivity. }
    subst w'. rewrite E. cbn [snd db categories categoryManager cm_categories].
    split; [reflexivity|]. split; [|reflexivity].
    unfold getCategoryById, gets. cbn [fst categoryManager cm_categories].
    rewrite find_getAll.
    + now rewrite lookup_insert_eq.
    + intros k r Hk. destruct (decide (k = editId)) as [->|Hne].
      * rewrite lookup_insert_eq in Hk. now injection Hk as <-.
      * rewrite lookup_insert_ne in Hk by congruence. exact (Hkeyed _ _ Hk).
  - intros (k & r & Hk & Hne & Hn).
    assert (Hc : ObjectStore.clashes category_id [category_name] saved (categories (db w))
                 = true).
    { apply clashes_iff. now exists k, r. }
    assert (E : saveCategory nameInput descInput colorInput (Some editId) w
                = (Ok tt,
                   with_browser (with_clock_pos (S (clock_pos (browser w))) (browser w)) w)).
    { rewrite Hrun. unfold try_catch, bind, IndexedDBManager.updateCategory,
        IndexedDBManager.write, ObjectStore.put.
      cbn [db with_browser categories]. rewrite Hc. reflexivity. }
    subst w'. rewrite E. split; reflexivity.
  - intros w0 a b c e. unfold saveCategory.
    destruct (negb _); [eexists; reflexivity|].
    erewrite bind_Ok by reflexivity. apply try_catch_unit.
  - intros w0 a b c e Hblank. unfold saveCategory. now rewrite Hblank.
Qed.

End CategoryMore.

Section CountFacts.
Context `{WebPlatform}.
Import CategoryManager.

(** One turn of the loop, seen through the read [counts[k] || 0]. *)
Lemma count_item_shown (counts : gmap string CountValue) (item : MediaItem) (k : string) :
  count_shown (count_item counts item) k
  = if String.eqb (categoryId item) k
    then match count_shown counts k with
         | count_number n => count_number (n + 1)
         | not_a_count => not_a_count
         end
    else count_shown counts k.
Proof.
  unfold count_item, count_shown.
  destruct (String.eqb_spec (categoryId item) k) as [->|Hne].
  - destruct (counts !! k) as [[n|]|] eqn:Ek.
    + now rewrite lookup_insert_eq.
    + now rewrite lookup_insert_eq.
    + destruct (inherited k) eqn:Ei.
      * destruct (String.eqb k "__proto__").
        -- now rewrite ?Ek, ?Ei.
        -- now rewrite lookup_insert_eq.
      * now rewrite lookup_insert_eq.
  - destruct (counts !! categoryId item) as [[n|]|] eqn:Ek.
    + now rewrite lookup_insert_ne.
    + now rewrite lookup_insert_ne.
    + destruct (inherited (categoryId item)).
      * destruct (String.eqb (categoryId item) "__proto__"); [reflexivity|].
        now rewrite lookup_insert_ne.
      * now rewrite lookup_insert_ne.
Qed.

Lemma count_fold_shown (items : list MediaItem) (counts : gmap string CountValue)
    (k : string) :
  count_shown (fold_left count_item items counts) k
  = match count_shown counts k with
    | count_number n =>
        count_number
          (n + length (List.filter (fun item => String.eqb (categoryId item) k) items))
    | not_a_count => not_a_count
    end.
Proof.
  revert counts. induction items as [|item rest IH]; intros counts.
  - cbn. destruct (count_shown counts k); [f_equal; lia | reflexivity].
  - cbn [fold_left List.filter]. rewrite IH, count_item_shown.
    destruct (String.eqb (categoryId item) k).
    + destruct (count_shown counts k); [cbn [length]; f_equal; lia | reflexivity].
    + reflexivity.
Qed.

(** X21. The count [renderCategories] shows for a category id is the number
    of media items of that category, for every id that is not the name of a
    property that objects inherit (["constructor"], ["toString"],
    ["__proto__"] and the like); for such a name what is shown is never a
    number, whatever the items. *)
Theorem calculateCategoryCounts_counts (items : list MediaItem) (k : string) :
  count_shown (calculateCategoryCounts items) k
  = if inherited k then not_a_count
    else count_number
           (length (List.filter (fun item => String.eqb (categoryId item) k) items)).
Proof.
  unfold calculateCategoryCounts. rewrite count_fold_shown.
  unfold count_shown at 1. rewrite lookup_empty.
  destruct (inherited k); reflexivity.
Qed.

End CountFacts.

(* --------------------------------------------------------------------- *)
(** ** Tags                                                                *)
(* --------------------------------------------------------------------- *)

Section TagFacts.
Context `{WebPlatform} `{PageServices}.
Import JsText TagProcessor.

Lemma same_text_eq (a b : jsstring) : same_text a b = true <-> a = b.
Proof.
  revert b. induction a as [|x a IH]; intros [|y b]; cbn; try easy.
  rewrite andb_true_iff, N.eqb_eq, IH. split; [now intros [-> ->] | now intros [= -> ->]].
Qed.

Lemma includes_In (t : jsstring) (tags : list jsstring) :
  includes t tags = true <-> In t tags.
Proof.
  unfold includes. rewrite existsb_exists. split.
  - intros (x & Hin & E). apply same_text_eq in E. now subst.
  - intros Hin. exists t. split; [exact Hin|]. now apply same_text_eq.
Qed.

(** The store of media items has no unique index: [put] never fails. *)
Lemma updateMediaItem_eq (item : MediaItem) (w : World) :
  IndexedDBManager.updateMediaItem item w
  = (Ok tt, with_db (with_mediaItems (<[id item := item]> (mediaItems (db w))) (db w)) w).
Proof. reflexivity. Qed.

Lemma with_aiTags_same (item : MediaItem) : with_aiTags (aiTags item) item = item.
Proof. now destruct item. Qed.

Lemma with_aiTags_back (tags : list jsstring) (item : MediaItem) :
  with_aiTags (aiTags item) (with_aiTags tags item) = item.
Proof. now destruct item. Qed.

Lemma filter_other (tag : jsstring) (tags : list jsstring) :
  ~ In tag tags ->
  List.filter (fun t => negb (same_text t tag)) (tags ++ [tag]) = tags.
Proof.
  intros Hn. rewrite List.filter_app. cbn [List.filter].
  assert (same_text tag tag = true) as -> by now apply same_text_eq.
  cbn [negb]. rewrite app_nil_r.
  induction tags as [|t tags IH]; [reflexivity|]. cbn [List.filter].
  destruct (same_text t tag) eqn:E.
  - apply same_text_eq in E. subst. exfalso. apply Hn. now left.
  - cbn [negb]. f_equal. apply IH. intros Hin. apply Hn. now right.
Qed.

(** X22. Manual tags form a set of trimmed, non-empty texts.
    [addManualTag] never throws; a tag that is blank after trimming, or is
    already among the tags, changes neither the item nor the store;
    otherwise the trimmed tag is appended and the item is written under its
    id.  Adding the same tag a second time changes nothing, and tags that
    were pairwise different stay so.  [removeTag] with the trimmed text then
    gives the item back as it was and stores it; called with a text that
    trimming alters, it leaves the added tag in place. *)
Theorem manual_tags (item : MediaItem) (tag : jsstring) (w : World) :
  exists item' w',
    addManualTag item tag w = (Ok item', w')
    /\ addManualTag item' tag w' = (Ok item', w')
    /\ (NoDup (aiTags item) -> NoDup (aiTags item'))
    /\ (is_empty (trim tag) = true \/ In (trim tag) (aiTags item) ->
        item' = item /\ w' = w)
    /\ (is_empty (trim tag) = false -> ~ In (trim tag) (aiTags item) ->
        aiTags item' = aiTags item ++ [trim tag]
        /\ mediaItems (db w') = <[id item := item']> (mediaItems (db w))
        /\ (exists w'',
              removeTag item' (trim tag) w' = (Ok item, w'')
              /\ mediaItems (db w'') = <[id item := item]> (mediaItems (db w)))
        /\ (trim tag <> tag ->
            exists kept w'',
              removeTag item' tag w' = (Ok kept, w'') /\ In (trim tag) (aiTags kept))).
Proof.
  unfold addManualTag.
  destruct (is_empty (trim tag)) eqn:Ee; cbn [negb andb].
  { exists item, w. rewrite ?Ee. cbn [negb andb].
    repeat split; try reflexivity; try easy. }
  destruct (includes (trim tag) (aiTags item)) eqn:Ei; cbn [negb].
  { exists item, w. rewrite ?Ee, ?Ei. cbn [negb andb].
    split; [reflexivity|]. split; [reflexivity|]. split; [easy|].
    split; [easy|]. intros _ Hn. exfalso. apply Hn. now apply includes_In. }
  assert (Hn : ~ In (trim tag) (aiTags item)).
  { intros Hin. apply includes_In in Hin. congruence. }
  eexists _, _. split; [reflexivity|].
  assert (Ei' : includes (trim tag) (aiTags item ++ [trim tag]) = true).
  { apply includes_In, in_or_app. right. now left. }
  split; [|split; [|split; [|intros _ _; split; [|split; [|split]]]]].
  - rewrite ?Ee. cbn [aiTags with_aiTags with_tagging]. rewrite Ei'. reflexivity.
  - intros Hnd. cbn [aiTags with_aiTags with_tagging].
    apply NoDup_app; split; [exact Hnd|]. split.
    + intros x Hx Hx'. apply list_elem_of_In in Hx. apply list_elem_of_In in Hx'.
      destruct Hx' as [<-|[]]. exact (Hn Hx).
    + apply NoDup_singleton.
  - intros [E|Hin]; [discriminate | contradiction].
  - reflexivity.
  - reflexivity.
  - eexists. unfold removeTag.
    replace (aiTags (with_aiTags (aiTags item ++ [trim tag]) item))
      with (aiTags item ++ [trim tag]) by reflexivity.
    rewrite (filter_other _ _ Hn), with_aiTags_back.
    split; [reflexivity|].
    cbn [db mediaItems with_db with_mediaItems id with_aiTags with_tagging].
    apply insert_insert_eq.
  - intros Hd. eexists _, _. split; [reflexivity|].
    cbn [aiTags with_aiTags with_tagging].
    apply filter_In. split; [apply in_or_app; right; now left|].
    apply negb_true_iff. apply not_true_iff_false. intros E.
    apply same_text_eq in E. contradiction.
Qed.


End TagFacts.

(* --------------------------------------------------------------------- *)
(** ** Tagging by the AI service                                           *)
(* --------------------------------------------------------------------- *)

Section TaggingFacts.
Context `{WebPlatform} `{PageServices}.
Import JsText TagExtraction AIAPIClient TagProcessor.

(** What [analyzeImage] answers, by the fields of the client and the answer
    of the network to its request. *)
Lemma analyzeImage_eq (fetch : ChatRequest -> FetchOutcome) (base64Image : string)
    (customPrompt : option string) (w : World) :
  analyzeImage fetch base64Image customPrompt w
  = (if negb (truthy (Some (apiUrl (aiClient w))))
        || negb (truthy (Some (apiKey (aiClient w))))
     then Throw (Error "AI API not configured")
     else
       Ok (match fetch (mkChatRequest
                          (String.append (apiUrl (aiClient w)) "/chat/completions")
                          (String.append "Bearer " (apiKey (aiClient w)))
                          (model (aiClient w))
                          (or_default customPrompt (defaultPrompt (aiClient w)))
                          base64Image 500) with
           | fetch_rejected e => mkAnalysis false [] "" (Some (exn_message e))
           | fetch_not_ok status statusText message =>
               mkAnalysis false [] ""
                 (Some (String.append "API Error: "
                          (String.append status
                             (String.append " - " (or_default message statusText)))))
           | fetch_ok (Throw e) => mkAnalysis false [] "" (Some (exn_message e))
           | fetch_ok (Ok content) =>
               mkAnalysis true (extractTags (code_units (or_default content "")))
                 (or_default content "") None
           end), w).
Proof.
  unfold analyzeImage, bind, gets, try_catch, throw, ret.
  destruct (negb (truthy (Some (apiUrl (aiClient w))))
            || negb (truthy (Some (apiKey (aiClient w))))); [reflexivity|].
  destruct (fetch _) as [e|status statusText message|[content|e]]; reflexivity.
Qed.

Lemma extractTags_length (response : jsstring) : (length (extractTags response) <= 10)%nat.
Proof.
  unfold extractTags, TagExtraction.extractTags, slice0. rewrite length_take. lia.
Qed.

(** X24. [analyzeImage] never changes the state.  It throws exactly when the
    client has no URL or no API key, and then sends nothing; otherwise it
    returns a result whatever the network answers.  The request goes to the
    client's URL followed by [/chat/completions], with the API key as
    bearer token, the client's model, and the custom prompt unless that is
    missing or empty.  The result is a success exactly when the response
    was [ok] and its body could be read; then the tags are those
    [extractTags] finds in the reply, at most ten, and there is no error;
    a failure has no tags, an empty reply and an error message. *)
Theorem analyzeImage_outcomes (fetch : ChatRequest -> FetchOutcome) (base64Image : string)
    (customPrompt : option string) (w : World) :
  let configured :=
    truthy (Some (apiUrl (aiClient w))) && truthy (Some (apiKey (aiClient w))) in
  let request :=
    mkChatRequest (String.append (apiUrl (aiClient w)) "/chat/completions")
      (String.append "Bearer " (apiKey (aiClient w))) (model (aiClient w))
      (or_default customPrompt (defaultPrompt (aiClient w))) base64Image 500 in
  snd (analyzeImage fetch base64Image customPrompt w) = w
  /\ (configured = false ->
      forall fetch', fst (analyzeImage fetch' base64Image customPrompt w)
                     = Throw (Error "AI API not configured"))
  /\ (configured = true ->
      exists a,
        fst (analyzeImage fetch base64Image customPrompt w) = Ok a
        /\ (an_success a = true <-> exists content, fetch request = fetch_ok (Ok content))
        /\ (an_success a = true ->
            an_tags a = extractTags (code_units (an_fullResponse a))
            /\ (length (an_tags a) <= 10)%nat /\ an_error a = None)
        /\ (an_success a = false ->
            an_tags a = [] /\ an_fullResponse a = ""
            /\ exists message, an_error a = Some message)).
Proof.
  intros configured request. split; [|split].
  - now rewrite analyzeImage_eq.
  - intros Hc fetch'. rewrite analyzeImage_eq. cbn [fst].
    rewrite <- negb_andb. fold configured. now rewrite Hc.
  - intros Hc. rewrite analyzeImage_eq. cbn [fst].
    rewrite <- negb_andb. fold configured. rewrite Hc. cbn [negb]. fold request.
    eexists. split; [reflexivity|].
    destruct (fetch request) as [e|status statusText message|[content|e]];
      cbn [an_success an_tags an_fullResponse an_error].
    + split; [split; [discriminate | intros [c Hx]; discriminate]|].
      split; [discriminate | intros _; eauto].
    + split; [split; [discriminate | intros [c Hx]; discriminate]|].
      split; [discriminate | intros _; eauto].
    + split; [split; [eauto | reflexivity]|].
      split; [intros _ | discriminate].
      split; [reflexivity|]. split; [apply extractTags_length | reflexivity].
    + split; [split; [discriminate | intros [c Hx]; discriminate]|].
      split; [discriminate | intros _; eauto].
Qed.

Lemma getDecryptedBlob_eq (item : MediaItem) (w : World) :
  FileHandler.getDecryptedBlob item w
  = (fst (Encryption.decryptToBlob (fileData item) (fileIv item) (mimeType item) w), w).
Proof.
  unfold FileHandler.getDecryptedBlob, try_catch, bind. rewrite decryptToBlob_eq.
  cbn [fst].
  destruct (base64_bytes (fileIv item)) as [ib|]; [|reflexivity].
  destruct (masterKey (keyManager w)) as [key|]; [|reflexivity].
  destruct (subtle_decrypt ib key (fileData item)); reflexivity.
Qed.

Lemma decryptToBlob_unlocked (w : World) data i mime blob :
  fst (Encryption.decryptToBlob data i mime w) = Ok blob -> KeyManager.isUnlocked w = true.
Proof.
  rewrite decryptToBlob_eq. cbn [fst]. unfold KeyManager.isUnlocked.
  destruct (base64_bytes i); [|discriminate].
  destruct (masterKey (keyManager w)); [reflexivity | discriminate].
Qed.

(** The two ways [tagItem] ends. *)
Lemma tagItem_cases (fetch : ChatRequest -> FetchOutcome) (item : MediaItem)
    (customPrompt : option string) (w : World) :
  exists r w',
    tagItem fetch item customPrompt w = (Ok r, w')
    /\ match r with
       | NotTagged item' _ => item' = item /\ w' = w
       | Tagged item' tags =>
           exists response,
             item' = with_tagging tags
                       (or_default customPrompt (defaultPrompt (aiClient w)))
                       (model (aiClient w)) (Some response)
                       (Some (clock (browser w) (clock_pos (browser w)))) item
             /\ tags = extractTags (code_units response)
             /\ mediaItems (db w') = <[id item := item']> (mediaItems (db w))
             /\ KeyManager.isUnlocked w = true
             /\ truthy (Some (apiUrl (aiClient w))) && truthy (Some (apiKey (aiClient w)))
                = true
             /\ categories (db w') = categories (db w)
             /\ aiConfigs (db w') = aiConfigs (db w)
             /\ aiClient w' = aiClient w /\ keyManager w' = keyManager w
       end.
Proof.
  unfold tagItem. unfold try_catch at 1. unfold bind at 1. rewrite getDecryptedBlob_eq.
  destruct (fst (Encryption.decryptToBlob _ _ _ w)) as [blob|e] eqn:Eb;
    [|eexists _, _; split; [reflexivity | split; reflexivity]].
  apply decryptToBlob_unlocked in Eb.
  unfold bind at 1. unfold lift_result at 1.
  destruct (match type item with image => toBase64ForAI blob
                               | video => extractFrameForAI blob end) as [img|e];
    [|eexists _, _; split; [reflexivity | split; reflexivity]].
  unfold bind at 1. rewrite analyzeImage_eq. rewrite <- negb_andb.
  destruct (truthy (Some (apiUrl (aiClient w))) && truthy (Some (apiKey (aiClient w))));
    cbn [negb]; [|eexists _, _; split; [reflexivity | split; reflexivity]].
  destruct (fetch _) as [e|status statusText message|[content|e]];
    cbn [an_success negb];
    try (eexists _, _; split; [reflexivity | split; reflexivity]).
  eexists _, _. split; [reflexivity|].
  exists (or_default content "").
  cbn [an_tags an_fullResponse].
  repeat split; try reflexivity. exact Eb.
Qed.

(** X25. [tagItem] never throws.  When it reports a failure (the key
    manager is locked, the file does not decrypt, no frame can be made, the
    client is not configured, or the analysis failed) the item it reports
    is the one it was given and nothing has changed.  When it reports a
    success, the key manager is unlocked and the client configured; the
    item reported is the given one with the tags [extractTags] found in the
    reply (at most ten), the prompt used, the client's model, the reply and
    the current time, every other field as it was; that item is written
    under its id, and nothing else is written. *)
Theorem tagItem_outcomes (fetch : ChatRequest -> FetchOutcome) (item : MediaItem)
    (customPrompt : option string) (w : World) :
  exists r w',
    tagItem fetch item customPrompt w = (Ok r, w')
    /\ match r with
       | NotTagged item' _ => item' = item /\ w' = w
       | Tagged item' tags =>
           exists response,
             item' = mkMediaItem (id item) (categoryId item) (type item) (fileName item)
                       (fileSize item) (width item) (height item) (duration item)
                       (thumbnailData item) (thumbnailIv item) (fileData item)
                       (fileIv item) (mimeType item)
                       tags
                       (or_default customPrompt (defaultPrompt (aiClient w)))
                       (model (aiClient w))
                       (Some response)
                       (createdAt item)
                       (Some (clock (browser w) (clock_pos (browser w))))
                       (deletedOriginal item)
             /\ tags = extractTags (code_units response)
             /\ (length tags <= 10)%nat
             /\ mediaItems (db w') = <[id item := item']> (mediaItems (db w))
             /\ KeyManager.isUnlocked w = true
             /\ truthy (Some (apiUrl (aiClient w))) && truthy (Some (apiKey (aiClient w)))
                = true
             /\ categories (db w') = categories (db w)
             /\ aiConfigs (db w') = aiConfigs (db w)
             /\ aiClient w' = aiClient w /\ keyManager w' = keyManager w
       end.
Proof.
  destruct (tagItem_cases fetch item customPrompt w) as (r & w' & E & Hr).
  exists r, w'. split; [exact E|]. destruct r as [item' tags|item' error]; [|exact Hr].
  destruct Hr as (response & Hi & Ht & Hrest). exists response.
  split; [exact Hi|]. split; [exact Ht|]. split; [|exact Hrest].
  rewrite Ht. apply extractTags_length.
Qed.

Lemma tagItem_id (r : TagResult) (item : MediaItem) (customPrompt : option string)
    (w w' : World) fetch :
  tagItem fetch item customPrompt w = (Ok r, w') -> id (tag_item r) = id item.
Proof.
  intros E. destruct (tagItem_cases fetch item customPrompt w) as (r' & w1 & E' & Hr).
  rewrite E in E'. apply pair_inv in E' as [Er _]. apply Ok_inj in Er. subst r'.
  destruct r as [item' tags|item' error]; cbn [tag_item].
  - destruct Hr as (response & -> & _). reflexivity.
  - destruct Hr as [-> _]. reflexivity.
Qed.

(** The loop of [batchTag] pushes one result per item, in order, and counts
    each result once. *)
Lemma batchTag_loop_report fetches (items : list MediaItem) :
  forall i total cb prompt results s f w,
  exists new w',
    batchTag_loop fetches i total items cb prompt results s f w
    = (Ok (mkBatchReport (s + length (List.filter tag_success new))
             (f + length (List.filter (fun r => negb (tag_success r)) new))
             (results ++ new)), w')
    /\ List.map (fun r => id (tag_item r)) new = List.map id items
    /\ Forall (fun r => tag_success r = false -> In (tag_item r) items) new.
Proof.
  induction items as [|item rest IH]; intros i total cb prompt results s f w.
  - exists [], w. cbn. rewrite !Nat.add_0_r, app_nil_r. repeat split. constructor.
  - cbn [batchTag_loop].
    assert (Hp : exists w0,
              (if cb then FileHandler.report_progress (i + 1) total (fileName item)
               else ret tt) w = (Ok tt, w0)).
    { destruct cb; eexists; reflexivity. }
    destruct Hp as [w0 Hp]. erewrite bind_Ok by exact Hp.
    destruct (tagItem_cases (fetches i) item prompt w0) as (r & w1 & E & Hr).
    erewrite bind_Ok by exact E.
    pose proof (tagItem_id _ _ _ _ _ _ E) as Hid.
    assert (Hfail : tag_success r = false -> tag_item r = item).
    { destruct r; cbn; [discriminate|]. now destruct Hr as [-> _]. }
    destruct (tag_success r) eqn:Es.
    + destruct (IH (S i) total cb prompt (results ++ [r]) (S s) f w1)
        as (new & w' & E' & Hids & Hin).
      exists (r :: new), w'. split; [|split].
      * rewrite E'. cbn [List.filter]. rewrite Es. cbn [negb length].
        rewrite <- app_assoc. cbn [app]. do 3 f_equal. lia.
      * cbn [List.map]. now rewrite Hid, Hids.
      * constructor; [intros Hx; congruence|].
        eapply Forall_impl; [exact Hin|]. cbv beta. intros a Ha Hs. right. now apply Ha.
    + destruct (IH (S i) total cb prompt (results ++ [r]) s (S f) w1)
        as (new & w' & E' & Hids & Hin).
      exists (r :: new), w'. split; [|split].
      * rewrite E'. cbn [List.filter]. rewrite Es. cbn [negb length].
        rewrite <- app_assoc. cbn [app]. do 3 f_equal. lia.
      * cbn [List.map]. now rewrite Hid, Hids.
      * constructor; [intros _; left; symmetry; now apply Hfail|].
        eapply Forall_impl; [exact Hin|]. cbv beta. intros a Ha Hs. right. now apply Ha.
Qed.

Lemma filter_split_length {A} (p : A -> bool) (l : list A) :
  (length (List.filter p l) + length (List.filter (fun x => negb (p x)) l) = length l)%nat.
Proof.
  induction l as [|x l IH]; [reflexivity|]. cbn [List.filter].
  destruct (p x); cbn [negb length]; lia.
Qed.

(** X26. [batchTag] never throws and reports every item once: the results
    are as many as the items and in their order (result [i] is about the
    item of id [mediaItems[i].id]), [success] counts the successful
    results, [failed] the others, and the two add up to the number of
    items.  A failed result carries one of the items given.  [retryFailed],
    given these results, tags exactly the items that failed: its counts
    add up to [failed], and its results are about those items in order. *)
Theorem batchTag_report fetches fetches' (mediaItems : list MediaItem) (progressCallback : bool)
    (customPrompt : option string) (w : World) :
  exists report w',
    batchTag fetches mediaItems progressCallback customPrompt w = (Ok report, w')
    /\ List.map (fun r => id (tag_item r)) (batch_results report) = List.map id mediaItems
    /\ length (batch_results report) = length mediaItems
    /\ batch_success report = length (List.filter tag_success (batch_results report))
    /\ (batch_success report + batch_failed report = length mediaItems)%nat
    /\ Forall (fun r => tag_success r = false -> In (tag_item r) mediaItems)
         (batch_results report)
    /\ exists retried w'',
         retryFailed fetches' (batch_results report) progressCallback customPrompt w'
         = (Ok retried, w'')
         /\ (batch_success retried + batch_failed retried = batch_failed report)%nat
         /\ List.map (fun r => id (tag_item r)) (batch_results retried)
            = List.map (fun r => id (tag_item r))
                (List.filter (fun r => negb (tag_success r)) (batch_results report)).
Proof.
  unfold batchTag.
  destruct (batchTag_loop_report fetches mediaItems 0 (length mediaItems) progressCallback
              customPrompt [] 0 0 w) as (new & w' & E & Hids & Hin).
  eexists _, w'. split; [exact E|]. cbn [batch_results batch_success batch_failed app Nat.add].
  assert (Hlen : length new = length mediaItems).
  { rewrite <- (length_map (fun r => id (tag_item r)) new), Hids. apply length_map. }
  split; [exact Hids|]. split; [exact Hlen|]. split; [reflexivity|].
  split; [rewrite filter_split_length; exact Hlen|]. split; [exact Hin|].
  unfold retryFailed, batchTag.
  set (again := List.map tag_item (List.filter (fun r => negb (tag_success r)) new)).
  destruct (batchTag_loop_report fetches' again 0 (length again) progressCallback
              customPrompt [] 0 0 w') as (new' & w'' & E' & Hids' & _).
  eexists _, w''. split; [exact E'|].
  cbn [batch_results batch_success batch_failed app Nat.add].
  split.
  - rewrite filter_split_length.
    rewrite <- (length_map (fun r => id (tag_item r)) new'), Hids'.
    subst again. now rewrite !length_map.
  - rewrite Hids'. subst again. now rewrite map_map.
Qed.

End TaggingFacts.

(* --------------------------------------------------------------------- *)
(** ** The validators                                                      *)
(* --------------------------------------------------------------------- *)

Section RegExpFacts.
Import JsText RegExp.

Lemma nullable_lang (r : regex) : nullable r = true <-> lang r [].
Proof.
  split.
  - induction r as [| |p|r1 IH1 r2 IH2|r1 IH1 r2 IH2|r IH]; cbn; intros Hn;
      try discriminate.
    + constructor.
    + apply andb_prop in Hn as [H1 H2].
      change (@nil code_unit) with (@nil code_unit ++ []). constructor; auto.
    + apply orb_prop in Hn as [Hn|Hn]; [apply lang_alt_l | apply lang_alt_r]; auto.
    + constructor.
  - intros Hl. remember [] as s eqn:Es.
    induction Hl as [|p c Hp|r1 r2 s1 s2 H1 IH1 H2 IH2|r1 r2 s H1 IH1|r1 r2 s H2 IH2
                    |r|r s1 s2 H1 IH1 H2 IH2]; cbn; try reflexivity; try discriminate.
    + apply app_eq_nil in Es as [-> ->].
      now rewrite IH1, IH2.
    + now rewrite IH1.
    + rewrite IH2 by assumption. apply orb_true_r.
Qed.

Lemma star_cons_inv (r : regex) (c : code_unit) (s : jsstring) :
  lang (re_star r) (c :: s) ->
  exists s1 s2, s = s1 ++ s2 /\ lang r (c :: s1) /\ lang (re_star r) s2.
Proof.
  intros Hl. remember (re_star r) as r' eqn:Er. remember (c :: s) as t eqn:Et.
  revert s Et.
  induction Hl as [|p c' Hp|r1 r2 s1 s2 H1 IH1 H2 IH2|r1 r2 s' H1 IH1|r1 r2 s' H2 IH2
                  |r0|r0 s1 s2 H1 IH1 H2 IH2]; intros s Et; try discriminate.
  injection Er as ->.
  destruct s1 as [|x s1].
  - cbn in Et. exact (IH2 eq_refl s Et).
  - cbn in Et. injection Et as -> <-. now exists s1, s2.
Qed.

Lemma lang_seq_inv (r1 r2 : regex) (s : jsstring) :
  lang (re_seq r1 r2) s -> exists s1 s2, s = s1 ++ s2 /\ lang r1 s1 /\ lang r2 s2.
Proof. intros Hl. inversion Hl; subst. eauto. Qed.

Lemma lang_alt_inv (r1 r2 : regex) (s : jsstring) :
  lang (re_alt r1 r2) s -> lang r1 s \/ lang r2 s.
Proof. intros Hl. inversion Hl; subst; auto. Qed.

Lemma derive_lang (r : regex) :
  forall c s, lang (derive c r) s <-> lang r (c :: s).
Proof.
  induction r as [| |p|r1 IH1 r2 IH2|r1 IH1 r2 IH2|r IH]; intros c s; cbn [derive].
  - split; intros Hl; inversion Hl.
  - split; intros Hl; inversion Hl.
  - destruct (p c) eqn:Ep; split; intros Hl.
    + inversion Hl; subst. now constructor.
    + inversion Hl; subst. constructor.
    + inversion Hl.
    + inversion Hl; subst. congruence.
  - assert (Hseq : lang (re_seq (derive c r1) r2) s -> lang (re_seq r1 r2) (c :: s)).
    { intros Hl. apply lang_seq_inv in Hl as (s1 & s2 & -> & H1 & H2).
      apply IH1 in H1. change (c :: s1 ++ s2) with ((c :: s1) ++ s2). now constructor. }
    destruct (nullable r1) eqn:En; split; intros Hl.
    + apply lang_alt_inv in Hl as [Hl|Hl].
      * now apply Hseq.
      * apply IH2 in Hl. apply nullable_lang in En.
        change (c :: s) with ([] ++ c :: s). now constructor.
    + apply lang_seq_inv in Hl as (s1 & s2 & Es & H1 & H2).
      destruct s1 as [|x s1]; cbn in Es.
      * subst s2. apply lang_alt_r. now apply IH2.
      * injection Es as <- ->. apply lang_alt_l. constructor; [now apply IH1 | exact H2].
    + now apply Hseq.
    + apply lang_seq_inv in Hl as (s1 & s2 & Es & H1 & H2).
      destruct s1 as [|x s1]; cbn in Es.
      * apply nullable_lang in H1. congruence.
      * injection Es as <- ->. constructor; [now apply IH1 | exact H2].
  - split; intros Hl; apply lang_alt_inv in Hl as [Hl|Hl].
    + apply lang_alt_l. now apply IH1.
    + apply lang_alt_r. now apply IH2.
    + apply lang_alt_l. now apply IH1.
    + apply lang_alt_r. now apply IH2.
  - split; intros Hl.
    + apply lang_seq_inv in Hl as (s1 & s2 & -> & H1 & H2).
      apply IH in H1. change (c :: s1 ++ s2) with ((c :: s1) ++ s2). now constructor.
    + apply star_cons_inv in Hl as (s1 & s2 & -> & H1 & H2).
      constructor; [now apply IH | exact H2].
Qed.

(** Matching by derivatives decides membership. *)
Lemma matches_lang (r : regex) (s : jsstring) : matches r s = true <-> lang r s.
Proof.
  unfold matches. revert r. induction s as [|c s IH]; intros r; cbn [fold_left].
  - apply nullable_lang.
  - rewrite IH. apply derive_lang.
Qed.

Lemma lang_class_inv (p : code_unit -> bool) (s : jsstring) :
  lang (re_class p) s <-> exists c, s = [c] /\ p c = true.
Proof.
  split.
  - intros Hl. inversion Hl; subst. eauto.
  - intros (c & -> & Hp). now constructor.
Qed.

Lemma lang_star_class (p : code_unit -> bool) (s : jsstring) :
  lang (re_star (re_class p)) s <-> Forall (fun c => p c = true) s.
Proof.
  split.
  - intros Hl. remember (re_star (re_class p)) as r eqn:Er.
    induction Hl as [|p' c Hp|r1 r2 s1 s2 H1 IH1 H2 IH2|r1 r2 s' H1 IH1|r1 r2 s' H2 IH2
                    |r0|r0 s1 s2 H1 IH1 H2 IH2]; try discriminate.
    + constructor.
    + injection Er as ->. apply lang_class_inv in H1 as (c & -> & Hp).
      constructor; [exact Hp | now apply IH2].
  - induction 1 as [|c s Hc _ IH]; [constructor|].
    change (c :: s) with ([c] ++ s). constructor; [now constructor | exact IH].
Qed.

Lemma lang_plus_class (p : code_unit -> bool) (s : jsstring) :
  lang (re_plus (re_class p)) s <-> s <> [] /\ Forall (fun c => p c = true) s.
Proof.
  unfold re_plus. split.
  - intros Hl. apply lang_seq_inv in Hl as (s1 & s2 & -> & H1 & H2).
    apply lang_class_inv in H1 as (c & -> & Hp). apply lang_star_class in H2.
    split; [discriminate | now constructor].
  - intros [Hne Hall]. destruct s as [|c s]; [contradiction|].
    apply Forall_cons in Hall as [Hc Hall].
    change (c :: s) with ([c] ++ s).
    constructor; [now constructor | now apply lang_star_class].
Qed.

End RegExpFacts.

Section ValidatorFacts.
Import JsText RegExp Validators.

(** X27. [isValidEmail] accepts exactly the texts of the form
    [local@domain.tld] in which the three parts are non-empty and hold
    neither white space nor [@]: so an accepted address has exactly one
    [@], no white space, and after the [@] a full stop that is neither the
    first nor the last character there. *)
Theorem isValidEmail_shape (email : jsstring) :
  isValidEmail email = true
  <-> exists local domain tld,
        email = local ++ [64%N] ++ domain ++ [46%N] ++ tld
        /\ local <> [] /\ domain <> [] /\ tld <> []
        /\ Forall (fun c => is_space c = false /\ c <> 64%N) (local ++ domain ++ tld).
Proof.
  assert (Hunit : forall s, Forall (fun c => is_address_unit c = true) s
                            <-> Forall (fun c => is_space c = false /\ c <> 64%N) s).
  { intros s. apply Forall_iff. intros c. unfold is_address_unit.
    rewrite negb_true_iff, orb_false_iff, N.eqb_neq. reflexivity. }
  unfold isValidEmail. rewrite matches_lang. unfold email_re. split.
  - intros Hl.
    apply lang_seq_inv in Hl as (local & s1 & -> & Hlocal & Hl).
    apply lang_seq_inv in Hl as (at_ & s2 & -> & Hat & Hl).
    apply lang_seq_inv in Hl as (domain & s3 & -> & Hdomain & Hl).
    apply lang_seq_inv in Hl as (dot & tld & -> & Hdot & Htld).
    apply lang_class_inv in Hat as (c & -> & Hc). apply N.eqb_eq in Hc. subst c.
    apply lang_class_inv in Hdot as (c & -> & Hc). apply N.eqb_eq in Hc. subst c.
    apply lang_plus_class in Hlocal as [Nl Fl].
    apply lang_plus_class in Hdomain as [Nd Fd].
    apply lang_plus_class in Htld as [Nt Ft].
    exists local, domain, tld. repeat split; try assumption.
    apply Hunit. rewrite !Forall_app. auto.
  - intros (local & domain & tld & -> & Nl & Nd & Nt & Hall).
    apply Hunit in Hall. rewrite !Forall_app in Hall. destruct Hall as (Fl & Fd & Ft).
    constructor; [now apply lang_plus_class|].
    constructor; [constructor; reflexivity|].
    constructor; [now apply lang_plus_class|].
    constructor; [constructor; reflexivity|].
    now apply lang_plus_class.
Qed.

Lemma some_class (password : jsstring) :
  password <> [] ->
  existsb is_lower password || existsb is_upper password
  || existsb is_digit password || existsb is_other password = true.
Proof.
  destruct password as [|c rest]; [contradiction|]. intros _. cbn [existsb].
  unfold is_other. destruct (is_lower c), (is_upper c), (is_digit c); cbn [orb negb];
    rewrite ?orb_true_r; reflexivity.
Qed.

(** X28. [validatePassword] accepts exactly the passwords of at least eight
    code units; a rejected one has strength 0.  An accepted password has a
    strength between 1 and 5, and the message goes with it: weak for 1,
    medium for 2, strong from 3 on.  Length alone can make a password
    strong: from sixteen code units on every password is reported strong,
    and from twelve on none is reported weak, whatever its characters. *)
Theorem validatePassword_strength (password : jsstring) :
  let report := validatePassword password in
  (pw_valid report = true <-> (8 <= length password)%nat)
  /\ (pw_valid report = false ->
      pw_strength report = 0%nat /\ pw_message report = "密码至少需要8个字符")
  /\ (pw_valid report = true ->
      (1 <= pw_strength report <= 5)%nat
      /\ (pw_message report = "弱密码" <-> pw_strength report = 1%nat)
      /\ (pw_message report = "中等密码" <-> pw_strength report = 2%nat)
      /\ (pw_message report = "强密码" <-> (3 <= pw_strength report)%nat)
      /\ ((12 <= length password)%nat -> (2 <= pw_strength report)%nat)
      /\ ((16 <= length password)%nat -> (3 <= pw_strength report)%nat)).
Proof.
  unfold validatePassword.
  destruct password as [|c rest] eqn:Ep.
  { cbn. repeat split; try discriminate; try lia. }
  rewrite <- Ep. assert (Hne : password <> []) by (subst; discriminate).
  assert (is_empty password = false) as -> by (subst; reflexivity).
  cbn [orb]. clear Ep c rest.
  destruct (Nat.ltb_spec (length password) 8) as [Hlt|Hge].
  { cbn. repeat split; try discriminate; try lia. }
  pose proof (some_class password Hne) as Hc.
  destruct (Nat.leb_spec 12 (length password)) as [H12|H12];
    destruct (Nat.leb_spec 16 (length password)) as [H16|H16]; try lia;
    destruct (existsb is_lower password), (existsb is_upper password),
      (existsb is_digit password), (existsb is_other password);
    try discriminate Hc; cbn;
    (split; [split; [lia | reflexivity]|]);
    (split; [discriminate|]); intros _;
    repeat split; try lia; try discriminate; try reflexivity.
Qed.




(** The image of one code unit under [escapeHtml]. *)
Lemma entity_cases (c : code_unit) :
  (c = 38%N /\ escapeHtml [c] = [38; 97; 109; 112; 59]%N)
  \/ (c = 60%N /\ escapeHtml [c] = [38; 108; 116; 59]%N)
  \/ (c = 62%N /\ escapeHtml [c] = [38; 103; 116; 59]%N)
  \/ (c = 34%N /\ escapeHtml [c] = [38; 113; 117; 111; 116; 59]%N)
  \/ (c = 39%N /\ escapeHtml [c] = [38; 35; 48; 51; 57; 59]%N)
  \/ (escapeHtml [c] = [c]
      /\ c <> 38%N /\ c <> 60%N /\ c <> 62%N /\ c <> 34%N /\ c <> 39%N).
Proof.
  unfold escapeHtml, html_entity. cbn [flat_map]. rewrite app_nil_r.
  destruct (N.eqb_spec c 38); [left; now subst|].
  destruct (N.eqb_spec c 60); [right; left; now subst|].
  destruct (N.eqb_spec c 62); [right; right; left; now subst|].
  destruct (N.eqb_spec c 34); [right; right; right; left; now subst|].
  destruct (N.eqb_spec c 39); [right; right; right; right; left; now subst|].
  right; right; right; right; right. repeat split; assumption.
Qed.

Lemma escapeHtml_cons (c : code_unit) (text : jsstring) :
  escapeHtml (c :: text) = escapeHtml [c] ++ escapeHtml text.
Proof. unfold escapeHtml. cbn [flat_map]. now rewrite app_nil_r. Qed.

Lemma entity_head (x y : code_unit) (u v : jsstring) :
  escapeHtml [x] ++ u = escapeHtml [y] ++ v -> x = y /\ u = v.
Proof.
  destruct (entity_cases x) as [[-> ->]|[[-> ->]|[[-> ->]|[[-> ->]|[[-> ->]|[-> Hx]]]]]];
    destruct (entity_cases y) as [[-> ->]|[[-> ->]|[[-> ->]|[[-> ->]|[[-> ->]|[-> Hy]]]]]];
    cbn [app]; intros E;
    try discriminate E;
    try (injection E; intros; exfalso; lia);
    try (injection E; intros; subst; split; reflexivity).
Qed.

Lemma entity_nonempty (x : code_unit) (u : jsstring) : escapeHtml [x] ++ u <> [].
Proof.
  destruct (entity_cases x) as [[-> ->]|[[-> ->]|[[-> ->]|[[-> ->]|[[-> ->]|[-> Hx]]]]]];
    discriminate.
Qed.

(** X30. [escapeHtml] leaves no angle bracket, no double quote and no
    apostrophe in its result, and it loses nothing: two texts with the same
    escaped form are the same text.  A text without the five characters of
    the table is returned as it is, and no text gets shorter. *)
Theorem escapeHtml_safe (text : jsstring) :
  Forall (fun c => c <> 60%N /\ c <> 62%N /\ c <> 34%N /\ c <> 39%N) (escapeHtml text)
  /\ (forall other, escapeHtml other = escapeHtml text -> other = text)
  /\ (Forall (fun c => html_entity c = None) text -> escapeHtml text = text)
  /\ (length text <= length (escapeHtml text))%nat.
Proof.
  split; [|split; [|split]].
  - induction text as [|c text IH]; [constructor|].
    rewrite escapeHtml_cons. apply Forall_app. split; [|exact IH].
    destruct (entity_cases c) as [[-> ->]|[[-> ->]|[[-> ->]|[[-> ->]|[[-> ->]|[-> Hc]]]]]];
      repeat constructor; try lia; try tauto.
  - induction text as [|c text IH]; intros other E.
    + destruct other as [|x other]; [reflexivity|]. rewrite escapeHtml_cons in E.
      now apply entity_nonempty in E.
    + destruct other as [|x other].
      * rewrite escapeHtml_cons in E. symmetry in E. now apply entity_nonempty in E.
      * rewrite (escapeHtml_cons x other), (escapeHtml_cons c text) in E.
        apply entity_head in E as [-> E].
        f_equal. now apply IH.
  - induction 1 as [|c text Hc _ IH]; [reflexivity|].
    rewrite escapeHtml_cons, IH. unfold escapeHtml. cbn [flat_map]. now rewrite Hc.
  - induction text as [|c text IH]; [reflexivity|].
    rewrite escapeHtml_cons, length_app. cbn [length].
    destruct (entity_cases c) as [[-> ->]|[[-> ->]|[[-> ->]|[[-> ->]|[[-> ->]|[-> Hc]]]]]];
      cbn [length]; lia.
Qed.

End ValidatorFacts.

(* --------------------------------------------------------------------- *)
(** ** The concrete platform meets the assumptions                         *)
(* --------------------------------------------------------------------- *)

Module ToyFacts.
Import Toy.

Lemma base64_roundtrip_holds : base64_roundtrip.
Proof. intros binary. reflexivity. Qed.

Lemma base64_nonempty_holds : base64_nonempty.
Proof. intros binary E. exact E. Qed.


Lemma json_nonempty_holds : json_nonempty.
Proof. intros [|c rest] iv; discriminate. Qed.

Lemma strip_prefix_app p l : strip_prefix p (p ++ l) = Some l.
Proof.
  induction p as [|a p IH]; simpl; [reflexivity|].
  now rewrite (@Byte.byte_dec_lb a a eq_refl).
Qed.

Lemma gcm_roundtrip_holds : gcm_roundtrip.
Proof.
  intros iv key data. simpl. unfold decrypt, encrypt.
  rewrite (app_assoc iv (frame key) data). apply strip_prefix_app.
Qed.

Lemma strip_prefix_app_l p q l : strip_prefix (p ++ q) (p ++ l) = strip_prefix q l.
Proof.
  induction p as [|a p IH]; simpl; [reflexivity|].
  now rewrite (@Byte.byte_dec_lb a a eq_refl).
Qed.

Lemma frame_prefix key' key data :
  strip_prefix (frame key') (frame key ++ data) <> None -> key' = key.
Proof.
  revert key. induction key' as [|b' rest' IH]; intros [|b rest]; simpl.
  - reflexivity.
  - intros Hn. now contradiction Hn.
  - intros Hn. now contradiction Hn.
  - destruct (Byte.eqb b' b) eqn:Eb; [|intros Hn; now contradiction Hn].
    apply Byte.byte_dec_bl in Eb as ->. intros Hn. f_equal. now apply IH.
Qed.

Lemma gcm_authentic_holds : gcm_authentic.
Proof.
  intros iv key key' data Hne. simpl. unfold decrypt, encrypt.
  rewrite strip_prefix_app_l.
  destruct (strip_prefix (frame key') (frame key ++ data)) eqn:E; [|reflexivity].
  exfalso. apply Hne. apply (frame_prefix key' key data). now rewrite E.
Qed.

Lemma gcm_iv_injective_holds : gcm_iv_injective.
Proof.
  intros key data iv1 iv2 H1 H2 E. simpl in E. unfold encrypt in E.
  apply app_inj_1 in E; [tauto | congruence].
Qed.


Lemma reachable_world0 : reachable world0.
Proof. apply reachable_first. repeat split. Qed.

Lemma reachable_world_set : reachable world_set.
Proof. exact (reachable_after (ev_setupPassword "correct horse") world0 reachable_world0). Qed.

Lemma reachable_world_reloaded : reachable world_reloaded.
Proof. exact (reachable_after ev_reload world_set reachable_world_set). Qed.

Lemma wf_world_set : wf_keys world_set.
Proof. exact (reachable_wf _ base64_roundtrip_holds reachable_world_set). Qed.

Lemma wf_world_reloaded : wf_keys world_reloaded.
Proof. exact (reachable_wf _ base64_roundtrip_holds reachable_world_reloaded). Qed.

Lemma keyed_configs_A : keyed config_id (aiConfigs (db world_A)).
Proof.
  unfold keyed. apply (map_Forall_to_list (fun k r => config_id r = k)).
  vm_compute. repeat constructor.
Qed.

Lemma keyed_album : keyed id (mediaItems (db world_album)).
Proof.
  unfold keyed. apply (map_Forall_to_list (fun k r => id r = k)).
  vm_compute. repeat constructor.
Qed.

Lemma page_world0 : page_reachable world0.
Proof. apply page_first. split; [repeat split | reflexivity]. Qed.

Lemma page_world_set : page_reachable world_set.
Proof.
  pose proof (page_after (pe_key (ev_setupPassword "correct horse")) world0 page_world0)
    as Hp.
  cbn [after_page after] in Hp. unfold world_set. exact Hp.
Qed.

Lemma page_world_album : page_reachable world_album.
Proof.
  pose proof (page_after (pe_addCategory holidays) world_set page_world_set) as Hc.
  pose proof (page_after (pe_importFiles [photo; film] "cat-1" false) _ Hc) as Hp.
  cbn [after_page] in Hp. unfold world_album. exact Hp.
Qed.

Lemma wf_db_world0 : wf_db (db world0).
Proof.
  unfold wf_db. cbn. repeat split; first [apply keyed_empty | apply unique_empty].
Qed.

Lemma wf_db_world_set : wf_db (db world_set).
Proof.
  pose proof (after_page_wf_db (pe_key (ev_setupPassword "correct horse")) world0
                wf_db_world0) as Hw.
  cbn [after_page after] in Hw. unfold world_set. exact Hw.
Qed.

Lemma wf_db_world_D : wf_db (db world_D).
Proof.
  pose proof (after_page_wf_db (pe_saveConfig configDefault) world_set wf_db_world_set)
    as Hw.
  cbn [after_page] in Hw. unfold world_D. exact Hw.
Qed.

Lemma wf_db_world_album : wf_db (db world_album).
Proof.
  pose proof (after_page_wf_db (pe_addCategory holidays) world_set wf_db_world_set) as Hc.
  pose proof (after_page_wf_db (pe_importFiles [photo; film] "cat-1" false) _ Hc) as Hw.
  cbn [after_page] in Hw. unfold world_album. exact Hw.
Qed.

End ToyFacts.

(* --------------------------------------------------------------------- *)
(** ** The theorems at work on concrete states                             *)
(* --------------------------------------------------------------------- *)

Module Runs.
Import Toy ToyFacts.

(** C1 on the state after set-up: two encryptions of one blob, with IVs
    that differ, give ciphertexts that differ and both decrypt. *)
Lemma encrypt_decrypt_roundtrip_run :
  masterKey (keyManager world_set) = Some key_set
  /\ exists c1 iv1 c2 iv2 w1 w2,
       Encryption.encryptFile letter world_set = (Ok (c1, iv1), w1)
       /\ Encryption.encryptFile letter w1 = (Ok (c2, iv2), w2)
       /\ iv1 <> iv2
       /\ fst (Encryption.decryptFile c1 iv1 w2) = Ok (blob_bytes letter)
       /\ fst (Encryption.decryptFile c2 iv2 w2) = Ok (blob_bytes letter)
       /\ c1 <> c2.
Proof.
  assert (Hk : masterKey (keyManager world_set) = Some key_set)
    by (vm_compute; reflexivity).
  split; [exact Hk|].
  destruct (encrypt_decrypt_roundtrip world_set key_set letter
              gcm_roundtrip_holds gcm_iv_injective_holds Hk)
    as (w1 & w2 & E1 & E2 & _ & _ & _ & D1 & D2 & Hne).
  assert (Hiv : entropy_bytes world_set (entropy_pos (browser world_set)) 12
                <> entropy_bytes world_set (entropy_pos (browser world_set) + 12) 12)
    by (vm_compute; discriminate).
  eexists _, _, _, _, w1, w2.
  split; [exact E1|]. split; [exact E2|]. split; [exact Hiv|].
  split; [exact D1|]. split; [exact D2|]. exact (Hne Hiv).
Defined.


(** C4 as claimed fails: with a salt persisted, a second [setupPassword]
    returns [true] and replaces the verifier. *)
Lemma setupPassword_no_guard :
  KeyManager.isPasswordSet world_reloaded = true
  /\ fst (KeyManager.setupPassword "another" world_reloaded) = Ok true
  /\ stored (snd (KeyManager.setupPassword "another" world_reloaded)) "password_test"
     <> stored world_reloaded "password_test"
  /\ ~ (KeyManager.isPasswordSet world_reloaded = true ->
        (exists e, fst (KeyManager.setupPassword "another" world_reloaded) = Throw e)
        /\ stored (snd (KeyManager.setupPassword "another" world_reloaded)) "password_test"
           = stored world_reloaded "password_test").
Proof.
  assert (H1 : KeyManager.isPasswordSet world_reloaded = true) by (vm_compute; reflexivity).
  assert (H2 : fst (KeyManager.setupPassword "another" world_reloaded) = Ok true)
    by (vm_compute; reflexivity).
  split; [exact H1|]. split; [exact H2|]. split.
  - vm_compute. discriminate.
  - intros Hclaim. destruct (Hclaim H1) as [[e He] _]. rewrite H2 in He. discriminate.
Qed.

(** C4 as the code has it, after a reload. *)
Lemma setupPassword_again_run :
  wf_keys world_reloaded
  /\ KeyManager.isPasswordSet world_reloaded = true
  /\ fst (KeyManager.setupPassword "another" world_reloaded) = Ok true
  /\ stored (snd (KeyManager.setupPassword "another" world_reloaded)) "app_salt"
     = stored world_reloaded "app_salt".
Proof.
  assert (H1 : KeyManager.isPasswordSet world_reloaded = true) by (vm_compute; reflexivity).
  split; [exact wf_world_reloaded|]. split; [exact H1|].
  destruct (setupPassword_again world_reloaded "another"
              base64_roundtrip_holds base64_nonempty_holds wf_world_reloaded H1)
    as (s & w' & E & Hs & Hs' & _).
  rewrite E. simpl. split; [reflexivity|]. now rewrite Hs, Hs'.
Defined.

(** C5 on two states with the same persisted salt. *)
Lemma deriveKey_pbkdf2_run :
  wf_keys world_reloaded /\ wf_keys world_set
  /\ stored world_reloaded "app_salt" = Some (KeyManager.bufferToBase64 salt_set)
  /\ stored world_set "app_salt" = Some (KeyManager.bufferToBase64 salt_set)
  /\ fst (KeyManager.deriveKey "correct horse" world_set)
     = fst (KeyManager.deriveKey "correct horse" world_reloaded)
  /\ fst (KeyManager.deriveKey "correct horse" world_reloaded) = Ok key_set.
Proof.
  assert (H1 : stored world_reloaded "app_salt" = Some (KeyManager.bufferToBase64 salt_set))
    by (vm_compute; reflexivity).
  assert (H2 : stored world_set "app_salt" = Some (KeyManager.bufferToBase64 salt_set))
    by (vm_compute; reflexivity).
  split; [exact wf_world_reloaded|]. split; [exact wf_world_set|].
  split; [exact H1|]. split; [exact H2|].
  destruct (deriveKey_pbkdf2 world_reloaded world_set "correct horse" salt_set
              base64_roundtrip_holds base64_nonempty_holds
              wf_world_reloaded wf_world_set H1 H2) as (Hk & Hsame & _).
  split; [exact Hsame|]. rewrite Hk. vm_compute. reflexivity.
Defined.

(** C10 after a reload: a wrong password is refused and yet its key is held. *)
Lemma verifyPassword_holds_key_run :
  wf_keys world_reloaded
  /\ KeyManager.isUnlocked world_reloaded = false
  /\ exists t key w',
       stored world_reloaded "password_test" = Some t
       /\ KeyManager.verifyPassword "wrong" world_reloaded = (Ok false, w')
       /\ fst (KeyManager.deriveKey "wrong" world_reloaded) = Ok key
       /\ KeyManager.isUnlocked w' = true
       /\ fst (KeyManager.getMasterKey w') = Ok key.
Proof.
  split; [exact wf_world_reloaded|]. split; [vm_compute; reflexivity|].
  destruct (stored world_reloaded "password_test") as [t|] eqn:Et;
    [|vm_compute in Et; discriminate].
  destruct (verifyPassword_holds_key world_reloaded "wrong" t
              base64_roundtrip_holds json_nonempty_holds wf_world_reloaded Et)
    as (b & key & w' & E & Hd & _ & Hu & Hg).
  assert (Hb : b = false).
  { apply (f_equal fst) in E. vm_compute in E. now injection E as <-. }
  subst b. exists t, key, w'. repeat split; assumption.
Defined.

(** C6: saving B while A is active. *)
Lemma saveConfig_one_active_run :
  keyed config_id (aiConfigs (db world_A))
  /\ aiConfigs (db world_A) !! "A" = Some savedA
  /\ isActive savedA = true
  /\ AIAPIClient.saveConfig configB world_A = (Ok savedB, world_B)
  /\ aiConfigs (db world_B) !! "A" = Some (with_isActive false savedA)
  /\ active_configs (aiConfigs (db world_B)) = {[ config_id savedB := savedB ]}
  /\ size (active_configs (aiConfigs (db world_B))) = 1%nat.
Proof.
  assert (HA : aiConfigs (db world_A) !! "A" = Some savedA) by (vm_compute; reflexivity).
  assert (Hfst : fst (AIAPIClient.saveConfig configB world_A) = Ok savedB)
    by (vm_compute; reflexivity).
  assert (Hrun : AIAPIClient.saveConfig configB world_A = (Ok savedB, world_B))
    by (rewrite <- Hfst; apply surjective_pairing).
  split; [exact keyed_configs_A|]. split; [exact HA|].
  split; [vm_compute; reflexivity|]. split; [exact Hrun|].
  destruct (saveConfig_one_active world_A world_B configB savedB keyed_configs_A Hrun)
    as (_ & _ & Hother & _ & Hact & Hsize).
  split; [|split; assumption].
  apply (Hother "A" savedA HA). vm_compute. discriminate.
Defined.

(** A save that does not complete: the settings dialog saves twice under
    the fixed name; the second record has a new id, the unique index on the
    name refuses it after the loop has deactivated the first, and no
    configuration is left active. *)
Lemma saveConfig_same_name_run :
  (exists saved, fst (AIAPIClient.saveConfig configDefault world_set) = Ok saved)
  /\ size (active_configs (aiConfigs (db world_D))) = 1%nat
  /\ fst (AIAPIClient.saveConfig configDefault world_D) = Throw ObjectStore.ConstraintError
  /\ active_configs (aiConfigs (db (snd (AIAPIClient.saveConfig configDefault world_D)))) = ∅.
Proof.
  split; [eexists; vm_compute; reflexivity|].
  split; [vm_compute; reflexivity|].
  split; vm_compute; reflexivity.
Qed.

(** C7: a picture is imported, a text file is refused. *)
Lemma processFile_atomic_run :
  exists item w',
    FileHandler.processFile photo "uncategorized" world_set = (Ok item, w')
    /\ mediaItems (db w') = {[ id item := item ]}
    /\ aiTags item = []
    /\ thumbnailIv item <> fileIv item
    /\ FileHandler.processFile notes "uncategorized" world_set
       = (Throw (Error "Unsupported file type"), world_set).
Proof.
  destruct (FileHandler.processFile photo "uncategorized" world_set) as [[item|e] w'] eqn:Ep;
    [|apply (f_equal fst) in Ep; vm_compute in Ep; discriminate].
  destruct (processFile_atomic photo "uncategorized" world_set) as (_ & _ & Hok).
  destruct (Hok item w' Ep)
    as (_ & _ & Hins & _ & _ & _ & _ & Htags & _ & key & thumb & _ & _ & _ & Hiv1 & _ & Hiv2).
  cbv zeta in Hiv1, Hiv2.
  exists item, w'. split; [reflexivity|].
  split; [rewrite Hins; apply insert_empty|]. split; [exact Htags|].
  split; [rewrite Hiv1, Hiv2; vm_compute; discriminate|].
  destruct (processFile_atomic notes "uncategorized" world_set) as (_ & Hun & _).
  apply Hun. vm_compute. reflexivity.
Defined.


(** C9: deleting a category that holds two items. *)
Lemma deleteCategory_reassigns_run :
  keyed id (mediaItems (db world_album))
  /\ size (mediaItems (db world_album)) = 2%nat
  /\ (forall k item, mediaItems (db world_album) !! k = Some item ->
        categoryId item = "cat-1")
  /\ categories (db world_album) !! "cat-1" = Some holidays
  /\ let w' := snd (CategoryManager.deleteCategory true "cat-1" world_album) in
     size (mediaItems (db w')) = 2%nat
     /\ (forall k item, mediaItems (db world_album) !! k = Some item ->
           exists moved,
             mediaItems (db w') !! k = Some moved
             /\ categoryId moved = "uncategorized"
             /\ id moved = id item /\ fileName moved = fileName item
             /\ fileData moved = fileData item /\ fileIv moved = fileIv item
             /\ thumbnailData moved = thumbnailData item
             /\ aiTags moved = aiTags item /\ createdAt moved = createdAt item)
     /\ categories (db w') !! "cat-1" = None.
Proof.
  assert (Hsize : size (mediaItems (db world_album)) = 2%nat) by (vm_compute; reflexivity).
  assert (Hcat : forall k item, mediaItems (db world_album) !! k = Some item ->
                   categoryId item = "cat-1").
  { apply (map_Forall_to_list (fun _ item => categoryId item = "cat-1")).
    vm_compute. repeat constructor. }
  split; [exact keyed_album|]. split; [exact Hsize|]. split; [exact Hcat|].
  split; [vm_compute; reflexivity|].
  destruct (deleteCategory_reassigns world_album "cat-1" keyed_album)
    as (_ & Hlook & _ & Hsz & Hdel & _).
  cbv zeta. split; [now rewrite Hsz|]. split.
  - intros k item Hk. rewrite (Hlook k item Hk), (Hcat k item Hk).
    eexists. split; [reflexivity|]. repeat split.
  - rewrite Hdel. apply lookup_delete_eq.
Defined.

(** X1 on the state after set-up: the API key of a configuration is
    encrypted, decrypts under the key held, and does not once the page is
    reloaded and locked. *)
Lemma encryptString_roundtrip_run :
  masterKey (keyManager world_set) = Some key_set
  /\ exists encrypted iv w1,
       Encryption.encryptString "key-a" world_set = (Ok (encrypted, iv), w1)
       /\ Encryption.decryptString encrypted iv world_set = (Ok "key-a", world_set)
       /\ Encryption.decryptString encrypted iv world_reloaded
          = (Throw locked, world_reloaded).
Proof.
  assert (Hk : masterKey (keyManager world_set) = Some key_set)
    by (vm_compute; reflexivity).
  split; [exact Hk|].
  destruct (encryptString_roundtrip world_set key_set "key-a"
              base64_roundtrip_holds gcm_roundtrip_holds gcm_authentic_holds eq_refl Hk)
    as (encrypted & iv & w1 & E & _ & _ & _ & Hsame & _ & Hlocked).
  exists encrypted, iv, w1. split; [exact E|]. split; [exact (Hsame world_set Hk)|].
  apply Hlocked. reflexivity.
Defined.

(** X2 after a reload. *)
Lemma locked_refuses_run :
  KeyManager.isUnlocked world_reloaded = false
  /\ Encryption.encryptString "key-a" world_reloaded = (Throw locked, world_reloaded)
  /\ Encryption.encryptFile letter world_reloaded = (Throw locked, world_reloaded).
Proof.
  assert (Hl : KeyManager.isUnlocked world_reloaded = false) by reflexivity.
  destruct (locked_refuses world_reloaded Hl) as (_ & Hf & _ & Hs & _).
  split; [exact Hl|]. split; [apply Hs | apply Hf].
Defined.

(** X3: a blob encrypted after the set-up is decrypted after a reload with
    the password, and not with another one. *)
Lemma decrypt_in_later_session_run :
  wf_keys world_set
  /\ stored world_set "app_salt" = Some (KeyManager.bufferToBase64 salt_set)
  /\ masterKey (keyManager world_set) = Some (pbkdf2_key "correct horse" salt_set)
  /\ exists c iv w1,
       Encryption.encryptFile letter world_set = (Ok (c, iv), w1)
       /\ (let w2 := snd (KeyManager.deriveKey "correct horse" (after ev_reload w1)) in
           Encryption.decryptFile c iv w2 = (Ok (blob_bytes letter), w2))
       /\ (let w2 := snd (KeyManager.deriveKey "wrong" (after ev_reload w1)) in
           Encryption.decryptFile c iv w2 = (Throw not_authentic, w2)).
Proof.
  assert (Hs : stored world_set "app_salt" = Some (KeyManager.bufferToBase64 salt_set))
    by (vm_compute; reflexivity).
  assert (Hk : masterKey (keyManager world_set) = Some (pbkdf2_key "correct horse" salt_set))
    by (vm_compute; reflexivity).
  assert (Hkeys : pbkdf2_key "wrong" salt_set <> pbkdf2_key "correct horse" salt_set)
    by (vm_compute; discriminate).
  split; [exact wf_world_set|]. split; [exact Hs|]. split; [exact Hk|].
  destruct (decrypt_in_later_session world_set "correct horse" salt_set letter
              base64_roundtrip_holds base64_nonempty_holds gcm_roundtrip_holds
              gcm_authentic_holds wf_world_set Hs Hk)
    as (c & iv & w1 & E & Hlater).
  exists c, iv, w1. split; [exact E|]. split.
  - destruct (Hlater "correct horse") as (_ & Hgood & _). now apply Hgood.
  - destruct (Hlater "wrong") as (_ & _ & Hbad). now apply Hbad.
Defined.


(** X5 after a reload: the salt is read back, no byte is drawn. *)
Lemma initializeSalt_idempotent_run :
  wf_keys world_reloaded
  /\ exists w1,
       KeyManager.initializeSalt world_reloaded = (Ok tt, w1)
       /\ KeyManager.initializeSalt w1 = (Ok tt, w1)
       /\ browser w1 = browser world_reloaded.
Proof.
  split; [exact wf_world_reloaded|].
  destruct (initializeSalt_idempotent world_reloaded
              base64_roundtrip_holds base64_nonempty_holds wf_world_reloaded)
    as (w1 & E1 & E2 & _ & Hb).
  exists w1. split; [exact E1|]. split; [exact E2|].
  apply Hb. vm_compute. reflexivity.
Defined.

(** X7 on the empty store. *)
Lemma mediaItem_roundtrip_run :
  mediaItems (db world0) !! id sketch = None
  /\ exists w1,
       IndexedDBManager.addMediaItem sketch world0 = (Ok tt, w1)
       /\ IndexedDBManager.getMediaItem "m-1" w1 = (Ok (Some sketch), w1)
       /\ IndexedDBManager.addMediaItem sketch w1 = (Throw ObjectStore.ConstraintError, w1).
Proof.
  assert (Hfree : mediaItems (db world0) !! id sketch = None) by reflexivity.
  split; [exact Hfree|].
  destruct (mediaItem_roundtrip sketch world0 Hfree) as (w1 & Ea & Eg & Eagain & _).
  exists w1. split; [exact Ea|]. split; [exact Eg | exact Eagain].
Defined.

(** X8 on the state with a category and two imported items. *)
Lemma page_state_wellformed_run :
  page_reachable world_album /\ wf_keys world_album /\ wf_db (db world_album).
Proof.
  split; [exact page_world_album|].
  exact (page_state_wellformed world_album base64_roundtrip_holds page_world_album).
Defined.

(** X9: an import leaves the key manager and what it persists alone. *)
Lemma only_key_manager_touches_keys_run :
  outside_key_manager (pe_importFiles [photo; film] "cat-1" false) = true
  /\ keyManager (after_page (pe_importFiles [photo; film] "cat-1" false) world_set)
     = keyManager world_set
  /\ stored (after_page (pe_importFiles [photo; film] "cat-1" false) world_set) "app_salt"
     = stored world_set "app_salt".
Proof.
  assert (Ho : outside_key_manager (pe_importFiles [photo; film] "cat-1" false) = true)
    by reflexivity.
  destruct (only_key_manager_touches_keys (pe_importFiles [photo; film] "cat-1" false)
              world_set Ho) as (Hk & Hs & _).
  split; [exact Ho|]. split; [exact Hk | exact Hs].
Defined.

(** X12 after a reload: both files fail, the stores stay empty. *)
Lemma import_while_locked_run :
  KeyManager.isUnlocked world_reloaded = false
  /\ exists results w',
       FileHandler.importFiles [photo; notes] "uncategorized" true world_reloaded
       = (Ok results, w')
       /\ db w' = db world_reloaded
       /\ List.map success results = [false; false]
       /\ AIAPIClient.saveConfig configA world_reloaded = (Throw locked, world_reloaded).
Proof.
  assert (Hl : KeyManager.isUnlocked world_reloaded = false) by reflexivity.
  split; [exact Hl|].
  destruct (import_while_locked [photo; notes] "uncategorized" true world_reloaded Hl)
    as ((results & w' & E & (_ & Hdb & _) & Hlen & Hall & _) & _ & Hsave).
  exists results, w'. split; [exact E|]. split; [exact Hdb|]. split; [|apply Hsave].
  destruct results as [|r1 [|r2 [|r3 rest]]]; try discriminate Hlen.
  inversion Hall as [|? ? H1 Hall']; subst. inversion Hall' as [|? ? H2 _]; subst.
  cbn. now rewrite H1, H2.
Defined.

(** X13: an imported picture is read back. *)
Lemma import_then_decrypt_run :
  exists item w',
    FileHandler.processFile photo "uncategorized" world_set = (Ok item, w')
    /\ FileHandler.getDecryptedBlob item w' = (Ok (mkBlob [x01; x02; x03] "image/png"), w')
    /\ FileHandler.getDecryptedThumbnail item w'
       = (Ok (FileHandler.object_url (mkBlob [x01; x02] "image/jpeg")), w').
Proof.
  destruct (FileHandler.processFile photo "uncategorized" world_set) as [[item|e] w'] eqn:Ep;
    [|apply (f_equal fst) in Ep; vm_compute in Ep; discriminate].
  destruct (import_then_decrypt photo "uncategorized" world_set w' item
              base64_roundtrip_holds gcm_roundtrip_holds Ep)
    as (thumbnail & Ht & Hk & Hread).
  exists item, w'. split; [reflexivity|].
  destruct (Hread w' (f_equal masterKey Hk)) as (Hb & _ & Hthumb).
  split; [exact Hb|]. rewrite Hthumb.
  assert (Hty : type item = image).
  { apply (f_equal fst) in Ep. cbn [fst] in Ep.
    assert (Hi : match fst (FileHandler.processFile photo "uncategorized" world_set) with
                 | Ok i => type i | Throw _ => video end = image)
      by (vm_compute; reflexivity).
    rewrite Ep in Hi. exact Hi. }
  rewrite Hty in Ht. cbn in Ht. apply Ok_inj in Ht. now subst thumbnail.
Defined.

(** X15: the settings dialog saves a second time under the fixed name. *)
Lemma saveConfig_name_taken_run :
  aiConfigs (db world_D) !! config_id savedD = Some savedD
  /\ isActive savedD = true
  /\ exists w',
       AIAPIClient.saveConfig configDefault world_D
       = (Throw ObjectStore.ConstraintError, w')
       /\ aiConfigs (db w') !! config_id savedD = Some (with_isActive false savedD)
       /\ active_configs (aiConfigs (db w')) = ∅.
Proof.
  assert (Hk : masterKey (keyManager world_D) = Some key_set) by (vm_compute; reflexivity).
  assert (Hd : aiConfigs (db world_D) !! config_id savedD = Some savedD)
    by (vm_compute; reflexivity).
  assert (Hne : config_id savedD <> saved_id configDefault world_D)
    by (vm_compute; discriminate).
  assert (Hname : config_name savedD = or_default (input_name configDefault) "Default Config")
    by (vm_compute; reflexivity).
  assert (Hfree : aiConfigs (db world_D) !! saved_id configDefault world_D = None)
    by (vm_compute; reflexivity).
  pose proof wf_db_world_D as (_ & _ & _ & Hkeyed & Huniq).
  split; [exact Hd|]. split; [vm_compute; reflexivity|].
  destruct (saveConfig_name_taken world_D configDefault key_set (config_id savedD) savedD
              Hk Hkeyed Huniq Hd Hne Hname)
    as (w' & E & Hother & _ & _ & Hact & _).
  exists w'. split; [exact E|]. split; [exact (Hother _ _ Hd Hne) | exact (Hact Hfree)].
Defined.

(** X16: configuration A is saved and its key decrypts; after a reload and
    a new unlock [loadConfig] leaves the new client as it is. *)
Lemma saveConfig_key_recoverable_run :
  AIAPIClient.saveConfig configA world_set = (Ok savedA, world_A)
  /\ Encryption.decryptString (apiKeyEncrypted savedA) (apiKeyIv savedA) world_A_again
     = (Ok (input_apiKey configA), world_A_again)
  /\ isActive savedA = true
  /\ aiConfigs (db world_A_again) !! "A" = Some savedA
  /\ AIAPIClient.loadConfig world_A_again = (Ok tt, world_A_again)
  /\ aiClient world_A_again = mkAIClient "" "" "gpt-4o" "describe".
Proof.
  assert (Hfst : fst (AIAPIClient.saveConfig configA world_set) = Ok savedA)
    by (vm_compute; reflexivity).
  assert (Hrun : AIAPIClient.saveConfig configA world_set = (Ok savedA, world_A))
    by (rewrite <- Hfst; apply surjective_pairing).
  assert (Hk : masterKey (keyManager world_A_again) = masterKey (keyManager world_set))
    by (vm_compute; reflexivity).
  assert (Hstored : aiConfigs (db world_A_again) !! "A" = Some savedA)
    by (vm_compute; reflexivity).
  destruct (saveConfig_key_recoverable world_set world_A configA savedA
              base64_roundtrip_holds gcm_roundtrip_holds eq_refl Hrun)
    as (_ & _ & Hactive & _ & _ & Hdec & Hload).
  split; [exact Hrun|]. split; [exact (Hdec world_A_again Hk)|].
  split; [exact Hactive|]. split; [exact Hstored|]. split; [|reflexivity].
  apply Hload. right. eexists. reflexivity.
Defined.

(** X18: the dialog is saved again, with the fields filled. *)
Lemma saveAIConfig_once_run :
  aiConfigs (db world_D) !! config_id savedD = Some savedD
  /\ config_name savedD = "Default Config"
  /\ exists w',
       SettingsManager.saveAIConfig " https://c.example/v1" "key-c " "gpt-4o" "" world_D
       = (Ok (SettingsManager.mkStatus
                (String.append "保存失败: " (exn_message ObjectStore.ConstraintError))
                "error"), w')
       /\ active_configs (aiConfigs (db w')) = ∅.
Proof.
  assert (Hk : masterKey (keyManager world_D) = Some key_set) by (vm_compute; reflexivity).
  assert (Hd : aiConfigs (db world_D) !! config_id savedD = Some savedD)
    by (vm_compute; reflexivity).
  assert (Hname : config_name savedD = "Default Config") by (vm_compute; reflexivity).
  assert (Hfree : aiConfigs (db world_D) !! next_uuid world_D = None)
    by (vm_compute; reflexivity).
  pose proof wf_db_world_D as (_ & _ & _ & Hkeyed & Huniq).
  split; [exact Hd|]. split; [exact Hname|].
  assert (Ta : truthy (Some (String_trim " https://c.example/v1")) = true)
    by (vm_compute; reflexivity).
  assert (Tb : truthy (Some (String_trim "key-c ")) = true) by (vm_compute; reflexivity).
  assert (Tc : truthy (Some (String_trim "gpt-4o")) = true) by (vm_compute; reflexivity).
  destruct (saveAIConfig_once world_D key_set (config_id savedD) savedD
              " https://c.example/v1" "key-c " "gpt-4o" ""
              Hk Hkeyed Huniq Hd Hname Hfree Ta Tb Tc)
    as ((w' & E & Hact & _) & _).
  exists w'. split; [exact E | exact Hact].
Defined.

(** X19: the category of the album is deleted. *)
Lemma deleteCategory_forgets_run :
  keyed id (mediaItems (db world_album))
  /\ keyed category_id (categories (db world_album))
  /\ categories (db world_album) !! "cat-1" = Some holidays
  /\ let w' := snd (CategoryManager.deleteCategory true "cat-1" world_album) in
     fst (CategoryManager.getCategoryById "cat-1" w') = Ok None
     /\ cm_categories (categoryManager w') = ObjectStore.getAll (categories (db w')).
Proof.
  pose proof wf_db_world_album as (Hcat & _ & Hitems & _).
  split; [exact Hitems|]. split; [exact Hcat|]. split; [vm_compute; reflexivity|].
  pose proof (deleteCategory_forgets world_album "cat-1" Hitems Hcat) as Hf.
  cbv zeta in Hf. destruct Hf as (Hcache & Hgone & _).
  cbv zeta. split; [exact Hgone | exact Hcache].
Defined.

(** X20: the category of the album is renamed in the dialog. *)
Lemma saveCategory_edit_run :
  categories (db world_album) !! "cat-1" = Some holidays
  /\ categories
       (db (snd (CategoryManager.saveCategory " Trips " "" "#ffffff" (Some "cat-1")
                   world_album)))
     !! "cat-1"
     = Some (mkCategory "cat-1" "Trips" "" "#ffffff"
               (clock (browser world_album) (clock_pos (browser world_album)))).
Proof.
  pose proof wf_db_world_album as (Hcat & _).
  assert (Honly : forall k r, categories (db world_album) !! k = Some r -> k = "cat-1").
  { apply (map_Forall_to_list (fun k _ => k = "cat-1")). vm_compute. repeat constructor. }
  split; [vm_compute; reflexivity|].
  assert (Tn : truthy (Some (String_trim " Trips ")) = true) by (vm_compute; reflexivity).
  assert (Te : truthy (Some "cat-1") = true) by reflexivity.
  pose proof (saveCategory_edit world_album " Trips " "" "#ffffff" "cat-1" Tn Te Hcat)
    as He.
  cbv zeta in He. destruct He as (Hfree & _).
  destruct Hfree as (Hstore & _).
  { intros k r Hk Hne. contradiction (Hne (Honly k r Hk)). }
  rewrite Hstore. apply lookup_insert_eq.
Defined.

End Runs.
